(** * klauspost/oui: MAC prefix parser, registry parser and OUI database

    A shallow embedding of the Go package [oui] (hardwareaddr.go, the
    entry type and the database file) together with the properties of
    its specification.

    Conventions.
    - A Go [string] is a sequence of bytes: [string] of [ascii].
    - A Go [byte] is a [Z] in [0, 256).
    - A Go result pair (pointer to [T], [error]) is a value of
      [result T]; the Go [error] interface is the closed type [error]
      of the two error values the package creates.
    - A [map[[3]byte]Entry] is a [gmap HardwareAddr Entry]; a call that
      mutates a map passed to it returns the updated map.
    - The standard-library functions the package calls ([strings.Split],
      [strings.TrimSpace], [strings.Trim], [strings.HasPrefix],
      [fmt.Sscanf] with the verb [%x] into a byte, the one regular
      expression of the scanner, [bufio.Scanner] with its default line
      splitter) are modelled by functions of the same name.
      [time.Parse] is a parameter of the development. *)

From Stdlib Require Import ZArith NArith Ascii String List Bool Lia DecimalString.
From stdpp Require Import base option list gmap strings sorting.

Local Open Scope string_scope.
Local Open Scope Z_scope.

(** ** Bytes and characters *)

Definition code (c : ascii) : Z := Z.of_N (N_of_ascii c).

Definition tab : ascii := "009"%char.
Definition lf : ascii := "010"%char.
Definition cr : ascii := "013"%char.
Definition dquote : ascii := "034"%char.

Definition isDigit (c : ascii) : bool := (48 <=? code c) && (code c <=? 57).
Definition isLower (c : ascii) : bool := (97 <=? code c) && (code c <=? 122).
Definition isUpper (c : ascii) : bool := (65 <=? code c) && (code c <=? 90).

(** [len(s)] *)
Definition len (s : string) : nat := String.length s.

(** [s[i]], for an index in range *)
Definition byteAt (s : string) (i : nat) : option ascii := String.get i s.

(** [s[n:]] *)
Fixpoint dropBytes (n : nat) (s : string) : string :=
  match n, s with
  | O, _ => s
  | S n', String _ s' => dropBytes n' s'
  | S _, EmptyString => EmptyString
  end.

Fixpoint revString (s acc : string) : string :=
  match s with
  | EmptyString => acc
  | String c s' => revString s' (String c acc)
  end.

(** [strings.IndexByte(s, c) >= 0] *)
Fixpoint containsByte (s : string) (c : ascii) : bool :=
  match s with
  | EmptyString => false
  | String d s' => Ascii.eqb c d || containsByte s' c
  end.

(** [strings.HasPrefix] *)
Fixpoint HasPrefix (s p : string) : bool :=
  match p, s with
  | EmptyString, _ => true
  | String a p', String b s' => Ascii.eqb a b && HasPrefix s' p'
  | String _ _, EmptyString => false
  end.

(** [strings.Split(s, string(sep))] for a one-byte separator: the
    fields between the separators, one more than there are separators
    (the empty string gives one empty field). *)
Fixpoint Split (s : string) (sep : ascii) : list string :=
  match s with
  | EmptyString => [EmptyString]
  | String c s' =>
      if Ascii.eqb c sep then EmptyString :: Split s' sep
      else match Split s' sep with
           | f :: fs => String c f :: fs
           | [] => [String c EmptyString]
           end
  end.

(** [strings.Trim(s, cutset)] for an ASCII cutset. *)
Fixpoint TrimLeft (s cutset : string) : string :=
  match s with
  | EmptyString => EmptyString
  | String c s' => if containsByte cutset c then TrimLeft s' cutset else s
  end.

Definition Trim (s cutset : string) : string :=
  revString (TrimLeft (revString (TrimLeft s cutset) "") cutset) "".

(** [strings.TrimSpace]: leading and trailing white space as
    [unicode.IsSpace] defines it, on the UTF-8 encoding.  The ASCII
    spaces are tab, LF, VT, FF, CR and space; the others are U+0085,
    U+00A0 (two bytes), U+1680, U+2000..U+200A, U+2028, U+2029, U+202F,
    U+205F and U+3000 (three bytes). *)
Definition asciiSpace (c : ascii) : bool :=
  ((9 <=? code c) && (code c <=? 13)) || (code c =? 32).

Definition space2 (a b : ascii) : bool :=
  (code a =? 194) && ((code b =? 133) || (code b =? 160)).

Definition space3 (a b c : ascii) : bool :=
  ((code a =? 225) && (code b =? 154) && (code c =? 128))
  || ((code a =? 226) && (code b =? 128)
      && (((128 <=? code c) && (code c <=? 138))
          || (code c =? 168) || (code c =? 169) || (code c =? 175)))
  || ((code a =? 226) && (code b =? 129) && (code c =? 159))
  || ((code a =? 227) && (code b =? 128) && (code c =? 128)).

Fixpoint trimSpaceLeft (s : string) : string :=
  match s with
  | EmptyString => EmptyString
  | String a s1 =>
      if asciiSpace a then trimSpaceLeft s1
      else match s1 with
           | String b s2 =>
               if space2 a b then trimSpaceLeft s2
               else match s2 with
                    | String c s3 =>
                        if space3 a b c then trimSpaceLeft s3 else s
                    | EmptyString => s
                    end
           | EmptyString => s
           end
  end.

(** The same from the end, on the reversed string (so the bytes of an
    encoded space come last byte first). *)
Fixpoint trimSpaceRightRev (r : string) : string :=
  match r with
  | EmptyString => EmptyString
  | String a r1 =>
      if asciiSpace a then trimSpaceRightRev r1
      else match r1 with
           | String b r2 =>
               if space2 b a then trimSpaceRightRev r2
               else match r2 with
                    | String c r3 =>
                        if space3 c b a then trimSpaceRightRev r3 else r
                    | EmptyString => r
                    end
           | EmptyString => r
           end
  end.

Definition TrimSpace (s : string) : string :=
  revString (trimSpaceRightRev (revString (trimSpaceLeft s) "")) "".

(** [fmt.Sprintf("%d", n)] for a non-negative [n]. *)
Definition Itoa (n : nat) : string := NilZero.string_of_uint (Nat.to_uint n).

(** ** Results and errors *)

(** The package's two errors: the struct [ErrInvalidMac] that
    [ParseMac] returns and the sentinel [ErrNotFound] of the
    database. *)
Inductive error : Type :=
  | ErrInvalidMac (Reason Mac : string)
  | ErrNotFound.

(** [ErrInvalidMac.Error] and [errors.New("not found").Error]. *)
Definition Error (e : error) : string :=
  match e with
  | ErrInvalidMac reason mac =>
      "invalid mac address '" +:+ mac +:+ "': " +:+ reason
  | ErrNotFound => "not found"
  end.

Inductive result (A : Type) : Type :=
  | Ok (a : A)
  | Err (e : error).
Arguments Ok {A} a.
Arguments Err {A} e.

Definition isErr {A} (r : result A) : bool :=
  match r with Ok _ => false | Err _ => true end.

(** ** [fmt.Sscanf(p, "%x", &b)] for a byte [b] *)

(** [strconv.ParseUint(tok, 16, 64)]: every byte has to be a
    hexadecimal digit (an underscore is a syntax error for an explicit
    base), and the value has to fit 64 bits. *)
Definition hexVal (c : ascii) : option Z :=
  if isDigit c then Some (code c - 48)
  else if (97 <=? code c) && (code c <=? 102) then Some (code c - 97 + 10)
  else if (65 <=? code c) && (code c <=? 70) then Some (code c - 65 + 10)
  else None.

Definition isHex (c : ascii) : bool :=
  match hexVal c with Some _ => true | None => false end.

Inductive numError : Type := ErrSyntax | ErrRange.

Fixpoint parseHexFrom (tok : string) (acc : Z) : Z + numError :=
  match tok with
  | EmptyString => inl acc
  | String c tok' =>
      match hexVal c with
      | None => inr ErrSyntax
      | Some d =>
          if 2 ^ 64 <=? acc * 16 + d then inr ErrRange
          else parseHexFrom tok' (acc * 16 + d)
      end
  end.

Definition ParseUint16 (tok : string) : Z + numError :=
  match tok with
  | EmptyString => inr ErrSyntax
  | _ => parseHexFrom tok 0
  end.

(** The digits that [scanNumber] accepts for the verb [%x]. *)
Definition hexadecimalDigits : string := "0123456789aAbBcCdDeEfF".

(** [ss.SkipSpace] in [Sscanf] (a newline is not a space there): the
    input after the leading spaces, or the error. *)
Fixpoint SkipSpace (s : string) : string + string :=
  match s with
  | EmptyString => inl EmptyString
  | String a s1 =>
      if Ascii.eqb a lf then inr "unexpected newline"
      else if asciiSpace a then SkipSpace s1
      else match s1 with
           | String b s2 =>
               if space2 a b then SkipSpace s2
               else match s2 with
                    | String c s3 =>
                        if space3 a b c then SkipSpace s3 else inl s
                    | EmptyString => inl s
                    end
           | EmptyString => inl s
           end
  end.

(** [for s.accept(digits) {}]: the longest prefix made of accepted
    bytes. *)
Fixpoint scanNumber (s : string) : string :=
  match s with
  | EmptyString => EmptyString
  | String c s' =>
      if containsByte hexadecimalDigits c then String c (scanNumber s')
      else EmptyString
  end.

(** [n, err := fmt.Sscanf(p, "%x", &b)]: [inl v] stands for [n = 1]
    with [b = v], [inr msg] for [n = 0] with [err.Error() = msg].
    The scan skips leading spaces, reads the longest run of
    hexadecimal digits and stores its value; it does not look at what
    follows that run. *)
Definition Sscanf_x (p : string) : Z + string :=
  match SkipSpace p with
  | inr msg => inr msg
  | inl EmptyString => inr "EOF"
  | inl (String c _ as s) =>
      if negb (containsByte hexadecimalDigits c) then inr "expected integer"
      else
        let tok := scanNumber s in
        match ParseUint16 tok with
        | inr ErrSyntax =>
            inr ("strconv.ParseUint: parsing " +:+ String dquote tok
                 +:+ String dquote ": invalid syntax")
        | inr ErrRange =>
            inr ("strconv.ParseUint: parsing " +:+ String dquote tok
                 +:+ String dquote ": value out of range")
        | inl i =>
            if 256 <=? i then inr ("unsigned integer overflow on token " +:+ tok)
            else inl i
        end
  end.

(** ** hardwareaddr.go *)

(** [type HardwareAddr [3]byte] *)
Definition HardwareAddr : Type := Z * Z * Z.

Definition hwZero : HardwareAddr := (0, 0, 0).

Definition hwGet (h : HardwareAddr) (i : nat) : Z :=
  match h, i with
  | (a, _, _), O => a
  | (_, b, _), S O => b
  | (_, _, c), _ => c
  end.

(** [hw[i] = b] for [i < 3] *)
Definition hwSet (h : HardwareAddr) (i : nat) (v : Z) : HardwareAddr :=
  match h, i with
  | (_, b, c), O => (v, b, c)
  | (a, _, c), S O => (a, v, c)
  | (a, b, _), _ => (a, b, v)
  end.

(** [func (h HardwareAddr) Local() bool] *)
Definition HardwareAddr_Local (h : HardwareAddr) : bool :=
  Z.land (hwGet h 0) 2 >? 0.

(** [func (h HardwareAddr) Multicast() bool] *)
Definition HardwareAddr_Multicast (h : HardwareAddr) : bool :=
  Z.land (hwGet h 0) 1 >? 0.

(** The [else] branch of the separator test: consecutive chunks
    [mac[i:i+2]] for [i = 0, 2, ...] while [i < len(mac)-1]. *)
Fixpoint chunks2 (mac : string) : list string :=
  match mac with
  | String a (String b rest) => String a (String b EmptyString) :: chunks2 rest
  | _ => []
  end.

(** The loop [for i, p := range s] of [ParseMac], entered at index
    [i] with the address [hw] filled so far. *)
Fixpoint parseElems (mac : string) (i : nat) (s : list string)
    (hw : HardwareAddr) : result HardwareAddr :=
  match s with
  | [] => Ok hw
  | p :: s' =>
      if (3 <=? i)%nat then Ok hw
      else if negb (len p =? 2)%nat then
        Err (ErrInvalidMac
               ("Address element " +:+ Itoa (i + 1) +:+ " (" +:+ p
                +:+ ") is not 2 characters") mac)
      else
        match Sscanf_x p with
        | inr msg =>
            Err (ErrInvalidMac
                   ("Address element " +:+ Itoa (i + 1) +:+ " (" +:+ p
                    +:+ ") cannot be parsed as hex value: " +:+ msg) mac)
        | inl b => parseElems mac (S i) s' (hwSet hw i b)
        end
  end.

(** The fields [s] that [ParseMac] works on. *)
Definition macFields (mac : string) : list string :=
  match byteAt mac 2 with
  | Some c =>
      if Ascii.eqb c ":" || Ascii.eqb c "-" then Split mac c else chunks2 mac
  | None => chunks2 mac
  end.

(** [func ParseMac(mac string)], returning a pointer to a
    [HardwareAddr] or an error *)
Definition ParseMac (mac : string) : result HardwareAddr :=
  if (len mac <? 6)%nat then
    Err (ErrInvalidMac
           "Mac address too short. Should be at least 6 characters" mac)
  else
    let s := macFields mac in
    if (length s <? 3)%nat then
      Err (ErrInvalidMac "Unable to find at least 3 address elements" mac)
    else parseElems mac 0 s hwZero.

(** ** The regular expression of the scanner

    [((?:(?:[0-9a-zA-Z]{2})[-:]){2,5}(?:[0-9a-zA-Z]{2}))(?:/(\w{1,2}))?]

    Go's [regexp] returns the leftmost match and, among the matches
    that start there, the one a backtracking matcher finds first: the
    greedy [{2,5}] takes five repetitions if the match can be completed
    after them, else four, three, two. *)

Definition isAlnum (c : ascii) : bool := isDigit c || isLower c || isUpper c.

(** [\w] *)
Definition isWord (c : ascii) : bool := isAlnum c || (code c =? 95).

(** [[-:]] *)
Definition isSep (c : ascii) : bool := Ascii.eqb c "-" || Ascii.eqb c ":".

(** [(?:[0-9a-zA-Z]{2})] at the head of [s]: what follows it. *)
Definition reGroup (s : string) : option string :=
  match s with
  | String a (String b rest) =>
      if isAlnum a && isAlnum b then Some rest else None
  | _ => None
  end.

(** [(?:[0-9a-zA-Z]{2})[-:]] at the head of [s]: what follows it. *)
Definition reGroupSep (s : string) : option string :=
  match reGroup s with
  | Some (String c rest) => if isSep c then Some rest else None
  | _ => None
  end.

(** [k] repetitions of group-and-separator and the closing group at the
    head of [s]: the number of bytes matched. *)
Fixpoint reTry (k : nat) (s : string) : option nat :=
  match k with
  | O => match reGroup s with Some _ => Some 2%nat | None => None end
  | S k' =>
      match reGroupSep s with
      | Some rest => (fun n => (3 + n)%nat) <$> reTry k' rest
      | None => None
      end
  end.

(** The first capture group at the head of [s], most repetitions
    first. *)
Definition reGroup1At (s : string) : option nat :=
  match reTry 5 s with
  | Some n => Some n
  | None =>
      match reTry 4 s with
      | Some n => Some n
      | None =>
          match reTry 3 s with
          | Some n => Some n
          | None => reTry 2 s
          end
      end
  end.

(** [(?:/(\w{1,2}))?] at the head of [s]: the second capture group,
    empty when the optional part does not take part in the match. *)
Definition reGroup2At (s : string) : string :=
  match s with
  | String slash (String a rest) =>
      if Ascii.eqb slash "/" && isWord a then
        match rest with
        | String b _ =>
            if isWord b then String a (String b EmptyString)
            else String a EmptyString
        | EmptyString => String a EmptyString
        end
      else EmptyString
  | _ => EmptyString
  end.

Fixpoint takeBytes (n : nat) (s : string) : string :=
  match n, s with
  | S n', String c s' => String c (takeBytes n' s')
  | _, _ => EmptyString
  end.

(** [re.FindAllStringSubmatch(s, -1)], as far as the scanner uses it:
    [None] when there is no match ([len(matches) == 0]), else the two
    capture groups [matches[0][1]] and [matches[0][2]] of the first
    match. *)
Fixpoint FindAllStringSubmatch (s : string) : option (string * string) :=
  match reGroup1At s with
  | Some n => Some (takeBytes n s, reGroup2At (dropBytes n s))
  | None =>
      match s with
      | String _ s' => FindAllStringSubmatch s'
      | EmptyString => None
      end
  end.

(** ** [bufio.Scanner] with [bufio.ScanLines]

    The scanner of [scanOUI] yields the lines of its input: the pieces
    between line feeds, each without one trailing carriage return; what
    follows the last line feed is a line only when it is not empty.
    (A line longer than the scanner's 64 KiB buffer stops the scanner;
    the functions below take the list of lines the scanner yields, so
    they cover that case as well.) *)

Definition dropCR (s : string) : string :=
  match revString s "" with
  | String c r => if Ascii.eqb c cr then revString r "" else s
  | EmptyString => s
  end.

Fixpoint dropLastEmpty (l : list string) : list string :=
  match l with
  | [] => []
  | [x] => match x with EmptyString => [] | _ => [x] end
  | x :: l' => x :: dropLastEmpty l'
  end.

Definition ScanLines (input : string) : list string :=
  dropCR <$> dropLastEmpty (Split input lf).

(** ** The entry type *)

(** [type Entry struct]; the slice [Address] is the list of its
    elements ([nil] is the empty list). *)
Record Entry : Type := mkEntry {
  Manufacturer : string;
  Address : list string;
  Prefix : HardwareAddr;
  Country : string;
  Local : bool;
  Multicast : bool
}.

(** [const local = 0x020000] and [const multicast = 0x010000] *)
Definition local : Z := 0x020000.
Definition multicast : Z := 0x010000.

(** ** Time

    A [time.Time] is represented by its calendar fields and its zone
    offset in seconds east of UTC.  The zero [time.Time] is
    January 1, year 1, 00:00:00 UTC. *)
Record Time : Type := mkTime {
  t_year : Z; t_month : Z; t_day : Z;
  t_hour : Z; t_min : Z; t_sec : Z; t_nsec : Z;
  t_offset : Z
}.

Definition zeroTime : Time := mkTime 1 1 1 0 0 0 0 0.

(** The layout that [scanOUI] passes to [time.Parse]. *)
Definition generatedLayout : string := "Mon, 2 Jan 2006 15:04:05 -0700".

(** *** A model of [time.Parse] for the layout of the scanner

    [time.Parse] belongs to the Go library; the scanner below takes it
    as a parameter.  [parseGenerated] follows the library's parser on
    the one layout the package uses, element by element, and serves to
    run the scanner on concrete inputs. *)

(** [cutspace] *)
Fixpoint cutspace (v : string) : string :=
  match v with
  | String c v' => if Ascii.eqb c " " then cutspace v' else v
  | EmptyString => EmptyString
  end.

(** [skip(value, " ")]: a space of the layout stands for any number of
    spaces of the value, and fails on another byte. *)
Definition skipSpace (v : string) : option string :=
  match v with
  | EmptyString => Some EmptyString
  | String c _ => if Ascii.eqb c " " then Some (cutspace v) else None
  end.

(** [skip(value, string(c))] for a byte other than a space. *)
Definition skipByte (c : ascii) (v : string) : option string :=
  match v with
  | String d v' => if Ascii.eqb c d then Some v' else None
  | EmptyString => None
  end.

(** [match]: equal bytes, or the same letter in another case. *)
Definition matchFold (c1 c2 : ascii) : bool :=
  Ascii.eqb c1 c2
  || ((Z.lor (code c1) 32 =? Z.lor (code c2) 32)
      && (97 <=? Z.lor (code c1) 32) && (Z.lor (code c1) 32 <=? 122)).

Fixpoint matchName (name v : string) : option string :=
  match name, v with
  | EmptyString, _ => Some v
  | String a name', String b v' =>
      if matchFold b a then matchName name' v' else None
  | String _ _, EmptyString => None
  end.

(** [lookup(tab, val)]: the index of the first name that starts the
    value, and what follows it. *)
Fixpoint lookup_name (tab : list string) (i : Z) (v : string)
    : option (Z * string) :=
  match tab with
  | [] => None
  | name :: tab' =>
      match matchName name v with
      | Some rest => Some (i, rest)
      | None => lookup_name tab' (i + 1) v
      end
  end.

Definition shortDayNames : list string :=
  ["Sun"; "Mon"; "Tue"; "Wed"; "Thu"; "Fri"; "Sat"].
Definition shortMonthNames : list string :=
  ["Jan"; "Feb"; "Mar"; "Apr"; "May"; "Jun";
   "Jul"; "Aug"; "Sep"; "Oct"; "Nov"; "Dec"].

(** [getnum(s, fixed)]: one or two digits, two when [fixed]. *)
Definition getnum (s : string) (fixed : bool) : option (Z * string) :=
  match s with
  | String a s1 =>
      if isDigit a then
        match s1 with
        | String b s2 =>
            if isDigit b then Some ((code a - 48) * 10 + (code b - 48), s2)
            else if fixed then None else Some (code a - 48, s1)
        | EmptyString => if fixed then None else Some (code a - 48, s1)
        end
      else None
  | EmptyString => None
  end.

(** The four digits of [stdLongYear]. *)
Definition getyear (s : string) : option (Z * string) :=
  match s with
  | String a (String b (String c (String d rest))) =>
      if isDigit a && isDigit b && isDigit c && isDigit d then
        Some ((((code a - 48) * 10 + (code b - 48)) * 10 + (code c - 48)) * 10
              + (code d - 48), rest)
      else None
  | _ => None
  end.

(** The digits of a fractional second after the seconds, which the
    parser accepts although the layout has none: [(n, digits, rest)]
    with [n] the value of the first nine digits at most. *)
Fixpoint fracDigits (s : string) (k : nat) (acc : Z) : Z * nat * string :=
  match s with
  | String c s' =>
      if isDigit c then
        match k with
        | O => fracDigits s' O acc
        | S k' => fracDigits s' k' (acc * 10 + (code c - 48))
        end
      else (acc, k, s)
  | EmptyString => (acc, k, s)
  end.

Definition getfrac (s : string) : Z * string :=
  match s with
  | String p (String d _ as s1) =>
      if (Ascii.eqb p "." || Ascii.eqb p ",") && isDigit d then
        let '(n, k, rest) := fracDigits s1 9 0 in (n * 10 ^ Z.of_nat k, rest)
      else (0, s)
  | _ => (0, s)
  end.

(** [stdNumTZ]: a sign and four digits. *)
Definition getzone (s : string) : option (Z * string) :=
  match s with
  | String sg s1 =>
      '(hr, s2) ← getnum s1 true;
      '(mm, s3) ← getnum s2 true;
      if (24 <? hr) || (60 <? mm) then None
      else if Ascii.eqb sg "+" then Some ((hr * 60 + mm) * 60, s3)
      else if Ascii.eqb sg "-" then Some (- ((hr * 60 + mm) * 60), s3)
      else None
  | EmptyString => None
  end.

Definition isLeap (year : Z) : bool :=
  (year mod 4 =? 0) && (negb (year mod 100 =? 0) || (year mod 400 =? 0)).

Definition daysIn (month year : Z) : Z :=
  if (month =? 2) && isLeap year then 29
  else nth (Z.to_nat (month - 1)) [31; 28; 31; 30; 31; 30; 31; 31; 30; 31; 30; 31] 0.

(** [time.Parse("Mon, 2 Jan 2006 15:04:05 -0700", value)], [None] for
    an error. *)
Definition parseGenerated (value : string) : option Time :=
  '(_, v) ← lookup_name shortDayNames 0 value;
  v ← skipByte "," v;
  v ← skipSpace v;
  '(day, v) ← getnum v false;
  v ← skipSpace v;
  '(m, v) ← lookup_name shortMonthNames 0 v;
  v ← skipSpace v;
  '(year, v) ← getyear v;
  v ← skipSpace v;
  '(hour, v) ← getnum v false;
  guard (hour <? 24);;
  v ← skipByte ":" v;
  '(mi, v) ← getnum v true;
  guard (mi <? 60);;
  v ← skipByte ":" v;
  '(sec, v) ← getnum v true;
  guard (sec <? 60);;
  let '(nsec, v) := getfrac v in
  v ← skipSpace v;
  '(off, v) ← getzone v;
  guard (v = EmptyString);;
  guard ((1 <=? day) && (day <=? daysIn (m + 1) year));;
  Some (mkTime year (m + 1) day hour mi sec nsec off).

Definition timeParse (layout value : string) : option Time :=
  if String.eqb layout generatedLayout then parseGenerated value else None.

(** ** The registry scanner: [scanOUI] *)

(** [text[0] == '\t'] *)
Definition startsWithTab (text : string) : bool :=
  match text with
  | String c _ => Ascii.eqb c tab
  | EmptyString => false
  end.

(** [len(scanner.Text()) == 0 || scanner.Text()[0] == '#'] *)
Definition skipLine (text : string) : bool :=
  match text with
  | EmptyString => true
  | String c _ => Ascii.eqb c "#"
  end.

(** The cutset of the address lines: tab, space, CR, LF. *)
Definition addressCutset : string :=
  String tab (String " " (String cr (String lf EmptyString))).

(** The inner loop of [scanOUI]: the address lines appended to
    [address], and the lines the scanner has left when the loop ends.
    A line shorter than 2 bytes ends the loop ([break]) and is used
    up; a longer line that does not start with a tab is used up and
    the loop goes on ([continue]). *)
Fixpoint collectAddress (lines : list string) (address : list string)
    : list string * list string :=
  match lines with
  | [] => (address, [])
  | text :: lines' =>
      if (len text <? 2)%nat then (address, lines')
      else if negb (startsWithTab text) then collectAddress lines' address
      else collectAddress lines' (address ++ [Trim text addressCutset])%list
  end.

(** What [scanOUI] does with the entry once the inner loop is over:
    the country is the last address line, the two flags come from the
    24-bit value of the prefix. *)
Definition finishEntry (bt : HardwareAddr) (manufacturer : string)
    (address : list string) : Entry :=
  let i := Z.lor (Z.lor (Z.shiftl (hwGet bt 0) 16) (Z.shiftl (hwGet bt 1) 8))
                 (hwGet bt 2) in
  {| Manufacturer := manufacturer;
     Address := address;
     Prefix := bt;
     Country := List.last address EmptyString;
     Local := negb (Z.land i local =? 0);
     Multicast := negb (Z.land i multicast =? 0) |}.

(** [arr[len(arr)-1]] *)
Definition lastField (arr : list string) : string := List.last arr EmptyString.

(** How the outer loop of [scanOUI] classifies the line it reads. *)
Inductive lineKind : Type :=
  | Skipped                                   (* [continue] *)
  | GeneratedLine (t0 : string)               (* the text after "Generated: " *)
  | Failed (e : error)                        (* [ParseMac] failed *)
  | Header (bt : HardwareAddr) (manufacturer : string).

Definition classify (text : string) : lineKind :=
  if skipLine text then Skipped
  else
    match Split text tab with
    | [] => Skipped
    | (arr0 :: _) as arr =>
        let t0 := TrimSpace arr0 in
        if HasPrefix t0 "Generated: " then GeneratedLine (dropBytes 11 t0)
        else
          match FindAllStringSubmatch arr0 with
          | None => Skipped
          | Some (s, _) =>
              match ParseMac s with
              | Err e => Failed e
              | Ok bt => Header bt (lastField arr)
              end
          end
    end.

(** The state of a scan: the time [generated], the error, the map. *)
Abbreviation scanState := (option Time * option error * gmap HardwareAddr Entry)%type.

Section Scanner.

(** [time.Parse(layout, value)], [None] for an error. *)
Variable time_Parse : string -> string -> option Time.

(** The loop [for scanner.Scan()] of [scanOUI] over the lines the
    scanner yields, with the map [db] and the variable [generated]
    as they are when the loop is entered.  The inner [fix] is the
    loop that collects the address lines of the entry [bt]. *)
Fixpoint scanLoop (lines : list string) (db : gmap HardwareAddr Entry)
    (generated : option Time) {struct lines} : scanState :=
  match lines with
  | [] => (generated, None, db)
  | text :: rest =>
      match classify text with
      | Skipped => scanLoop rest db generated
      | GeneratedLine t0 =>
          match time_Parse generatedLayout t0 with
          | Some t => scanLoop rest db (Some t)
          | None => scanLoop rest db generated
          end
      | Failed e => (generated, Some e, db)
      | Header bt manufacturer =>
          (fix inner (ls : list string) (address : list string)
               {struct ls} : scanState :=
             match ls with
             | [] =>
                 (generated, None,
                  <[bt := finishEntry bt manufacturer address]> db)
             | text :: ls' =>
                 if (len text <? 2)%nat then
                   scanLoop ls'
                     (<[bt := finishEntry bt manufacturer address]> db)
                     generated
                 else if negb (startsWithTab text) then inner ls' address
                 else inner ls' (address ++ [Trim text addressCutset])%list
             end) rest []
      end
  end.

End Scanner.

(** ** Maps as references

    A Go map is a reference: [make] returns a new one, and a function
    that is given a map changes the map of its caller.  [heap] holds
    the maps of the program by location; a location that the heap does
    not hold is the [nil] map. *)

Definition loc : Type := positive.

Abbreviation heap := (gmap loc (gmap HardwareAddr Entry)).

(** [make(map[[3]byte]Entry)] *)
Definition make (h : heap) : loc * heap :=
  let l := fresh (dom h) in (l, <[l := ∅]> h).

(** [func (db ouiDB) set(hw HardwareAddr, e Entry)]; an assignment to
    an entry of the [nil] map panics ([None]). *)
Definition set (db : loc) (hw : HardwareAddr) (e : Entry) (h : heap)
    : option heap :=
  m ← h !! db; Some (<[db := <[hw := e]> m]> h).

(** [func (db ouiDB) del(hw HardwareAddr)] *)
Definition del (db : loc) (hw : HardwareAddr) (h : heap) : heap :=
  match h !! db with
  | Some m => <[db := delete hw m]> h
  | None => h
  end.

(** [e, ok := db[hw]] *)
Definition lookupEntry (db : loc) (hw : HardwareAddr) (h : heap) : option Entry :=
  h !! db ≫= (.!! hw).

Section Database.

Variable time_Parse : string -> string -> option Time.

(** [func scanOUI(in io.Reader, db ouiDB)] on the lines of [in]: the result pair and the heap, in which the map
    [db] has received the entries.  On the [nil] map the first entry
    panics ([None]). *)
Definition scanOUI (lines : list string) (db : loc) (h : heap)
    : option (option Time * option error * heap) :=
  match h !! db with
  | Some m =>
      let '(generated, err, m') := scanLoop time_Parse lines m None in
      Some (generated, err, <[db := m']> h)
  | None =>
      let '(generated, err, m') := scanLoop time_Parse lines ∅ None in
      if decide (m' = ∅) then Some (generated, err, h) else None
  end.

(** *** The static database *)

(** [type staticDB struct { ouiDB; dbTime time.Time }] *)
Record staticDB : Type := mkStatic {
  static_ouiDB : loc;
  static_dbTime : Time
}.

(** [func newStatic(c map[[3]byte]Entry) StaticDB] *)
Definition newStatic (c : option loc) (h : heap) : staticDB * heap :=
  match c with
  | Some l => (mkStatic l zeroTime, h)
  | None => let '(l, h') := make h in (mkStatic l zeroTime, h')
  end.

(** [func (db staticDB) RawDB() map[[3]byte]Entry] *)
Definition static_RawDB (db : staticDB) : loc := static_ouiDB db.

(** [func (o staticDB) LookUp(hw HardwareAddr)]; the
    entry of an [Ok] is the copy [e] that the result points to. *)
Definition static_LookUp (o : staticDB) (hw : HardwareAddr) (h : heap)
    : result Entry :=
  match lookupEntry (static_ouiDB o) hw h with
  | None => Err ErrNotFound
  | Some e => Ok e
  end.

(** [func (db staticDB) Query(mac string)] *)
Definition static_Query (db : staticDB) (mac : string) (h : heap)
    : result Entry :=
  match ParseMac mac with
  | Err err => Err err
  | Ok hw => static_LookUp db hw h
  end.

(** [func (o staticDB) Generated() time.Time] *)
Definition static_Generated (o : staticDB) : Time := static_dbTime o.

(** [func (d *staticDB) generatedAt(t *time.Time)] *)
Definition static_generatedAt (d : staticDB) (t : option Time) : staticDB :=
  match t with
  | None => d
  | Some t => mkStatic (static_ouiDB d) t
  end.

(** [func OpenStatic(in io.Reader) (StaticDB, error)]: the database
    returned (never [nil]), the error, and the heap. *)
Definition OpenStatic (lines : list string) (h : heap)
    : option (staticDB * option error * heap) :=
  let '(dst, h) := make h in
  let '(db, h) := newStatic (Some dst) h in
  '(t, err, h) ← scanOUI lines dst h;
  let db := static_generatedAt db t in
  Some (db, err, h).

(** *** The updateable database *)

(** A [sync.RWMutex] as one thread of control sees it: held by a
    writer, or by a number of readers.  An operation that would
    block for ever, or that the runtime stops with a fatal error,
    has no result. *)
Record RWMutex : Type := mkMutex { writer : bool; readers : nat }.

Definition unlocked : RWMutex := mkMutex false 0.

(** [type updateableDB struct { ouiDB; dbTime time.Time; mu sync.RWMutex }] *)
Record updateableDB : Type := mkUpdateable {
  ouiDB : loc;
  dbTime : Time;
  mu : RWMutex
}.

(** [o.mu.Lock()] *)
Definition Lock (o : updateableDB) : option updateableDB :=
  match mu o with
  | mkMutex false O => Some (mkUpdateable (ouiDB o) (dbTime o) (mkMutex true 0))
  | _ => None
  end.

(** [o.mu.Unlock()] *)
Definition Unlock (o : updateableDB) : option updateableDB :=
  match mu o with
  | mkMutex true n => Some (mkUpdateable (ouiDB o) (dbTime o) (mkMutex false n))
  | _ => None
  end.

(** [o.mu.RLock()] *)
Definition RLock (o : updateableDB) : option updateableDB :=
  match mu o with
  | mkMutex false n => Some (mkUpdateable (ouiDB o) (dbTime o) (mkMutex false (S n)))
  | _ => None
  end.

(** [o.mu.RUnlock()] *)
Definition RUnlock (o : updateableDB) : option updateableDB :=
  match mu o with
  | mkMutex w (S n) => Some (mkUpdateable (ouiDB o) (dbTime o) (mkMutex w n))
  | _ => None
  end.

(** [func newDynamic(c map[[3]byte]Entry) DynamicDB] *)
Definition newDynamic (c : option loc) (h : heap) : updateableDB * heap :=
  match c with
  | Some l => (mkUpdateable l zeroTime unlocked, h)
  | None => let '(l, h') := make h in (mkUpdateable l zeroTime unlocked, h')
  end.

(** [func (o *updateableDB) LookUp(hw HardwareAddr)] *)
Definition LookUp (o : updateableDB) (hw : HardwareAddr) (h : heap)
    : option (result Entry * updateableDB) :=
  o ← RLock o;
  let e := lookupEntry (ouiDB o) hw h in
  o ← RUnlock o;
  match e with
  | None => Some (Err ErrNotFound, o)
  | Some e => Some (Ok e, o)
  end.

(** [func (db *updateableDB) Query(mac string)] *)
Definition Query (db : updateableDB) (mac : string) (h : heap)
    : option (result Entry * updateableDB) :=
  match ParseMac mac with
  | Err err => Some (Err err, db)
  | Ok hw => LookUp db hw h
  end.

(** [func (o *updateableDB) Generated() time.Time] *)
Definition Generated (o : updateableDB) : option (Time * updateableDB) :=
  o ← RLock o;
  let t := dbTime o in
  o ← RUnlock o;
  Some (t, o).

(** [func (o *updateableDB) generatedAt(t *time.Time)] *)
Definition generatedAt (o : updateableDB) (t : option Time)
    : option updateableDB :=
  match t with
  | None => Some o
  | Some t =>
      o ← Lock o;
      let o := mkUpdateable (ouiDB o) t (mu o) in
      Unlock o
  end.

(** [func (o *updateableDB) updateDb(db ouiDB, t *time.Time)] *)
Definition updateDb (o : updateableDB) (db : loc) (t : option Time)
    : option updateableDB :=
  o ← Lock o;
  let o := mkUpdateable db (dbTime o) (mu o) in
  o ← generatedAt o t;
  Unlock o.

(** [func (o *updateableDB) UpdateEntry(hw HardwareAddr, e Entry)] *)
Definition UpdateEntry (o : updateableDB) (hw : HardwareAddr) (e : Entry)
    (h : heap) : option (updateableDB * heap) :=
  o ← Lock o;
  h ← set (ouiDB o) hw e h;
  o ← Unlock o;
  Some (o, h).

(** [func (o *updateableDB) DeleteEntry(hw HardwareAddr)] *)
Definition DeleteEntry (o : updateableDB) (hw : HardwareAddr) (h : heap)
    : option (updateableDB * heap) :=
  o ← Lock o;
  let h := del (ouiDB o) hw h in
  o ← Unlock o;
  Some (o, h).

(** [func Open(in io.Reader) (DynamicDB, error)] *)
Definition Open (lines : list string) (h : heap)
    : option (updateableDB * option error * heap) :=
  let '(dst, h) := make h in
  let '(db, h) := newDynamic (Some dst) h in
  '(t, err, h) ← scanOUI lines dst h;
  db ← generatedAt db t;
  Some (db, err, h).

(** [func Update(db DynamicDB, r io.Reader) error]: the error
    returned, the database and the heap afterwards. *)
Definition Update (db : updateableDB) (lines : list string) (h : heap)
    : option (option error * updateableDB * heap) :=
  let '(dst, h) := make h in
  '(t, err, h) ← scanOUI lines dst h;
  match err with
  | Some e => Some (Some e, db, h)
  | None =>
      db ← updateDb db dst t;
      Some (None, db, h)
  end.

End Database.

(** ** The entry a lookup returns, in memory

    Both [LookUp] methods end in [e, ok := o.ouiDB[hw]] and
    [return &e, nil]: the struct stored in the map is copied into the
    new variable [e], and the caller receives the address of [e].  A
    copy of a struct copies the slice header of [Address], not the
    array behind it.  To follow what a caller can do through the
    pointer, this section keeps the entries as Go lays them out: a
    slice is a header over a backing array, and the variables [e] are
    cells of the memory. *)

(** A slice header: backing array, offset in it, length, capacity. *)
Record slice : Type := mkSlice {
  s_array : loc;
  s_off : nat;
  s_len : nat;
  s_cap : nat
}.

(** [Entry] with its slice as a header ([None] is the [nil] slice). *)
Record EntryM : Type := mkEntryM {
  mManufacturer : string;
  mAddress : option slice;
  mPrefix : HardwareAddr;
  mCountry : string;
  mLocal : bool;
  mMulticast : bool
}.

(** The backing arrays, and the [Entry] variables that live on the
    heap. *)
Record memory : Type := mkMemory {
  arrays : gmap loc (list string);
  cells : gmap loc EntryM
}.

(** The elements of a slice. *)
Definition elements (mem : memory) (s : option slice) : list string :=
  match s with
  | None => []
  | Some s => take (s_len s) (drop (s_off s) (default [] (arrays mem !! s_array s)))
  end.

(** The entry that a struct in memory stands for. *)
Definition entryOf (mem : memory) (e : EntryM) : Entry :=
  {| Manufacturer := mManufacturer e;
     Address := elements mem (mAddress e);
     Prefix := mPrefix e;
     Country := mCountry e;
     Local := mLocal e;
     Multicast := mMulticast e |}.

(** [e, ok := o.ouiDB[hw]; if !ok { return nil, ErrNotFound };
    return &e, nil] on the map [m]: the pointer returned, and the
    memory with the new variable [e]. *)
Definition LookUp_mem (m : gmap HardwareAddr EntryM) (hw : HardwareAddr)
    (mem : memory) : result loc * memory :=
  match m !! hw with
  | None => (Err ErrNotFound, mem)
  | Some e =>
      let p := fresh (dom (cells mem)) in
      (Ok p, mkMemory (arrays mem) (<[p := e]> (cells mem)))
  end.

(** What the caller reads through the result of a lookup. *)
Definition deref (mem : memory) (r : result loc) : option (result Entry) :=
  match r with
  | Err err => Some (Err err)
  | Ok p => (fun e => Ok (entryOf mem e)) <$> cells mem !! p
  end.

Definition observe (m : gmap HardwareAddr EntryM) (hw : HardwareAddr)
    (mem : memory) : option (result Entry) :=
  let '(r, mem') := LookUp_mem m hw mem in deref mem' r.

(** An assignment to a field of the entry: [p.Manufacturer = v],
    [p.Address = v], ... *)
Inductive assignment : Type :=
  | SetManufacturer (v : string)
  | SetAddress (v : option slice)
  | SetPrefix (v : HardwareAddr)
  | SetCountry (v : string)
  | SetLocal (v : bool)
  | SetMulticast (v : bool).

Definition assignField (a : assignment) (e : EntryM) : EntryM :=
  match a with
  | SetManufacturer v =>
      mkEntryM v (mAddress e) (mPrefix e) (mCountry e) (mLocal e) (mMulticast e)
  | SetAddress v =>
      mkEntryM (mManufacturer e) v (mPrefix e) (mCountry e) (mLocal e) (mMulticast e)
  | SetPrefix v =>
      mkEntryM (mManufacturer e) (mAddress e) v (mCountry e) (mLocal e) (mMulticast e)
  | SetCountry v =>
      mkEntryM (mManufacturer e) (mAddress e) (mPrefix e) v (mLocal e) (mMulticast e)
  | SetLocal v =>
      mkEntryM (mManufacturer e) (mAddress e) (mPrefix e) (mCountry e) v (mMulticast e)
  | SetMulticast v =>
      mkEntryM (mManufacturer e) (mAddress e) (mPrefix e) (mCountry e) (mLocal e) v
  end.

(** [p.f = v]; a [nil] or dangling [p] panics ([None]). *)
Definition assign (p : loc) (a : assignment) (mem : memory) : option memory :=
  e ← cells mem !! p;
  Some (mkMemory (arrays mem) (<[p := assignField a e]> (cells mem))).

(** [p.Address[i] = v]; an index out of range panics ([None]). *)
Definition storeElem (p : loc) (i : nat) (v : string) (mem : memory)
    : option memory :=
  e ← cells mem !! p;
  s ← mAddress e;
  arr ← arrays mem !! s_array s;
  if decide (i < s_len s)%nat then
    Some (mkMemory (<[s_array s := <[(s_off s + i)%nat := v]> arr]> (arrays mem))
                   (cells mem))
  else None.

(** What a caller may do with the entry it holds. *)
Inductive mutation : Type :=
  | Assign (a : assignment)
  | StoreElem (i : nat) (v : string).

Definition mutate (p : loc) (c : mutation) (mem : memory) : option memory :=
  match c with
  | Assign a => assign p a mem
  | StoreElem i v => storeElem p i v mem
  end.

(** A sequence of assignments through [p]. *)
Fixpoint assignAll (p : loc) (l : list assignment) (mem : memory)
    : option memory :=
  match l with
  | [] => Some mem
  | a :: l' => mem' ← assign p a mem; assignAll p l' mem'
  end.

(** ** The specification's wording, for comparison

    Three sentences of the specification describe the scanner
    differently from its code.  The definitions of this section follow
    the words of the specification; the theorems compare them with the
    definitions above. *)

(** The address lines among [lines]: those that start with a tab,
    trimmed. *)
Definition addressLines (lines : list string) : list string :=
  (fun text => Trim text addressCutset) <$> filter (fun text => startsWithTab text = true) lines.

(** The inner loop as the specification words it: a line of 2 bytes or
    more that does not start with a tab ends the collection and stays
    with the scanner. *)
Fixpoint collectAddress_spec (lines : list string) (address : list string)
    : list string * list string :=
  match lines with
  | [] => (address, [])
  | text :: lines' =>
      if (len text <? 2)%nat then (address, lines')
      else if negb (startsWithTab text) then (address, lines)
      else collectAddress_spec lines' (address ++ [Trim text addressCutset])%list
  end.

(** The strings of the scanner's pattern, without the optional part:
    [k] groups of two alphanumeric bytes, each followed by a
    separator, and a closing group. *)
Fixpoint isTokenK (k : nat) (s : string) : bool :=
  match k, s with
  | O, String a (String b EmptyString) => isAlnum a && isAlnum b
  | S k', String a (String b (String c rest)) =>
      isAlnum a && isAlnum b && isSep c && isTokenK k' rest
  | _, _ => false
  end.

(** Three to six groups. *)
Definition isToken (s : string) : bool :=
  isTokenK 2 s || isTokenK 3 s || isTokenK 4 s || isTokenK 5 s.

(** The token as the specification words it: 2 to 6 groups of 2
    hexadecimal characters separated by [:] or [-]. *)
Fixpoint specTokenK (k : nat) (s : string) : bool :=
  match k, s with
  | O, String a (String b EmptyString) => isHex a && isHex b
  | S k', String a (String b (String c rest)) =>
      isHex a && isHex b && isSep c && specTokenK k' rest
  | _, _ => false
  end.

Definition specToken (s : string) : bool :=
  specTokenK 1 s || specTokenK 2 s || specTokenK 3 s || specTokenK 4 s
  || specTokenK 5 s.

(** The text after "Generated: " of a line whose trimmed first field
    begins with it. *)
Definition generatedField (text : string) : option string :=
  let t0 := TrimSpace (hd EmptyString (Split text tab)) in
  if HasPrefix t0 "Generated: " then Some (dropBytes 11 t0) else None.

(** The generation time as the specification words it: the last line
    of the stream that carries a timestamp that parses. *)
Fixpoint specGenerated (time_Parse : string -> string -> option Time)
    (lines : list string) (generated : option Time) : option Time :=
  match lines with
  | [] => generated
  | text :: rest =>
      match generatedField text with
      | Some t0 =>
          match time_Parse generatedLayout t0 with
          | Some t => specGenerated time_Parse rest (Some t)
          | None => specGenerated time_Parse rest generated
          end
      | None => specGenerated time_Parse rest generated
      end
  end.

(** The inputs of the examples. *)
Definition tabbed (s : string) : string := String tab s.

Definition sampleGenerated : string := "Generated: Tue, 20 Jan 2015 07:01:36 -0500".

Definition sampleDb : list string :=
  [ sampleGenerated;
    "";
    "00-60-93   (hex)" +:+ tabbed (tabbed "VARIAN");
    "006093     (base 16)" +:+ tabbed (tabbed "VARIAN");
    tabbed (tabbed (tabbed (tabbed "3100 Hansen Way")));
    tabbed (tabbed (tabbed (tabbed "UNITED STATES")));
    "";
    "02-60-94   (hex)" +:+ tabbed (tabbed "IBM CORP.") ].

(** A stream with a record header that [ParseMac] rejects: its second
    separator differs from the first. *)
Definition brokenDb : list string :=
  [ "00-60-95   (hex)" +:+ tabbed (tabbed "ACCU-TIME");
    tabbed (tabbed (tabbed (tabbed "HARTFORD")));
    "";
    "00-60:96   (hex)" +:+ tabbed (tabbed "T.C. ELECTRONIC") ].

(** The database that [Open] returns on [sampleDb] in the empty heap,
    and the heap it leaves. *)
Definition sampleOpened : updateableDB :=
  mkUpdateable 1%positive (mkTime 2015 1 20 7 1 36 0 (-18000)) unlocked.

Definition sampleHeap : heap :=
  <[1%positive := (scanLoop timeParse sampleDb ∅ None).2]> ∅.

(** An entry with two address lines as Go lays it out, the map that
    holds it and the memory with the backing array. *)
Definition sampleEntryM : EntryM :=
  mkEntryM "VARIAN" (Some (mkSlice 1%positive 0 2 2)) (0, 96, 147)
           "UNITED STATES" false false.

Definition sampleMap : gmap HardwareAddr EntryM :=
  {[ (0, 96, 147) := sampleEntryM ]}.

Definition sampleMemory : memory :=
  mkMemory {[ 1%positive := ["3100 Hansen Way"; "UNITED STATES"] ]} ∅.

(** ** Notions used in the statements *)

(** Two bytes as a string, and the byte that two hexadecimal digits
    denote. *)
Definition pair2 (a b : ascii) : string := String a (String b EmptyString).

Definition hexByte (a b : ascii) : Z :=
  16 * default 0 (hexVal a) + default 0 (hexVal b).

Definition hexChars : list ascii :=
  ["0"; "1"; "2"; "3"; "4"; "5"; "6"; "7"; "8"; "9";
   "a"; "b"; "c"; "d"; "e"; "f"; "A"; "B"; "C"; "D"; "E"; "F"]%char.

(** The three elements of an address are bytes. *)
Definition inRange (h : HardwareAddr) : Prop :=
  0 <= hwGet h 0 < 256 /\ 0 <= hwGet h 1 < 256 /\ 0 <= hwGet h 2 < 256.

(** The entry [e] stored under [hw] names [hw] and has the flags of
    the first byte of [hw]: bit 0x02 and bit 0x01. *)
Definition flagsOf (hw : HardwareAddr) (e : Entry) : Prop :=
  Prefix e = hw
  /\ Local e = Z.testbit (hwGet hw 0) 1
  /\ Multicast e = Z.testbit (hwGet hw 0) 0.

(** [g1] and [g2] are the capture groups of the first match of the
    pattern in [s]: [g1] is the leftmost token of [s] and the longest
    one that starts there, [g2] the optional part after it. *)
Definition firstToken (s g1 g2 : string) : Prop :=
  isToken g1 = true
  /\ exists pre post,
       s = pre +:+ g1 +:+ post
       /\ g2 = reGroup2At post
       /\ (forall pre' tok post',
             s = pre' +:+ tok +:+ post' -> isToken tok = true ->
             (len pre <= len pre')%nat)
       /\ (forall tok post',
             g1 +:+ post = tok +:+ post' -> isToken tok = true ->
             (len tok <= len g1)%nat).

(** Some substring of [s] is a token in the wording of the
    specification (2 to 6 groups: 5, 8, 11, 14 or 17 bytes). *)
Fixpoint specFind (s : string) : bool :=
  existsb (fun n => specToken (takeBytes n s)) [5; 8; 11; 14; 17]%nat
  || match s with
     | String _ s' => specFind s'
     | EmptyString => false
     end.

(** A byte that is neither a space nor part of an encoded space: it
    stops the trimming of [TrimSpace] at either end. *)
Definition solid (c : ascii) : Prop :=
  asciiSpace c = false /\ (128 <=? code c) = false.

(** The lines of a stream that the outer loop of the scanner reads.
    After a record header the lines up to the next line shorter than
    2 bytes, that line included, belong to the address loop; the
    outer loop reads no line after a header that [ParseMac] rejects.
    [inBlock] tells whether the address loop is reading. *)
Fixpoint outerLines (inBlock : bool) (lines : list string) : list string :=
  match lines with
  | [] => []
  | text :: rest =>
      if inBlock then
        if (len text <? 2)%nat then outerLines false rest
        else outerLines true rest
      else
        match classify text with
        | Header _ _ => text :: outerLines true rest
        | Failed _ => [text]
        | _ => text :: outerLines false rest
        end
  end.

(** A stream in pieces.  A record is a header line, the lines of its
    block (each of 2 bytes or more) and the line shorter than 2 bytes
    that ends the block; any other line that the outer loop reads is
    one it skips or one that carries a generation time. *)
Inductive item : Type :=
  | Rec (head : string) (body : list string) (short : string)
  | Other (text : string).

Definition itemLines (it : item) : list string :=
  match it with
  | Rec head body short => (head :: body ++ [short])%list
  | Other text => [text]
  end.

Definition validItem (it : item) : bool :=
  match it with
  | Rec head body short =>
      match classify head with Header _ _ => true | _ => false end
      && forallb (fun line => (2 <=? len line)%nat) body
      && (len short <? 2)%nat
  | Other text =>
      match classify text with
      | Skipped | GeneratedLine _ => true
      | _ => false
      end
  end.

(** The entry that a record stands for, and its prefix: the prefix
    and the manufacturer come from the header, the address lines are
    the trimmed lines of the block that start with a tab, the country
    is the last of them, the flags are bits 0x02 and 0x01 of the first
    byte of the prefix. *)
Definition recordOf (it : item) : option (HardwareAddr * Entry) :=
  match it with
  | Rec head body _ =>
      match classify head with
      | Header bt name =>
          Some (bt, {| Manufacturer := name;
                       Address := addressLines body;
                       Prefix := bt;
                       Country := List.last (addressLines body) EmptyString;
                       Local := Z.testbit (hwGet bt 0) 1;
                       Multicast := Z.testbit (hwGet bt 0) 0 |})
      | _ => None
      end
  | Other _ => None
  end.

(** The entry of the last record of [items] that has the prefix [hw]. *)
Fixpoint lastRecord (hw : HardwareAddr) (items : list item) : option Entry :=
  match items with
  | [] => None
  | it :: rest =>
      match lastRecord hw rest with
      | Some e => Some e
      | None =>
          match recordOf it with
          | Some (bt, e) => if decide (bt = hw) then Some e else None
          | None => None
          end
      end
  end.

(** A stream with two records before a header that [ParseMac]
    rejects. *)
Definition brokenAfterTwo : list string :=
  [ "00-60-93   (hex)" +:+ tabbed (tabbed "VARIAN");
    "006093     (base 16)" +:+ tabbed (tabbed "VARIAN");
    tabbed (tabbed (tabbed (tabbed "3100 Hansen Way")));
    tabbed (tabbed (tabbed (tabbed "UNITED STATES")));
    "";
    "00-60-95   (hex)" +:+ tabbed (tabbed "ACCU-TIME");
    tabbed (tabbed (tabbed (tabbed "HARTFORD")));
    "";
    "00-60:96   (hex)" +:+ tabbed (tabbed "T.C. ELECTRONIC");
    "";
    "00-60-97   (hex)" +:+ tabbed (tabbed "NOT READ") ].

(** ** Printing an address and an entry *)

(** [["0123456789abcdef"[d]]] for [d < 16] *)
Definition hexDigit (d : Z) : ascii :=
  if d <? 10 then ascii_of_N (Z.to_N (48 + d)) else ascii_of_N (Z.to_N (87 + d)).

(** [fmt.Sprintf("%02x", b)] for a byte [b]: two lower-case
    hexadecimal digits. *)
Definition fmt02x (b : Z) : string :=
  String (hexDigit (b / 16)) (String (hexDigit (b mod 16)) EmptyString).

(** [func (h HardwareAddr) String() string] *)
Definition HardwareAddr_String (h : HardwareAddr) : string :=
  fmt02x (hwGet h 0) +:+ ":" +:+ fmt02x (hwGet h 1) +:+ ":" +:+ fmt02x (hwGet h 2).

(** [func (h HardwareAddr) MarshalJSON() ([]byte, error)]; the error is
    always [nil]. *)
Definition HardwareAddr_MarshalJSON (h : HardwareAddr) : string :=
  String dquote (HardwareAddr_String h +:+ String dquote EmptyString).

(** [func (h *HardwareAddr) UnmarshalJSON(in []byte) error]: the
    address that [h] points to afterwards, and the error. *)
Definition HardwareAddr_UnmarshalJSON (h : HardwareAddr) (input : string)
    : HardwareAddr * option error :=
  match ParseMac (Trim input (String dquote " ")) with
  | Err err => (h, Some err)
  | Ok n => (n, None)
  end.

(** [strings.Join(elems, sep)] *)
Fixpoint Join (elems : list string) (sep : string) : string :=
  match elems with
  | [] => EmptyString
  | x :: rest =>
      match rest with
      | [] => x
      | _ :: _ => x +:+ sep +:+ Join rest sep
      end
  end.

(** [func (e Entry) String() string] *)
Definition Entry_String (e : Entry) : string :=
  let t := ["Prefix: " +:+ HardwareAddr_String (Prefix e);
            "Manufacturer: " +:+ Manufacturer e] in
  let t :=
    if (0 <? length (Address e))%nat then
      let a := Join (Address e) (String lf (String tab EmptyString)) in
      (t ++ ["Address:"; String tab a])%list
    else t in
  let t := if Local e then (t ++ ["* Locally Administered"])%list else t in
  let t := if Multicast e then (t ++ ["* Multicast"])%list else t in
  Join t (String lf EmptyString).

(** ** The interface [OuiDB] and [PrintDb] *)

(** The exported methods of [type OuiDB interface]; a method of a
    database behind a pointer returns the database as it leaves it,
    and has no result when it does not return. *)
Class OuiDB (T : Type) : Type := {
  db_Query : T -> string -> heap -> option (result Entry * T);
  db_LookUp : T -> HardwareAddr -> heap -> option (result Entry * T);
  db_Generated : T -> option (Time * T)
}.

#[export] Instance staticDB_OuiDB : OuiDB staticDB := {|
  db_Query db mac h := Some (static_Query db mac h, db);
  db_LookUp db hw h := Some (static_LookUp db hw h, db);
  db_Generated db := Some (static_Generated db, db)
|}.

#[export] Instance updateableDB_OuiDB : OuiDB updateableDB := {|
  db_Query := Query;
  db_LookUp := LookUp;
  db_Generated := Generated
|}.

(** The state of the loop of [PrintDb]: the counter [i], the array
    [hw], the count [c], what has been printed, and the database. *)
Abbreviation printState T := (Z * HardwareAddr * nat * list string * T)%type.

(** One turn of the loop [for i := 0; i < 1<<24; i++]. *)
Definition printStep {T} `{OuiDB T} (h : heap) (st : option (printState T))
    : option (printState T) :=
  '(i, hw, c, out, db) ← st;
  let hw := hwSet hw 2 (Z.land i 255) in
  let hw := hwSet hw 1 (Z.land (Z.shiftr i 8) 255) in
  let hw := hwSet hw 0 (Z.land (Z.shiftr i 16) 255) in
  '(r, db) ← db_LookUp db hw h;
  match r with
  | Ok e =>
      Some (i + 1, hw, S c,
            (out ++ [Entry_String e +:+ String lf (String lf EmptyString)])%list,
            db)
  | Err _ => Some (i + 1, hw, c, out, db)
  end.

(** [func PrintDb(db OuiDB)]: the pieces written to the standard
    output, one for each [Printf], and the database afterwards.  The
    loop runs its body [1<<24] times, the body does not assign to [i];
    [elapsed] is the text of [time.Now().Sub(t)]. *)
Definition PrintDb {T} `{OuiDB T} (db : T) (h : heap) (elapsed : string)
    : option (list string * T) :=
  '(_, _, c, out, db) ← N.iter (2 ^ 24) (printStep h) (Some (0, hwZero, O, [], db));
  Some ((out ++ ["Finished reading 16777216 entries in " +:+ elapsed +:+ ". "
                 +:+ Itoa c +:+ " Entries." +:+ String lf EmptyString])%list,
        db).

(** ** The earlier revision of the package: [src/oui.go]

    In it the generation time is a type of its own, [dbTime], that the
    two databases embed; [Open] takes a flag, and [Update] asks the
    database for the interface [Updater]. *)
Module Legacy.

(** [func (d dbTime) Generated() time.Time] *)
Definition dbTime_Generated (d : Time) : Time := d.

(** [func (d *dbTime) generatedAt(t *time.Time)] *)
Definition dbTime_generatedAt (d : Time) (t : option Time) : Time :=
  match t with
  | None => d
  | Some t => t
  end.

(** [func (o *updateableDB) updateDb(db ouiDb, t *time.Time)]; the
    call [o.generatedAt(t)] is the method of the embedded [dbTime]. *)
Definition updateDb (o : updateableDB) (db : loc) (t : option Time)
    : option updateableDB :=
  o ← Lock o;
  let o := mkUpdateable db (dbTime o) (mu o) in
  let o := mkUpdateable (ouiDB o) (dbTime_generatedAt (dbTime o) t) (mu o) in
  Unlock o.

(** A value of [type OuiDb interface]: one of the two databases. *)
Inductive OuiDb : Type :=
  | Static (db : staticDB)
  | Dynamic (db : updateableDB).

(** The errors of [Update]: [ErrNotUpdateable], or the error of the
    scanner. *)
Inductive updateError : Type :=
  | ErrNotUpdateable
  | ScanError (e : error).

(** [db.generatedAt(t)] *)
Definition generatedAt (db : OuiDb) (t : option Time) : OuiDb :=
  match db with
  | Static s => Static (mkStatic (static_ouiDB s) (dbTime_generatedAt (static_dbTime s) t))
  | Dynamic d => Dynamic (mkUpdateable (ouiDB d) (dbTime_generatedAt (dbTime d) t) (mu d))
  end.

(** [db.LookUp(hw)] *)
Definition LookUp (db : OuiDb) (hw : HardwareAddr) (h : heap)
    : option (result Entry * OuiDb) :=
  match db with
  | Static s => Some (static_LookUp s hw h, db)
  | Dynamic d => '(r, d) ← LookUp d hw h; Some (r, Dynamic d)
  end.

(** [db.Generated()] *)
Definition Generated (db : OuiDb) : Time :=
  match db with
  | Static s => dbTime_Generated (static_dbTime s)
  | Dynamic d => dbTime_Generated (dbTime d)
  end.

Section Legacy.

Variable time_Parse : string -> string -> option Time.

(** [func Open(in io.Reader, updateable bool) (OuiDb, error)] *)
Definition Open (lines : list string) (updateable : bool) (h : heap)
    : option (OuiDb * option error * heap) :=
  let '(dst, h) := make h in
  let '(db, h) :=
    if updateable then
      let '(d, h) := newDynamic (Some dst) h in (Dynamic d, h)
    else
      let '(s, h) := newStatic (Some dst) h in (Static s, h) in
  '(t, err, h) ← scanOUI time_Parse lines dst h;
  let db := generatedAt db t in
  Some (db, err, h).

(** [func Update(db OuiDb, r io.Reader) error]: the error returned,
    the database and the heap afterwards. *)
Definition Update (db : OuiDb) (lines : list string) (h : heap)
    : option (option updateError * OuiDb * heap) :=
  match db with
  | Static _ => Some (Some ErrNotUpdateable, db, h)
  | Dynamic udb =>
      let '(dst, h) := make h in
      '(t, err, h) ← scanOUI time_Parse lines dst h;
      match err with
      | Some e => Some (Some (ScanError e), db, h)
      | None =>
          udb ← updateDb udb dst t;
          Some (None, Dynamic udb, h)
      end
  end.

End Legacy.

End Legacy.

(** ** More sample data and notions used in the statements *)

(** A stream without a generation time: a newer record for the first
    prefix of [sampleDb], and one for a prefix that [sampleDb] does
    not have. *)
Definition newerDb : list string :=
  [ "00-60-93   (hex)" +:+ tabbed (tabbed "VARIAN MEDICAL");
    "006093     (base 16)" +:+ tabbed (tabbed "VARIAN MEDICAL");
    tabbed (tabbed (tabbed (tabbed "PALO ALTO CA 94304")));
    tabbed (tabbed (tabbed (tabbed "UNITED STATES")));
    "";
    "00-00-01   (hex)" +:+ tabbed (tabbed "XEROX CORPORATION") ].

(** A field that [ParseMac] takes as an address element. *)
Definition goodElem (q : string) : bool :=
  (len q =? 2)%nat && match Sscanf_x q with inl _ => true | inr _ => false end.

(** The 24-bit value of an address, and the address of a value. *)
Definition hwIndex (hw : HardwareAddr) : Z :=
  hwGet hw 0 * 65536 + hwGet hw 1 * 256 + hwGet hw 2.

Definition hwOfIndex (i : Z) : HardwareAddr :=
  (Z.land (Z.shiftr i 16) 255, Z.land (Z.shiftr i 8) 255, Z.land i 255).

(** The line [s] holds no line feed. *)
Definition noLf (s : string) : bool := negb (containsByte s lf).

(** The header lines of a stream that name the address [hw]. *)
Definition namesPrefix (hw : HardwareAddr) (text : string) : bool :=
  match classify text with
  | Header bt _ => bool_decide (bt = hw)
  | _ => false
  end.

(** What the scanner keeps true of every entry of the map: the entry
    is stored under its own prefix, the prefix is three bytes, and the
    country is the last address line (empty when there is none). *)
Definition wellFormed (hw : HardwareAddr) (e : Entry) : Prop :=
  Prefix e = hw /\ inRange hw /\ Country e = List.last (Address e) EmptyString.

(** The entries that the map [m] holds under the addresses of the
    values below [k], with their addresses, by increasing value. *)
Definition foundBelow (m : gmap HardwareAddr Entry) (k : nat)
    : list (HardwareAddr * Entry) :=
  omap (fun i : nat => let hw := hwOfIndex (Z.of_nat i) in
                       (fun e => (hw, e)) <$> m !! hw)
       (seq 0 k).

(** What [PrintDb] writes for the entries [kes]. *)
Definition printed (kes : list (HardwareAddr * Entry)) (elapsed : string)
    : list string :=
  (map (fun ke => Entry_String ke.2 +:+ String lf (String lf EmptyString)) kes
   ++ ["Finished reading 16777216 entries in " +:+ elapsed +:+ ". "
       +:+ Itoa (length kes) +:+ " Entries." +:+ String lf EmptyString])%list.

(** * Properties *)

(** ** The functions on concrete inputs *)

Example ParseMac_dash : ParseMac "D0-DF-9A" = Ok (208, 223, 154).
Proof. vm_compute. reflexivity. Qed.

Example ParseMac_colon : ParseMac "D0:DF:9A:D8:44:4B" = Ok (208, 223, 154).
Proof. vm_compute. reflexivity. Qed.

Example ParseMac_plain_lower : ParseMac "d0df9ad8444b" = Ok (208, 223, 154).
Proof. vm_compute. reflexivity. Qed.

Example ParseMac_mixed_separators : isErr (ParseMac "D0:DF-9A") = true.
Proof. vm_compute. reflexivity. Qed.

Example ParseMac_short_element :
  Error <$> (match ParseMac "54-CD-" with Err e => Some e | Ok _ => None end)
  = Some "invalid mac address '54-CD-': Address element 3 () is not 2 characters".
Proof. vm_compute. reflexivity. Qed.

Example ScanLines_sample :
  ScanLines ("a" +:+ String lf ("b" +:+ String cr (String lf (String lf "c"))))
  = ["a"; "b"; ""; "c"].
Proof. vm_compute. reflexivity. Qed.

Example parseGenerated_sample :
  parseGenerated "Tue, 20 Jan 2015 07:01:36 -0500"
  = Some (mkTime 2015 1 20 7 1 36 0 (-18000)).
Proof. vm_compute. reflexivity. Qed.

Example parseGenerated_bad_day : parseGenerated "Tue, 31 Feb 2015 07:01:36 -0500" = None.
Proof. vm_compute. reflexivity. Qed.

Example FindAllStringSubmatch_sample :
  FindAllStringSubmatch "  00-60-93/24   (hex)" = Some ("00-60-93", "24").
Proof. vm_compute. reflexivity. Qed.

Example FindAllStringSubmatch_greedy :
  FindAllStringSubmatch "x00-11-22-33-44-55-66-77" = Some ("00-11-22-33-44-55", "").
Proof. vm_compute. reflexivity. Qed.

Example scanLoop_sample :
  (scanLoop timeParse sampleDb ∅ None).2 !! ((0, 96, 147) : HardwareAddr)
  = Some {| Manufacturer := "VARIAN";
            Address := ["3100 Hansen Way"; "UNITED STATES"];
            Prefix := (0, 96, 147);
            Country := "UNITED STATES";
            Local := false;
            Multicast := false |}.
Proof. vm_compute. reflexivity. Qed.

Example Open_sample : Open timeParse sampleDb ∅ = Some (sampleOpened, None, sampleHeap).
Proof. vm_compute. reflexivity. Qed.

(** ** Strings *)
Lemma append_nil t : "" +:+ t = t.
Proof. reflexivity. Qed.

Lemma append_cons c s t : String c s +:+ t = String c (s +:+ t).
Proof. reflexivity. Qed.

Lemma len_app s t : len (s +:+ t) = (len s + len t)%nat.
Proof. induction s as [|c s IH]; simpl; [done|]. unfold len in *. simpl. by rewrite IH. Qed.

Lemma take_drop_bytes n s : takeBytes n s +:+ dropBytes n s = s.
Proof.
  revert s. induction n as [|n IH]; intros [|c s]; simpl; try done.
  rewrite append_cons. f_equal. apply IH.
Qed.

Lemma takeBytes_app tok post : takeBytes (len tok) (tok +:+ post) = tok.
Proof.
  induction tok as [|c tok IH]; [by destruct post|].
  rewrite append_cons. simpl. by rewrite IH.
Qed.

(** ** The pattern *)

Lemma reGroup_Some s rest :
  reGroup s = Some rest <->
  exists a b, s = String a (String b rest) /\ isAlnum a = true /\ isAlnum b = true.
Proof.
  unfold reGroup. split.
  - destruct s as [|a [|b r]]; try done.
    destruct (isAlnum a) eqn:Ha, (isAlnum b) eqn:Hb; simpl; try done.
    intros ?; simplify_eq. by exists a, b.
  - intros (a & b & -> & -> & ->). done.
Qed.

Lemma reGroupSep_Some s rest :
  reGroupSep s = Some rest <->
  exists a b c, s = String a (String b (String c rest))
    /\ isAlnum a = true /\ isAlnum b = true /\ isSep c = true.
Proof.
  unfold reGroupSep. split.
  - destruct (reGroup s) as [[|c r]|] eqn:Hg; try done.
    destruct (isSep c) eqn:Hc; [|done]. intros ?; simplify_eq.
    apply reGroup_Some in Hg as (a & b & -> & Ha & Hb). by exists a, b, c.
  - intros (a & b & c & -> & Ha & Hb & Hc).
    assert (reGroup (String a (String b (String c rest))) = Some (String c rest)) as ->
      by (apply reGroup_Some; eauto).
    by rewrite Hc.
Qed.

(** [reTry k] succeeds exactly on the strings that start with a token
    of [k + 1] groups, and matches that token. *)
Lemma reTry_Some k s n :
  reTry k s = Some n ->
  n = (3 * k + 2)%nat /\ isTokenK k (takeBytes n s) = true.
Proof.
  revert s n. induction k as [|k IH]; intros s n; simpl.
  - destruct (reGroup s) eqn:Hg; [|done]. intros ?; simplify_eq.
    apply reGroup_Some in Hg as (a & b & -> & Ha & Hb). simpl.
    by rewrite Ha, Hb.
  - destruct (reGroupSep s) as [rest|] eqn:Hg; [|done].
    apply reGroupSep_Some in Hg as (a & b & c & -> & Ha & Hb & Hc).
    destruct (reTry k rest) as [n'|] eqn:Hk; [|done]. simpl.
    intros ?; simplify_eq. apply IH in Hk as [Hn Htok].
    split; [lia|]. simpl. by rewrite Ha, Hb, Hc, Htok.
Qed.

Lemma reTry_token k tok post :
  isTokenK k tok = true -> reTry k (tok +:+ post) = Some (len tok).
Proof.
  revert tok. induction k as [|k IH]; intros tok; simpl.
  - destruct tok as [|a [|b [|c r]]]; try done.
    intros [Ha Hb]%andb_true_iff. rewrite !append_cons, append_nil. cbn [reTry].
    assert (reGroup (String a (String b post)) = Some post) as ->
      by (apply reGroup_Some; eauto).
    done.
  - destruct tok as [|a [|b [|c r]]]; try done.
    intros [[[Ha Hb]%andb_true_iff Hc]%andb_true_iff Hr]%andb_true_iff.
    rewrite !append_cons. cbn [reTry].
    assert (reGroupSep (String a (String b (String c (r +:+ post)))) = Some (r +:+ post)) as ->
      by (apply reGroupSep_Some; eauto 10).
    by rewrite (IH _ Hr).
Qed.

Lemma isTokenK_len k tok : isTokenK k tok = true -> len tok = (3 * k + 2)%nat.
Proof.
  revert tok. induction k as [|k IH]; intros tok; simpl.
  - by destruct tok as [|a [|b [|c r]]].
  - destruct tok as [|a [|b [|c r]]]; try done.
    intros [_ Hr]%andb_true_iff. apply IH in Hr. unfold len in *. simpl. lia.
Qed.

Lemma isToken_cases tok :
  isToken tok = true <->
  isTokenK 2 tok = true \/ isTokenK 3 tok = true
  \/ isTokenK 4 tok = true \/ isTokenK 5 tok = true.
Proof. unfold isToken. rewrite !orb_true_iff. tauto. Qed.

Lemma reGroup1At_Some s n :
  reGroup1At s = Some n ->
  isToken (takeBytes n s) = true
  /\ len (takeBytes n s) = n
  /\ forall tok post, s = tok +:+ post -> isToken tok = true -> (len tok <= n)%nat.
Proof.
  unfold reGroup1At. intros H.
  assert (Hnone : forall k tok post, s = tok +:+ post -> isTokenK k tok = true ->
                                      reTry k s = None -> False).
  { intros k tok post -> Htok. by rewrite (reTry_token _ _ _ Htok). }
  assert (Hfound : forall k m, reTry k s = Some m ->
            m = (3 * k + 2)%nat /\ len (takeBytes m s) = m
            /\ isTokenK k (takeBytes m s) = true).
  { intros k m Hk. pose proof (reTry_Some _ _ _ Hk) as [Hm Htok].
    pose proof (isTokenK_len _ _ Htok). repeat split; [done|lia|done]. }
  destruct (reTry 5 s) as [n5|] eqn:H5;
    [|destruct (reTry 4 s) as [n4|] eqn:H4;
      [|destruct (reTry 3 s) as [n3|] eqn:H3]]; simplify_eq.
  - destruct (Hfound _ _ H5) as (Hn & Hl & Hk). repeat split; [|done|].
    + apply isToken_cases. auto.
    + intros tok post Hs [Ht|[Ht|[Ht|Ht]]]%isToken_cases;
        apply isTokenK_len in Ht; lia.
  - destruct (Hfound _ _ H4) as (Hn & Hl & Hk). repeat split; [|done|].
    + apply isToken_cases. auto.
    + intros tok post Hs [Ht|[Ht|[Ht|Ht]]]%isToken_cases;
        try (apply isTokenK_len in Ht; lia).
      exfalso. eauto.
  - destruct (Hfound _ _ H3) as (Hn & Hl & Hk). repeat split; [|done|].
    + apply isToken_cases. auto.
    + intros tok post Hs [Ht|[Ht|[Ht|Ht]]]%isToken_cases;
        try (apply isTokenK_len in Ht; lia); exfalso; eauto.
  - destruct (Hfound _ _ H) as (Hn & Hl & Hk). repeat split; [|done|].
    + apply isToken_cases. auto.
    + intros tok post Hs [Ht|[Ht|[Ht|Ht]]]%isToken_cases;
        try (apply isTokenK_len in Ht; lia); exfalso; eauto.
Qed.

Lemma reGroup1At_None s tok post :
  reGroup1At s = None -> s = tok +:+ post -> isToken tok = false.
Proof.
  unfold reGroup1At. intros H ->.
  destruct (isToken tok) eqn:Htok; [|done]. exfalso.
  apply isToken_cases in Htok.
  destruct (reTry 5 _) eqn:H5; [done|].
  destruct (reTry 4 _) eqn:H4; [done|].
  destruct (reTry 3 _) eqn:H3; [done|].
  destruct Htok as [Ht|[Ht|[Ht|Ht]]];
    apply (reTry_token _ _ post) in Ht; congruence.
Qed.

Lemma FindAllStringSubmatch_unfold s :
  FindAllStringSubmatch s =
  match reGroup1At s with
  | Some n => Some (takeBytes n s, reGroup2At (dropBytes n s))
  | None =>
      match s with
      | String _ s' => FindAllStringSubmatch s'
      | EmptyString => None
      end
  end.
Proof. by destruct s. Qed.

Lemma FindAllStringSubmatch_Some s g1 g2 :
  FindAllStringSubmatch s = Some (g1, g2) -> firstToken s g1 g2.
Proof.
  induction s as [|c s IH]; rewrite FindAllStringSubmatch_unfold.
  - done.
  - destruct (reGroup1At (String c s)) as [n|] eqn:Hre.
    + intros ?; simplify_eq.
      destruct (reGroup1At_Some _ _ Hre) as (Htok & Hlen & Hlong).
      split; [done|]. exists "", (dropBytes n (String c s)).
      rewrite append_nil, take_drop_bytes. repeat split; try done.
      * intros; simpl; lia.
      * intros tok post' Hs Ht. rewrite Hlen. by eapply Hlong.
    + intros (Htok & pre & post & -> & Hg2 & Hleft & Hlong)%IH.
      split; [done|]. exists (String c pre), post. rewrite append_cons.
      repeat split; try done.
      intros [|c' pre'] tok post' Hs Ht.
      * rewrite append_nil in Hs.
        by rewrite (reGroup1At_None _ _ _ Hre Hs) in Ht.
      * rewrite append_cons in Hs. injection Hs as _ Hs.
        pose proof (Hleft _ _ _ Hs Ht). unfold len in *. simpl. lia.
Qed.

Lemma FindAllStringSubmatch_None s pre tok post :
  FindAllStringSubmatch s = None -> s = pre +:+ tok +:+ post -> isToken tok = false.
Proof.
  revert pre. induction s as [|c s IH]; intros pre; rewrite FindAllStringSubmatch_unfold.
  - intros _ Hs. destruct pre; [|done]. rewrite append_nil in Hs.
    destruct tok; [done|done].
  - destruct (reGroup1At (String c s)) as [n|] eqn:Hre; [done|].
    intros Hnone Hs. destruct pre as [|c' pre].
    + rewrite append_nil in Hs. by eapply reGroup1At_None.
    + rewrite append_cons in Hs. injection Hs as _ Hs. by eapply IH.
Qed.

Lemma classify_eq text :
  skipLine text = false -> generatedField text = None ->
  classify text =
  match FindAllStringSubmatch (hd EmptyString (Split text tab)) with
  | None => Skipped
  | Some (g1, _) =>
      match ParseMac g1 with
      | Err e => Failed e
      | Ok bt => Header bt (lastField (Split text tab))
      end
  end.
Proof.
  unfold classify, generatedField. intros ->.
  destruct (Split text tab) as [|arr0 arr]; simpl.
  - done.
  - by destruct (HasPrefix (TrimSpace arr0) "Generated: ").
Qed.

(** ** [ParseMac] *)

Lemma isHex_enum a : isHex a = true -> In a hexChars.
Proof.
  destruct a as [[] [] [] [] [] [] [] []]; vm_compute; intros H;
    first [discriminate H | tauto].
Qed.

Ltac hex_cases H :=
  apply isHex_enum in H; simpl in H;
  repeat (destruct H as [<-|H]); [..|destruct H].

Lemma hex_not_sep a :
  isHex a = true -> Ascii.eqb a "-" = false /\ Ascii.eqb a ":" = false.
Proof. intros H. hex_cases H; split; reflexivity. Qed.

Lemma Sscanf_x_hex a b :
  isHex a = true -> isHex b = true -> Sscanf_x (pair2 a b) = inl (hexByte a b).
Proof. intros Ha Hb. hex_cases Ha; hex_cases Hb; vm_compute; reflexivity. Qed.

Lemma Split_field a b sep rest :
  Ascii.eqb a sep = false -> Ascii.eqb b sep = false ->
  Split (String a (String b (String sep rest))) sep = pair2 a b :: Split rest sep.
Proof. intros Ha Hb. simpl. by rewrite Ha, Hb, Ascii.eqb_refl. Qed.

Lemma Split_last a b sep :
  Ascii.eqb a sep = false -> Ascii.eqb b sep = false ->
  Split (pair2 a b) sep = [pair2 a b].
Proof. intros Ha Hb. simpl. by rewrite Ha, Hb. Qed.

Lemma parseElems_three mac a1 a2 b1 b2 c1 c2 more :
  isHex a1 = true -> isHex a2 = true -> isHex b1 = true ->
  isHex b2 = true -> isHex c1 = true -> isHex c2 = true ->
  parseElems mac 0 (pair2 a1 a2 :: pair2 b1 b2 :: pair2 c1 c2 :: more) hwZero
  = Ok (hexByte a1 a2, hexByte b1 b2, hexByte c1 c2).
Proof.
  intros. cbn [parseElems]. 
  rewrite !Sscanf_x_hex by done. simpl. by destruct more.
Qed.

Lemma ParseMac_too_short mac : (len mac < 6)%nat -> isErr (ParseMac mac) = true.
Proof. intros H. unfold ParseMac. apply Nat.ltb_lt in H. by rewrite H. Qed.

Lemma ParseMac_too_few mac :
  (length (macFields mac) < 3)%nat -> isErr (ParseMac mac) = true.
Proof.
  intros H. unfold ParseMac. destruct (len mac <? 6)%nat; [done|].
  apply Nat.ltb_lt in H. by rewrite H.
Qed.

Lemma macFields_separated sep a1 a2 b1 b2 rest :
  Ascii.eqb sep ":" || Ascii.eqb sep "-" = true ->
  isHex a1 = true -> isHex a2 = true -> isHex b1 = true -> isHex b2 = true ->
  macFields (String a1 (String a2 (String sep (String b1 (String b2 (String sep rest))))))
  = pair2 a1 a2 :: pair2 b1 b2 :: Split rest sep.
Proof.
  intros Hsep Ha1 Ha2 Hb1 Hb2.
  assert (Hne : forall a, isHex a = true -> Ascii.eqb a sep = false).
  { intros a Ha. destruct (hex_not_sep a Ha) as [Hd Hc].
    apply orb_true_iff in Hsep as [->%Ascii.eqb_eq | ->%Ascii.eqb_eq]; done. }
  unfold macFields. cbn [byteAt String.get]. rewrite Hsep.
  by rewrite !Split_field by auto.
Qed.

Lemma ParseMac_fields mac a1 a2 b1 b2 c1 c2 more :
  (6 <= len mac)%nat ->
  macFields mac = pair2 a1 a2 :: pair2 b1 b2 :: pair2 c1 c2 :: more ->
  isHex a1 = true -> isHex a2 = true -> isHex b1 = true ->
  isHex b2 = true -> isHex c1 = true -> isHex c2 = true ->
  ParseMac mac = Ok (hexByte a1 a2, hexByte b1 b2, hexByte c1 c2).
Proof.
  intros Hlen Hf **. unfold ParseMac. apply Nat.ltb_ge in Hlen. rewrite Hlen, Hf.
  cbn [length Nat.ltb Nat.leb]. by apply parseElems_three.
Qed.

Lemma ParseMac_separated sep a1 a2 b1 b2 c1 c2 tail :
  Ascii.eqb sep ":" || Ascii.eqb sep "-" = true ->
  isHex a1 = true -> isHex a2 = true -> isHex b1 = true ->
  isHex b2 = true -> isHex c1 = true -> isHex c2 = true ->
  ParseMac (pair2 a1 a2 +:+ String sep (pair2 b1 b2 +:+ String sep (pair2 c1 c2)))
  = Ok (hexByte a1 a2, hexByte b1 b2, hexByte c1 c2)
  /\ ParseMac (pair2 a1 a2 +:+ String sep (pair2 b1 b2 +:+ String sep
                 (pair2 c1 c2 +:+ String sep tail)))
     = Ok (hexByte a1 a2, hexByte b1 b2, hexByte c1 c2).
Proof.
  intros Hsep Ha1 Ha2 Hb1 Hb2 Hc1 Hc2.
  assert (Hne : forall a, isHex a = true -> Ascii.eqb a sep = false).
  { intros a Ha. destruct (hex_not_sep a Ha) as [Hd Hc].
    apply orb_true_iff in Hsep as [->%Ascii.eqb_eq | ->%Ascii.eqb_eq]; done. }
  split.
  - apply ParseMac_fields with (more := []); try done; [simpl; lia|].
    etrans; [apply (macFields_separated sep a1 a2 b1 b2 (pair2 c1 c2)); done|].
    by rewrite Split_last by auto.
  - destruct (Split tail sep) as [|f fs] eqn:Htail.
    + apply ParseMac_fields with (more := []); try done; [simpl; lia|].
      etrans; [apply (macFields_separated sep a1 a2 b1 b2
                        (String c1 (String c2 (String sep tail)))); done|].
      rewrite Split_field by auto. by rewrite Htail.
    + apply ParseMac_fields with (more := f :: fs); try done; [simpl; lia|].
      etrans; [apply (macFields_separated sep a1 a2 b1 b2
                        (String c1 (String c2 (String sep tail)))); done|].
      rewrite Split_field by auto. by rewrite Htail.
Qed.

Lemma ParseMac_plain a1 a2 b1 b2 c1 c2 tail :
  isHex a1 = true -> isHex a2 = true -> isHex b1 = true ->
  isHex b2 = true -> isHex c1 = true -> isHex c2 = true ->
  ParseMac (pair2 a1 a2 +:+ pair2 b1 b2 +:+ pair2 c1 c2 +:+ tail)
  = Ok (hexByte a1 a2, hexByte b1 b2, hexByte c1 c2).
Proof.
  intros Ha1 Ha2 Hb1 Hb2 Hc1 Hc2.
  apply ParseMac_fields with (more := chunks2 tail); try done; [simpl; lia|].
  change (macFields (String a1 (String a2 (String b1 (String b2 (String c1 (String c2 tail))))))
          = pair2 a1 a2 :: pair2 b1 b2 :: pair2 c1 c2 :: chunks2 tail).
  unfold macFields. cbn [byteAt String.get].
  destruct (hex_not_sep b1 Hb1) as [-> ->]. reflexivity.
Qed.

(** C4.  For hexadecimal digits [a1 a2], [b1 b2], [c1 c2], [ParseMac]
    returns the same three bytes, in the order of the input, whether
    the three groups are separated by [-], by [:] or not at all, and
    whatever follows the third group (further fields are ignored); an
    input shorter than 6 bytes and an input with fewer than 3 fields
    are rejected with an error. *)
Theorem ParseMac_any_separator (a1 a2 b1 b2 c1 c2 : ascii) (tail : string) :
  isHex a1 = true -> isHex a2 = true -> isHex b1 = true ->
  isHex b2 = true -> isHex c1 = true -> isHex c2 = true ->
  let hw := (hexByte a1 a2, hexByte b1 b2, hexByte c1 c2) in
  ParseMac (pair2 a1 a2 +:+ "-" +:+ pair2 b1 b2 +:+ "-" +:+ pair2 c1 c2) = Ok hw
  /\ ParseMac (pair2 a1 a2 +:+ ":" +:+ pair2 b1 b2 +:+ ":" +:+ pair2 c1 c2) = Ok hw
  /\ ParseMac (pair2 a1 a2 +:+ pair2 b1 b2 +:+ pair2 c1 c2) = Ok hw
  /\ ParseMac (pair2 a1 a2 +:+ "-" +:+ pair2 b1 b2 +:+ "-" +:+ pair2 c1 c2
               +:+ "-" +:+ tail) = Ok hw
  /\ ParseMac (pair2 a1 a2 +:+ ":" +:+ pair2 b1 b2 +:+ ":" +:+ pair2 c1 c2
               +:+ ":" +:+ tail) = Ok hw
  /\ ParseMac (pair2 a1 a2 +:+ pair2 b1 b2 +:+ pair2 c1 c2 +:+ tail) = Ok hw
  /\ (forall mac, (len mac < 6)%nat -> isErr (ParseMac mac) = true)
  /\ (forall mac, (length (macFields mac) < 3)%nat -> isErr (ParseMac mac) = true).
Proof.
  intros Ha1 Ha2 Hb1 Hb2 Hc1 Hc2 hw.
  destruct (ParseMac_separated "-" a1 a2 b1 b2 c1 c2 tail) as [Hd Hdt]; try done.
  destruct (ParseMac_separated ":" a1 a2 b1 b2 c1 c2 tail) as [Hc Hct]; try done.
  pose proof (ParseMac_plain a1 a2 b1 b2 c1 c2 tail Ha1 Ha2 Hb1 Hb2 Hc1 Hc2) as Hpt.
  pose proof (ParseMac_plain a1 a2 b1 b2 c1 c2 "" Ha1 Ha2 Hb1 Hb2 Hc1 Hc2) as Hp.
  repeat split.
  - exact Hd.
  - exact Hc.
  - exact Hp.
  - exact Hdt.
  - exact Hct.
  - exact Hpt.
  - apply ParseMac_too_short.
  - apply ParseMac_too_few.
Qed.

(** C3.  [ParseMac] checks that each of the first three fields has two
    bytes, but it reads the hexadecimal value with [fmt.Sscanf], which
    skips leading spaces, stops at the first byte that is not a digit
    and does not look at the rest: a field such as [1g] or a space and
    a digit is taken for the byte 1, and no error is returned. *)
Theorem ParseMac_accepts_non_hex_element :
  isHex "g" = false
  /\ Sscanf_x "1g" = inl 1
  /\ ParseMac "1g-00-00" = Ok (1, 0, 0)
  /\ ParseMac "00:1g:00" = Ok (0, 1, 0)
  /\ ParseMac "00001g" = Ok (0, 0, 1)
  /\ ParseMac " 1-00-00" = Ok (1, 0, 0).
Proof. vm_compute. repeat split; reflexivity. Qed.

(** What [ParseMac] does check: the length of the first three
    fields. *)
Lemma parseElems_length mac p s hw :
  len p <> 2%nat -> isErr (parseElems mac 0 (p :: s) hw) = true.
Proof.
  intros H. cbn [parseElems]. simpl (3 <=? 0)%nat. cbv iota.
  destruct (Nat.eqb_spec (len p) 2); done.
Qed.

Lemma parseElems_error mac s i hw e :
  parseElems mac i s hw = Err e -> exists reason, e = ErrInvalidMac reason mac.
Proof.
  revert i hw. induction s as [|p s IH]; intros i hw; cbn [parseElems]; [done|].
  destruct (3 <=? i)%nat; [done|].
  destruct (negb _); [intros ?; simplify_eq; eauto|].
  destruct (Sscanf_x p); [apply IH|intros ?; simplify_eq; eauto].
Qed.

Lemma ParseMac_error mac e :
  ParseMac mac = Err e -> exists reason, e = ErrInvalidMac reason mac.
Proof.
  unfold ParseMac. destruct (len mac <? 6)%nat; [intros ?; simplify_eq; eauto|].
  destruct (length _ <? 3)%nat; [intros ?; simplify_eq; eauto|].
  apply parseElems_error.
Qed.

(** ** Bits and bytes *)

Lemma land_pow2 x n :
  0 <= n -> Z.land x (2 ^ n) = if Z.testbit x n then 2 ^ n else 0.
Proof.
  intros Hn. apply Z.bits_inj'. intros k Hk.
  rewrite Z.land_spec, Z.pow2_bits_eqb by lia.
  destruct (Z.eqb_spec n k) as [->|Hne].
  - destruct (Z.testbit x k); simpl.
    + rewrite Z.pow2_bits_eqb by lia. by rewrite Z.eqb_refl.
    + by rewrite Z.bits_0.
  - rewrite andb_false_r. destruct (Z.testbit x n).
    + rewrite Z.pow2_bits_eqb by lia. symmetry. by apply Z.eqb_neq.
    + by rewrite Z.bits_0.
Qed.

Lemma land_pow2_nonzero x n :
  0 <= n -> negb (Z.land x (2 ^ n) =? 0) = Z.testbit x n.
Proof.
  intros Hn. rewrite land_pow2 by done.
  destruct (Z.testbit x n); [|reflexivity].
  assert (0 < 2 ^ n) by (apply Z.pow_pos_nonneg; lia).
  destruct (Z.eqb_spec (2 ^ n) 0); [lia|reflexivity].
Qed.

Lemma land_pow2_pos x n :
  0 <= n -> (Z.land x (2 ^ n) >? 0) = Z.testbit x n.
Proof.
  intros Hn. rewrite land_pow2 by done.
  destruct (Z.testbit x n); [|reflexivity].
  assert (0 < 2 ^ n) by (apply Z.pow_pos_nonneg; lia).
  apply Z.gtb_lt. lia.
Qed.

Lemma testbit_byte_high b n : 0 <= b < 256 -> 8 <= n -> Z.testbit b n = false.
Proof.
  intros Hb Hn. destruct (Z.eq_dec b 0) as [->|Hnz]; [apply Z.bits_0|].
  apply Z.bits_above_log2; [lia|].
  assert (Z.log2 b < 8); [|lia].
  apply Z.log2_lt_pow2; lia.
Qed.

(** The 24-bit value that [scanOUI] tests carries the bits of the
    first byte 16 places up. *)
Lemma prefix_value_bit a b c k :
  0 <= b < 256 -> 0 <= c < 256 -> 0 <= k ->
  Z.testbit (Z.lor (Z.lor (Z.shiftl a 16) (Z.shiftl b 8)) c) (16 + k)
  = Z.testbit a k.
Proof.
  intros Hb Hc Hk.
  rewrite !Z.lor_spec, !Z.shiftl_spec by lia.
  replace (16 + k - 16) with k by lia.
  rewrite (testbit_byte_high b) by lia.
  rewrite (testbit_byte_high c) by lia.
  by rewrite !orb_false_r.
Qed.

Lemma finishEntry_flags bt name address :
  inRange bt ->
  Prefix (finishEntry bt name address) = bt
  /\ Local (finishEntry bt name address) = Z.testbit (hwGet bt 0) 1
  /\ Multicast (finishEntry bt name address) = Z.testbit (hwGet bt 0) 0.
Proof.
  intros (H0 & H1 & H2). split; [reflexivity|]. split.
  - etrans; [exact (land_pow2_nonzero _ 17 ltac:(lia))|].
    exact (prefix_value_bit _ _ _ 1 H1 H2 ltac:(lia)).
  - etrans; [exact (land_pow2_nonzero _ 16 ltac:(lia))|].
    exact (prefix_value_bit _ _ _ 0 H1 H2 ltac:(lia)).
Qed.

Lemma HardwareAddr_flags h :
  HardwareAddr_Local h = Z.testbit (hwGet h 0) 1
  /\ HardwareAddr_Multicast h = Z.testbit (hwGet h 0) 0.
Proof.
  split.
  - exact (land_pow2_pos (hwGet h 0) 1 ltac:(lia)).
  - exact (land_pow2_pos (hwGet h 0) 0 ltac:(lia)).
Qed.

(** ** The bytes that [ParseMac] returns *)

Lemma hexVal_range c d : hexVal c = Some d -> 0 <= d < 16.
Proof.
  unfold hexVal, isDigit. intros H.
  repeat match type of H with
         | (if ?b then _ else _) = _ => destruct b eqn:?
         end; simplify_eq; lia.
Qed.

Lemma parseHexFrom_nonneg tok acc v :
  0 <= acc -> parseHexFrom tok acc = inl v -> 0 <= v.
Proof.
  revert acc. induction tok as [|c tok IH]; intros acc Hacc; simpl.
  - intros [= <-]. done.
  - destruct (hexVal c) as [d|] eqn:Hd; [|done].
    apply hexVal_range in Hd.
    destruct (2 ^ 64 <=? acc * 16 + d); [done|].
    apply IH. lia.
Qed.

Lemma Sscanf_x_range p v : Sscanf_x p = inl v -> 0 <= v < 256.
Proof.
  unfold Sscanf_x. destruct (SkipSpace p) as [[|c s]|]; try done.
  destruct (negb _); [done|].
  unfold ParseUint16.
  destruct (scanNumber (String c s)) as [|c' tok] eqn:Htok; [done|].
  destruct (parseHexFrom _ 0) as [i|[]] eqn:Hi; try done.
  apply parseHexFrom_nonneg in Hi; [|done].
  destruct (Z.leb_spec 256 i); [done|]. intros [= <-]. lia.
Qed.

Lemma hwSet_inRange hw i v :
  inRange hw -> 0 <= v < 256 -> inRange (hwSet hw i v).
Proof.
  destruct hw as [[a b] c]. unfold inRange. simpl.
  intros (? & ? & ?) ?. destruct i as [|[|i]]; simpl; auto.
Qed.

Lemma parseElems_inRange mac s i hw hw' :
  inRange hw -> parseElems mac i s hw = Ok hw' -> inRange hw'.
Proof.
  revert i hw. induction s as [|p s IH]; intros i hw Hhw; cbn [parseElems].
  - intros ?. by simplify_eq.
  - destruct (3 <=? i)%nat; [intros ?; by simplify_eq|].
    destruct (negb _); [done|].
    destruct (Sscanf_x p) as [b|] eqn:Hb; [|done].
    apply IH, hwSet_inRange; [done|]. by eapply Sscanf_x_range.
Qed.

Lemma ParseMac_inRange mac hw : ParseMac mac = Ok hw -> inRange hw.
Proof.
  unfold ParseMac. destruct (len mac <? 6)%nat; [done|].
  destruct (length _ <? 3)%nat; [done|].
  apply parseElems_inRange. unfold inRange. simpl. lia.
Qed.

Lemma classify_Header_inv text bt name :
  classify text = Header bt name ->
  exists s g2, FindAllStringSubmatch (hd EmptyString (Split text tab)) = Some (s, g2)
    /\ ParseMac s = Ok bt /\ name = lastField (Split text tab).
Proof.
  unfold classify. destruct (skipLine text); [done|].
  destruct (Split text tab) as [|arr0 arr]; [done|].
  destruct (HasPrefix _ _); [done|].
  destruct (FindAllStringSubmatch arr0) as [[s g2]|] eqn:Hre; [|done].
  destruct (ParseMac s) eqn:Hmac; [|done].
  intros ?; simplify_eq. by exists s, g2.
Qed.

Lemma classify_Header_inRange text bt name :
  classify text = Header bt name -> inRange bt.
Proof.
  intros (s & g2 & _ & Hmac & _)%classify_Header_inv. by eapply ParseMac_inRange.
Qed.

(** ** The first field of a line *)

Lemma Split_hd_cons c s sep :
  Ascii.eqb c sep = false ->
  hd EmptyString (Split (String c s) sep) = String c (hd EmptyString (Split s sep)).
Proof. intros H. simpl. rewrite H. by destruct (Split s sep). Qed.

Lemma revString_app s acc : revString s acc = revString s "" +:+ acc.
Proof.
  revert acc. induction s as [|c s IH]; intros acc; simpl; [done|].
  rewrite (IH (String c acc)), (IH (String c "")).
  generalize (revString s ""). intros r.
  induction r as [|d r IHr]; [done|]. rewrite !append_cons. by rewrite IHr.
Qed.

Lemma revString_snoc s c : revString (s +:+ String c "") "" = String c (revString s "").
Proof.
  induction s as [|d s IH]; [done|].
  rewrite append_cons. simpl.
  rewrite revString_app, IH. by rewrite (revString_app s (String d "")).
Qed.

Lemma solid_space2_l c b : solid c -> space2 c b = false.
Proof.
  intros [_ H]. unfold space2. destruct (Z.eqb_spec (code c) 194) as [e|]; [|done].
  rewrite e in H. done.
Qed.

Lemma solid_space2_r a c : solid c -> space2 a c = false.
Proof.
  intros [_ H]. unfold space2.
  destruct (Z.eqb_spec (code c) 133) as [e|]; [rewrite e in H; done|].
  destruct (Z.eqb_spec (code c) 160) as [e|]; [rewrite e in H; done|].
  by rewrite andb_false_r.
Qed.

Lemma solid_space3_l c a b : solid c -> space3 c a b = false.
Proof.
  intros [_ H]. unfold space3.
  destruct (Z.eqb_spec (code c) 225) as [e|]; [rewrite e in H; done|].
  destruct (Z.eqb_spec (code c) 226) as [e|]; [rewrite e in H; done|].
  destruct (Z.eqb_spec (code c) 227) as [e|]; [rewrite e in H; done|].
  done.
Qed.

Lemma solid_space3_m a c b : solid c -> space3 a c b = false.
Proof.
  intros [_ H]. unfold space3.
  destruct (Z.eqb_spec (code c) 154) as [e|]; [rewrite e in H; done|].
  destruct (Z.eqb_spec (code c) 128) as [e|]; [rewrite e in H; done|].
  destruct (Z.eqb_spec (code c) 129) as [e|]; [rewrite e in H; done|].
  by rewrite !andb_false_r.
Qed.

Lemma solid_space3_r a b c : solid c -> space3 a b c = false.
Proof.
  intros [_ H]. unfold space3.
  assert (Hlt : code c < 128) by (by apply Z.leb_gt).
  destruct (Z.eqb_spec (code c) 128); [lia|].
  destruct (Z.eqb_spec (code c) 159); [lia|].
  destruct (Z.eqb_spec (code c) 168); [lia|].
  destruct (Z.eqb_spec (code c) 169); [lia|].
  destruct (Z.eqb_spec (code c) 175); [lia|].
  destruct (Z.leb_spec 128 (code c)); [lia|].
  by rewrite !andb_false_r.
Qed.

Lemma trimSpaceLeft_solid c s : solid c -> trimSpaceLeft (String c s) = String c s.
Proof.
  intros Hc. simpl. destruct Hc as [Ha Hh]. rewrite Ha.
  destruct s as [|b [|d s]]; [done| |].
  - by rewrite solid_space2_l.
  - rewrite solid_space2_l by done. by rewrite solid_space3_l.
Qed.

Lemma trimSpaceRightRev_solid c x :
  solid c -> exists y, trimSpaceRightRev (x +:+ String c "") = y +:+ String c "".
Proof.
  intros Hc.
  induction x as [x IH] using (induction_ltof1 _ len). unfold ltof in IH.
  destruct x as [|a x1].
  - exists "". rewrite append_nil. simpl. by destruct Hc as [-> _].
  - rewrite append_cons. cbn [trimSpaceRightRev].
    destruct (asciiSpace a); [apply IH; unfold len; simpl; lia|].
    destruct x1 as [|b x2].
    + rewrite append_nil. rewrite solid_space2_l by done.
      exists (String a ""). by rewrite append_cons.
    + rewrite append_cons.
      destruct (space2 b a); [apply IH; unfold len; simpl; lia|].
      destruct x2 as [|d x3].
      * rewrite append_nil. rewrite solid_space3_l by done.
        exists (String a (String b "")). by rewrite !append_cons.
      * rewrite append_cons.
        destruct (space3 d b a); [apply IH; unfold len; simpl; lia|].
        exists (String a (String b (String d x3))). by rewrite !append_cons.
Qed.

Lemma TrimSpace_solid c s : solid c -> exists z, TrimSpace (String c s) = String c z.
Proof.
  intros Hc. unfold TrimSpace. rewrite trimSpaceLeft_solid by done.
  simpl. rewrite (revString_app s (String c "")).
  destruct (trimSpaceRightRev_solid c (revString s "") Hc) as [y ->].
  rewrite revString_snoc. eauto.
Qed.

Lemma generatedField_not_skipped text t0 :
  generatedField text = Some t0 -> skipLine text = false.
Proof.
  unfold generatedField, skipLine. destruct text as [|c s]; [done|].
  destruct (Ascii.eqb_spec c "#") as [->|]; [|done].
  rewrite Split_hd_cons by done.
  destruct (TrimSpace_solid "#" (hd "" (Split s tab))) as [z ->]; done.
Qed.

Lemma generatedField_classify text t0 :
  generatedField text = Some t0 -> classify text = GeneratedLine t0.
Proof.
  intros H. pose proof (generatedField_not_skipped _ _ H) as Hskip.
  unfold classify, generatedField in *. rewrite Hskip.
  destruct (Split text tab) as [|arr0 arr]; simpl in *; [done|].
  destruct (HasPrefix _ _); by simplify_eq.
Qed.

Lemma generatedField_not_tabbed text t0 :
  generatedField text = Some t0 -> startsWithTab text = false.
Proof.
  unfold generatedField, startsWithTab. destruct text as [|c s]; [done|].
  destruct (Ascii.eqb_spec c tab) as [->|]; [|done]. done.
Qed.

Lemma generatedField_long text t0 :
  generatedField text = Some t0 -> (2 <= len text)%nat.
Proof.
  destruct text as [|c [|d s]]; [done| |unfold len; simpl; lia].
  intros H. exfalso. revert H.
  destruct c as [[] [] [] [] [] [] [] []]; vm_compute; done.
Qed.

(** C6.  In the scanner a line that is neither skipped as blank or
    comment nor a "Generated: " line is matched, in its first
    tab-delimited field, against the pattern of [scanOUI].  The pattern
    accepts tokens of 3 to 6 groups of exactly 2 ASCII letters or
    digits separated by [:] or [-] ([isToken]), optionally followed by
    [/] and 1 or 2 word characters, which are captured and not used.
    If the field contains no such token the line is skipped; otherwise
    the leftmost token, the longest at its place, is handed to
    [ParseMac], whose result decides between an error and a record
    header. *)
Theorem scanner_pattern_tokens (text : string) :
  skipLine text = false ->
  generatedField text = None ->
  match FindAllStringSubmatch (hd EmptyString (Split text tab)) with
  | None =>
      (forall pre tok post,
          hd EmptyString (Split text tab) = pre +:+ tok +:+ post ->
          isToken tok = false)
      /\ classify text = Skipped
  | Some (g1, g2) =>
      firstToken (hd EmptyString (Split text tab)) g1 g2
      /\ classify text = match ParseMac g1 with
                         | Err e => Failed e
                         | Ok bt => Header bt (lastField (Split text tab))
                         end
  end.
Proof.
  intros Hskip Hgen. rewrite (classify_eq _ Hskip Hgen).
  destruct (FindAllStringSubmatch _) as [[g1 g2]|] eqn:Hre.
  - split; [|done]. by apply FindAllStringSubmatch_Some.
  - split; [|done]. intros pre tok post. by apply FindAllStringSubmatch_None.
Qed.

(** ** The scanner *)

Lemma collectAddress_split lines address :
  exists used,
    lines = (used ++ (collectAddress lines address).2)%list
    /\ ((collectAddress lines address).2 <> [] ->
        forall tail, collectAddress (used ++ tail) address
                     = ((collectAddress lines address).1, tail)).
Proof.
  revert address. induction lines as [|text lines IH]; intros address.
  - exists []. split; [done|]. done.
  - simpl. destruct (len text <? 2)%nat eqn:Hshort.
    + exists [text]. split; [done|]. intros _ tail. simpl. by rewrite Hshort.
    + destruct (startsWithTab text) eqn:Htab; simpl.
      * destruct (IH (address ++ [Trim text addressCutset])%list) as (used & Heq & Hrun).
        exists (text :: used). split; [simpl; congruence|].
        intros Hne tail. simpl. rewrite Hshort, Htab. simpl. by apply Hrun.
      * destruct (IH address) as (used & Heq & Hrun).
        exists (text :: used). split; [simpl; congruence|].
        intros Hne tail. simpl. rewrite Hshort, Htab. simpl. by apply Hrun.
Qed.

Section ScannerAndDatabase.
Variable time_Parse : string -> string -> option Time.

Lemma scanLoop_nil db g : scanLoop time_Parse [] db g = (g, None, db).
Proof. reflexivity. Qed.

Lemma scanLoop_skipped text rest db g :
  classify text = Skipped -> scanLoop time_Parse (text :: rest) db g = scanLoop time_Parse rest db g.
Proof. intros H. simpl. rewrite H. reflexivity. Qed.

Lemma scanLoop_generated text t0 rest db g :
  classify text = GeneratedLine t0 ->
  scanLoop time_Parse (text :: rest) db g =
  scanLoop time_Parse rest db (match time_Parse generatedLayout t0 with
                    | Some t => Some t
                    | None => g
                    end).
Proof. intros H. simpl. rewrite H. destruct (time_Parse _ _); reflexivity. Qed.

Lemma scanLoop_failed text e rest db g :
  classify text = Failed e -> scanLoop time_Parse (text :: rest) db g = (g, Some e, db).
Proof. intros H. simpl. rewrite H. reflexivity. Qed.

Lemma scanLoop_header text bt name rest db g :
  classify text = Header bt name ->
  scanLoop time_Parse (text :: rest) db g =
  scanLoop time_Parse (collectAddress rest []).2
           (<[bt := finishEntry bt name (collectAddress rest []).1]> db) g.
Proof.
  intros H. simpl. rewrite H.
  match goal with
  | |- ?inner rest [] = _ =>
      enough (forall address,
                 inner rest address =
                 scanLoop time_Parse (collectAddress rest address).2
                   (<[bt := finishEntry bt name (collectAddress rest address).1]> db) g)
        as Haux by apply Haux
  end.
  induction rest as [|line rest IH]; intros address; [reflexivity|].
  simpl. destruct (len line <? 2)%nat; [reflexivity|].
  destruct (startsWithTab line); simpl; apply IH.
Qed.

Lemma collectAddress_length lines address :
  (length (collectAddress lines address).2 <= length lines)%nat.
Proof.
  revert address. induction lines as [|line lines IH]; intros address; simpl; [lia|].
  destruct (len line <? 2)%nat; simpl; [lia|].
  destruct (startsWithTab line); simpl; (etrans; [apply IH|lia]).
Qed.

(** Induction along the run of the outer loop. *)
Lemma scanLoop_run_ind (P : list string -> gmap HardwareAddr Entry -> option Time -> Prop) :
  (forall db g, P [] db g) ->
  (forall text rest db g, classify text = Skipped -> P rest db g -> P (text :: rest) db g) ->
  (forall text t0 rest db g, classify text = GeneratedLine t0 ->
      P rest db (match time_Parse generatedLayout t0 with Some t => Some t | None => g end) ->
      P (text :: rest) db g) ->
  (forall text e rest db g, classify text = Failed e -> P (text :: rest) db g) ->
  (forall text bt name rest db g, classify text = Header bt name ->
      P (collectAddress rest []).2
        (<[bt := finishEntry bt name (collectAddress rest []).1]> db) g ->
      P (text :: rest) db g) ->
  forall lines db g, P lines db g.
Proof.
  intros Hnil Hskip Hgen Hfail Hhead lines.
  induction lines as [lines IH] using (induction_ltof1 _ (@length string)).
  unfold ltof in IH. intros db g.
  destruct lines as [|text rest]; [apply Hnil|].
  destruct (classify text) eqn:Hc.
  - apply Hskip; [done|]. apply IH. simpl. lia.
  - eapply Hgen; [done|]. apply IH. simpl. lia.
  - eapply Hfail; done.
  - eapply Hhead; [done|]. apply IH. simpl.
    pose proof (collectAddress_length rest []). lia.
Qed.

Lemma collectAddress_app pre rest address :
  Forall (fun text => (2 <= len text)%nat) pre ->
  collectAddress (pre ++ rest) address =
  collectAddress rest (address ++ addressLines pre).
Proof.
  intros Hpre. revert address.
  induction Hpre as [|text pre Hlen _ IH]; intros address.
  - unfold addressLines. simpl. by rewrite app_nil_r.
  - simpl. apply Nat.ltb_ge in Hlen. rewrite Hlen.
    unfold addressLines. destruct (startsWithTab text) eqn:Htab; simpl.
    + rewrite IH, filter_cons_True by done. rewrite fmap_cons.
      by rewrite <- app_assoc.
    + rewrite IH, filter_cons_False; [done|]. by rewrite Htab.
Qed.

(** C2.  While the address lines of a record are collected, the
    collection stops only at a line shorter than 2 bytes, which is
    used up, or at the end of the input.  A line of 2 bytes or more
    that does not start with a tab is used up as well and collects
    nothing, and the collection goes on with the next line: the
    outer loop never sees that line, so the scan of the stream is
    the scan of the stream without it. *)
Theorem collectAddress_skips_untabbed
    (head text short : string) (pre rest address : list string)
    (db : gmap HardwareAddr Entry) (g : option Time)
    (bt : HardwareAddr) (name : string) :
  classify head = Header bt name ->
  Forall (fun line => (2 <= len line)%nat) pre ->
  (len short < 2)%nat ->
  (2 <= len text)%nat ->
  startsWithTab text = false ->
  collectAddress (pre ++ short :: rest) address
    = ((address ++ addressLines pre)%list, rest)
  /\ collectAddress pre address = ((address ++ addressLines pre)%list, [])
  /\ collectAddress (text :: rest) address = collectAddress rest address
  /\ scanLoop time_Parse (head :: pre ++ text :: rest) db g
     = scanLoop time_Parse (head :: pre ++ rest) db g.
Proof.
  intros Hhead Hpre Hshort Htext Htab.
  assert (Hstep : forall acc,
             collectAddress (text :: rest) acc = collectAddress rest acc).
  { intros acc. simpl. apply Nat.ltb_ge in Htext. by rewrite Htext, Htab. }
  repeat split.
  - rewrite collectAddress_app by done. simpl.
    apply Nat.ltb_lt in Hshort. by rewrite Hshort.
  - rewrite <- (app_nil_r pre) at 1. by rewrite collectAddress_app.
  - apply Hstep.
  - rewrite !(scanLoop_header _ _ _ _ _ _ Hhead).
    by rewrite !collectAddress_app, Hstep.
Qed.

(** A line that carries a "Generated: " field inside the block of a
    record is such a line. *)
Lemma generated_line_in_block head bt name pre text t0 rest db g :
  classify head = Header bt name ->
  Forall (fun line => (2 <= len line)%nat) pre ->
  generatedField text = Some t0 ->
  scanLoop time_Parse (head :: pre ++ text :: rest) db g
  = scanLoop time_Parse (head :: pre ++ rest) db g.
Proof.
  intros Hhead Hpre Hgen.
  assert (Hstep : forall acc,
             collectAddress (text :: rest) acc = collectAddress rest acc).
  { intros acc. simpl.
    pose proof (generatedField_long _ _ Hgen) as Hlen.
    apply Nat.ltb_ge in Hlen.
    by rewrite Hlen, (generatedField_not_tabbed _ _ Hgen). }
  rewrite !(scanLoop_header _ _ _ _ _ _ Hhead).
  by rewrite !collectAddress_app, Hstep.
Qed.

(** Every entry of the map is stored under its own prefix and has
    the flags of that prefix. *)
Lemma scanLoop_flags lines db g :
  map_Forall flagsOf db -> map_Forall flagsOf (scanLoop time_Parse lines db g).2.
Proof.
  revert lines db g.
  apply (scanLoop_run_ind
           (fun lines db g => map_Forall flagsOf db ->
                              map_Forall flagsOf (scanLoop time_Parse lines db g).2)).
  - done.
  - intros text rest db g Hc IH Hdb. rewrite scanLoop_skipped by done. auto.
  - intros text t0 rest db g Hc IH Hdb.
    rewrite (scanLoop_generated _ _ _ _ _ Hc). auto.
  - intros text e rest db g Hc Hdb. by rewrite (scanLoop_failed _ _ _ _ _ Hc).
  - intros text bt name rest db g Hc IH Hdb.
    rewrite (scanLoop_header _ _ _ _ _ _ Hc). apply IH.
    apply map_Forall_insert_2; [|done].
    apply finishEntry_flags. by eapply classify_Header_inRange.
Qed.

(** C8.  In every record that the scanner builds, the
    locally-administered flag is bit 0x02 and the multicast flag is
    bit 0x01 of the first byte of the key, and the methods [Local]
    and [Multicast] of [HardwareAddr] test the same bits: the prefix
    {0x02,0,0} is local, {0x01,0,0} is multicast, {0,0,0} is
    neither. *)
Theorem flags_from_first_byte
    (lines : list string) (g : option Time) (err : option error)
    (m : gmap HardwareAddr Entry) (hw : HardwareAddr) (e : Entry) :
  scanLoop time_Parse lines ∅ None = (g, err, m) ->
  m !! hw = Some e ->
  Prefix e = hw
  /\ Local e = Z.testbit (hwGet hw 0) 1
  /\ Multicast e = Z.testbit (hwGet hw 0) 0
  /\ HardwareAddr_Local hw = Z.testbit (hwGet hw 0) 1
  /\ HardwareAddr_Multicast hw = Z.testbit (hwGet hw 0) 0
  /\ (forall name address,
        Local (finishEntry (2, 0, 0) name address) = true
        /\ Multicast (finishEntry (1, 0, 0) name address) = true
        /\ Local (finishEntry (0, 0, 0) name address) = false
        /\ Multicast (finishEntry (0, 0, 0) name address) = false)
  /\ HardwareAddr_Local (2, 0, 0) = true
  /\ HardwareAddr_Multicast (1, 0, 0) = true
  /\ HardwareAddr_Local (0, 0, 0) = false
  /\ HardwareAddr_Multicast (0, 0, 0) = false.
Proof.
  intros Hscan Hm.
  pose proof (scanLoop_flags lines ∅ None) as Hall.
  rewrite Hscan in Hall. simpl in Hall.
  specialize (Hall (map_Forall_empty _) hw e Hm) as (Hp & Hl & Hmc).
  destruct (HardwareAddr_flags hw) as [Hhl Hhm].
  repeat split; done.
Qed.

(** A scan that fails has read a prefix of the stream without error
    and then met a header that [ParseMac] rejects; the map holds what
    the prefix put there. *)
Lemma scanLoop_failure_prefix lines db g g' err m :
  scanLoop time_Parse lines db g = (g', Some err, m) ->
  exists pre bad rest,
    lines = (pre ++ bad :: rest)%list
    /\ classify bad = Failed err
    /\ scanLoop time_Parse pre db g = (g', None, m).
Proof.
  revert lines db g g' err m.
  apply (scanLoop_run_ind
    (fun lines db g => forall g' err m,
       scanLoop time_Parse lines db g = (g', Some err, m) ->
       exists pre bad rest,
         lines = (pre ++ bad :: rest)%list
         /\ classify bad = Failed err
         /\ scanLoop time_Parse pre db g = (g', None, m))).
  - intros db g g' err m. by rewrite scanLoop_nil.
  - intros text rest db g Hc IH g' err m. rewrite scanLoop_skipped by done.
    intros (pre & bad & rest' & -> & Hbad & Hpre)%IH.
    exists (text :: pre), bad, rest'. repeat split; [done|].
    by rewrite scanLoop_skipped.
  - intros text t0 rest db g Hc IH g' err m.
    rewrite (scanLoop_generated _ _ _ _ _ Hc).
    intros (pre & bad & rest' & -> & Hbad & Hpre)%IH.
    exists (text :: pre), bad, rest'. repeat split; [done|].
    by rewrite (scanLoop_generated _ _ _ _ _ Hc).
  - intros text e rest db g Hc g' err m.
    rewrite (scanLoop_failed _ _ _ _ _ Hc). intros ?; simplify_eq.
    by exists [], text, rest.
  - intros text bt name rest db g Hc IH g' err m.
    rewrite (scanLoop_header _ _ _ _ _ _ Hc).
    intros (pre & bad & rest' & Hrest & Hbad & Hpre)%IH.
    destruct (collectAddress_split rest []) as (used & Hused & Hrun).
    rewrite Hrest in Hused, Hrun.
    exists (text :: used ++ pre), bad, rest'. repeat split; [|done|].
    + rewrite Hused at 1. simpl. by rewrite <- app_assoc.
    + rewrite (scanLoop_header _ _ _ _ _ _ Hc).
      rewrite Hrun by (by destruct pre). done.
Qed.

Lemma make_fresh h : h !! (make h).1 = None /\ (make h).2 = <[(make h).1 := ∅]> h.
Proof.
  unfold make. simpl. split; [|done].
  apply not_elem_of_dom, is_fresh.
Qed.

Lemma scanOUI_make lines h :
  scanOUI time_Parse lines (make h).1 (make h).2
  = Some ((scanLoop time_Parse lines ∅ None).1.1,
          (scanLoop time_Parse lines ∅ None).1.2,
          <[(make h).1 := (scanLoop time_Parse lines ∅ None).2]> h).
Proof.
  unfold scanOUI. destruct (make_fresh h) as [_ ->].
  rewrite lookup_insert_eq.
  destruct (scanLoop time_Parse lines ∅ None) as [[g err] m]. simpl.
  by rewrite insert_insert_eq.
Qed.

Lemma generatedAt_unlocked l t0 t :
  generatedAt (mkUpdateable l t0 unlocked) t
  = Some (mkUpdateable l (default t0 t) unlocked).
Proof. by destruct t. Qed.

Lemma Open_eq lines h :
  Open time_Parse lines h
  = Some (mkUpdateable (make h).1
            (default zeroTime (scanLoop time_Parse lines ∅ None).1.1) unlocked,
          (scanLoop time_Parse lines ∅ None).1.2,
          <[(make h).1 := (scanLoop time_Parse lines ∅ None).2]> h).
Proof.
  unfold Open. pose proof (scanOUI_make lines h) as Hscan.
  destruct (make h) as [dst h1]. simpl in *. rewrite Hscan. simpl.
  by rewrite generatedAt_unlocked.
Qed.

Lemma OpenStatic_eq lines h :
  OpenStatic time_Parse lines h
  = Some (mkStatic (make h).1
            (default zeroTime (scanLoop time_Parse lines ∅ None).1.1),
          (scanLoop time_Parse lines ∅ None).1.2,
          <[(make h).1 := (scanLoop time_Parse lines ∅ None).2]> h).
Proof.
  unfold OpenStatic. pose proof (scanOUI_make lines h) as Hscan.
  destruct (make h) as [dst h1]. simpl in *. rewrite Hscan. simpl.
  by destruct (scanLoop time_Parse lines ∅ None) as [[[t|] err] m].
Qed.

Lemma Update_failure db lines h g err m :
  scanLoop time_Parse lines ∅ None = (g, Some err, m) ->
  Update time_Parse db lines h = Some (Some err, db, <[(make h).1 := m]> h).
Proof.
  intros Hscan. unfold Update. pose proof (scanOUI_make lines h) as Hs.
  destruct (make h) as [dst h1]. simpl in *. rewrite Hs, Hscan. done.
Qed.

Lemma LookUp_eq db hw h :
  writer (mu db) = false ->
  LookUp db hw h
  = Some (match lookupEntry (ouiDB db) hw h with
          | None => Err ErrNotFound
          | Some e => Ok e
          end, db).
Proof.
  destruct db as [l t [w n]]. simpl. intros ->.
  unfold LookUp, RLock, RUnlock. simpl. by destruct (lookupEntry l hw h).
Qed.

Lemma LookUp_ext db hw h h' :
  h' !! ouiDB db = h !! ouiDB db -> LookUp db hw h' = LookUp db hw h.
Proof.
  destruct db as [l t [[] n]]; unfold LookUp, RLock, RUnlock, lookupEntry;
    simpl; [done|]. by intros ->.
Qed.


(** C1.  If the scan of the update stream fails with an error, then
    [Update] returns that error and leaves the database as it was:
    the struct (and with it the generation time) is unchanged, the
    map of the database in the heap is unchanged, and every lookup
    gives what it gave before. *)
Theorem Update_failure_keeps_database
    (db : updateableDB) (lines : list string) (h h1 : heap)
    (g : option Time) (err : error) :
  is_Some (h !! ouiDB db) ->
  scanOUI time_Parse lines (make h).1 (make h).2 = Some (g, Some err, h1) ->
  Update time_Parse db lines h = Some (Some err, db, h1)
  /\ h1 !! ouiDB db = h !! ouiDB db
  /\ (forall hw, LookUp db hw h1 = LookUp db hw h)
  /\ (forall hw e, lookupEntry (ouiDB db) hw h = Some e ->
                   lookupEntry (ouiDB db) hw h1 = Some e).
Proof.
  intros Hdb. rewrite scanOUI_make. intros Hscan.
  destruct (scanLoop time_Parse lines ∅ None) as [[g' err'] m] eqn:Hloop.
  simpl in Hscan. simplify_eq.
  assert (Hne : (make h).1 <> ouiDB db).
  { intros Heq. destruct (make_fresh h) as [Hfresh _].
    rewrite Heq in Hfresh. rewrite Hfresh in Hdb. by destruct Hdb. }
  assert (Hkeep : (<[(make h).1 := m]> h) !! ouiDB db = h !! ouiDB db)
    by (by rewrite lookup_insert_ne).
  simpl in Hkeep.
  repeat split.
  - by eapply Update_failure.
  - done.
  - intros hw. by apply LookUp_ext.
  - intros hw e. unfold lookupEntry. by rewrite Hkeep.
Qed.

(** C5.  For a key that the map of the database does not hold, both
    [LookUp] methods return the sentinel [ErrNotFound] and no entry;
    [Query] does the same when its argument parses to such a key,
    and returns the error of [ParseMac], which is never
    [ErrNotFound], when its argument does not parse. *)
Theorem LookUp_absent_is_ErrNotFound
    (db : updateableDB) (sdb : staticDB) (hw : HardwareAddr) (h : heap) :
  writer (mu db) = false ->
  lookupEntry (ouiDB db) hw h = None ->
  lookupEntry (static_ouiDB sdb) hw h = None ->
  LookUp db hw h = Some (Err ErrNotFound, db)
  /\ static_LookUp sdb hw h = Err ErrNotFound
  /\ (forall mac, ParseMac mac = Ok hw ->
        Query db mac h = Some (Err ErrNotFound, db)
        /\ static_Query sdb mac h = Err ErrNotFound)
  /\ (forall mac e, ParseMac mac = Err e ->
        Query db mac h = Some (Err e, db)
        /\ static_Query sdb mac h = Err e
        /\ e <> ErrNotFound).
Proof.
  intros Hmu Hdb Hsdb.
  assert (Hl : LookUp db hw h = Some (Err ErrNotFound, db))
    by (by rewrite LookUp_eq, Hdb).
  assert (Hs : static_LookUp sdb hw h = Err ErrNotFound)
    by (unfold static_LookUp; by rewrite Hsdb).
  split; [done|]. split; [done|]. split.
  - intros mac Hmac. unfold Query, static_Query. by rewrite Hmac.
  - intros mac e Hmac. unfold Query, static_Query. rewrite Hmac.
    split; [done|]. split; [done|].
    apply ParseMac_error in Hmac as [reason ->]. done.
Qed.

End ScannerAndDatabase.

(** ** The generation time and the partial result of a scan *)

Lemma classify_GeneratedLine_inv text t0 :
  classify text = GeneratedLine t0 -> generatedField text = Some t0.
Proof.
  unfold classify, generatedField. destruct (skipLine text); [done|].
  destruct (Split text tab) as [|arr0 arr]; [done|]. simpl.
  destruct (HasPrefix _ _).
  - intros ?; by simplify_eq.
  - destruct (FindAllStringSubmatch arr0) as [[s g2]|]; [|done].
    by destruct (ParseMac s).
Qed.

Lemma classify_generatedField_None text :
  (forall t0, classify text <> GeneratedLine t0) -> generatedField text = None.
Proof.
  intros H. destruct (generatedField text) as [t0|] eqn:Hg; [|done].
  exfalso. by eapply H, generatedField_classify.
Qed.

(** The address loop ends at a line shorter than 2 bytes, which it
    uses up, or at the end of the stream. *)
Lemma collectAddress_cases lines acc :
  (exists body short,
      lines = (body ++ short :: (collectAddress lines acc).2)%list
      /\ Forall (fun line => (2 <= len line)%nat) body
      /\ (len short < 2)%nat
      /\ (collectAddress lines acc).1 = (acc ++ addressLines body)%list)
  \/ ((collectAddress lines acc).2 = []
      /\ Forall (fun line => (2 <= len line)%nat) lines
      /\ (collectAddress lines acc).1 = (acc ++ addressLines lines)%list).
Proof.
  revert acc. induction lines as [|text lines IH]; intros acc.
  - right. simpl. split; [done|]. split; [done|].
    unfold addressLines. simpl. by rewrite app_nil_r.
  - simpl. destruct (len text <? 2)%nat eqn:Hlen.
    + left. exists [], text. simpl. split; [done|]. split; [done|].
      apply Nat.ltb_lt in Hlen. split; [done|].
      unfold addressLines. simpl. by rewrite app_nil_r.
    + apply Nat.ltb_ge in Hlen.
      assert (Hadd : forall ls,
                 (acc ++ addressLines (text :: ls))%list
                 = ((if negb (startsWithTab text) then acc
                     else acc ++ [Trim text addressCutset]) ++ addressLines ls)%list).
      { intros ls. unfold addressLines.
        destruct (startsWithTab text) eqn:Htab; simpl.
        - rewrite filter_cons_True by done. rewrite fmap_cons.
          by rewrite <- app_assoc.
        - rewrite filter_cons_False; [done|]. by rewrite Htab. }
      destruct (negb (startsWithTab text)) eqn:Hneg.
      * destruct (IH acc) as [(body & short & Hl & Hb & Hs & Ha)|(Hr & Hb & Ha)].
        -- left. exists (text :: body), short. simpl. rewrite <- Hl.
           split; [done|]. split; [by constructor|]. split; [done|].
           by rewrite Ha, Hadd.
        -- right. split; [done|]. split; [by constructor|]. by rewrite Ha, Hadd.
      * destruct (IH (acc ++ [Trim text addressCutset])%list)
          as [(body & short & Hl & Hb & Hs & Ha)|(Hr & Hb & Ha)].
        -- left. exists (text :: body), short. simpl. rewrite <- Hl.
           split; [done|]. split; [by constructor|]. split; [done|].
           by rewrite Ha, Hadd.
        -- right. split; [done|]. split; [by constructor|]. by rewrite Ha, Hadd.
Qed.

Lemma outerLines_block lines acc :
  outerLines true lines = outerLines false (collectAddress lines acc).2.
Proof.
  revert acc. induction lines as [|text lines IH]; intros acc; [done|].
  simpl. destruct (len text <? 2)%nat; [done|].
  destruct (negb (startsWithTab text)); apply IH.
Qed.

Section GeneratedTimeAndPartialResult.
Variable time_Parse : string -> string -> option Time.

(** The time that a scan returns is the time of the last line, among
    the lines that the outer loop reads, whose field parses; the time
    the scan started with when there is none. *)
Lemma scanLoop_time lines db g :
  (scanLoop time_Parse lines db g).1.1
  = specGenerated time_Parse (outerLines false lines) g.
Proof.
  revert lines db g.
  apply (scanLoop_run_ind time_Parse
           (fun lines db g =>
              (scanLoop time_Parse lines db g).1.1
              = specGenerated time_Parse (outerLines false lines) g)).
  - done.
  - intros text rest db g Hc IH. rewrite scanLoop_skipped by done.
    cbn [outerLines]. rewrite Hc. cbn [specGenerated].
    rewrite classify_generatedField_None; [done|]. intros t0. by rewrite Hc.
  - intros text t0 rest db g Hc IH.
    rewrite (scanLoop_generated _ _ _ _ _ _ Hc).
    cbn [outerLines]. rewrite Hc. cbn [specGenerated].
    rewrite (classify_GeneratedLine_inv _ _ Hc).
    by destruct (time_Parse generatedLayout t0).
  - intros text e rest db g Hc. rewrite (scanLoop_failed _ _ _ _ _ _ Hc).
    cbn [outerLines]. rewrite Hc. cbn [specGenerated].
    rewrite classify_generatedField_None; [done|]. intros t0. by rewrite Hc.
  - intros text bt name rest db g Hc IH.
    rewrite (scanLoop_header _ _ _ _ _ _ _ Hc), IH.
    cbn [outerLines]. rewrite Hc. cbn [specGenerated].
    rewrite classify_generatedField_None; [|intros t0; by rewrite Hc].
    by rewrite (outerLines_block rest []).
Qed.

(** The map and the error of a scan do not depend on the time the
    scan starts with. *)
Lemma scanLoop_time_irrelevant lines db g g' :
  (scanLoop time_Parse lines db g).2 = (scanLoop time_Parse lines db g').2
  /\ (scanLoop time_Parse lines db g).1.2 = (scanLoop time_Parse lines db g').1.2.
Proof.
  revert lines db g g'.
  apply (scanLoop_run_ind time_Parse
           (fun lines db g => forall g',
              (scanLoop time_Parse lines db g).2 = (scanLoop time_Parse lines db g').2
              /\ (scanLoop time_Parse lines db g).1.2
                 = (scanLoop time_Parse lines db g').1.2)).
  - done.
  - intros text rest db g Hc IH g'. rewrite !scanLoop_skipped by done. apply IH.
  - intros text t0 rest db g Hc IH g'.
    rewrite !(scanLoop_generated _ _ _ _ _ _ Hc).
    destruct (time_Parse generatedLayout t0); apply IH.
  - intros text e rest db g Hc g'. by rewrite !(scanLoop_failed _ _ _ _ _ _ Hc).
  - intros text bt name rest db g Hc IH g'.
    rewrite !(scanLoop_header _ _ _ _ _ _ _ Hc). apply IH.
Qed.

(** C7.  A line that the outer loop of the scanner reads and whose
    first tab-delimited field, trimmed, begins with "Generated: "
    sets the generation time exactly when the rest of the field
    parses with the layout of the scanner: the scan goes on with the
    next line, with the parsed time when the field parses and with
    the time as it was when it does not, and the line changes neither
    the map nor the error of the scan.  The time that a scan returns
    is the time of the last line, among the lines the outer loop
    reads, whose field parses (the time the scan started with when
    there is none): after the line [text] it is the parsed time of
    [text] unless a later line that the outer loop reads parses, and
    it is the old time when [text] does not parse and no later line
    does.  Such a line inside the block of a record (after the
    header, before the next line shorter than 2 bytes) is used up by
    the address loop and has no effect. *)
Theorem generated_line_read_by_outer_loop
    (text t0 : string) (rest : list string)
    (db : gmap HardwareAddr Entry) (g : option Time) :
  generatedField text = Some t0 ->
  let g1 := match time_Parse generatedLayout t0 with
            | Some t => Some t
            | None => g
            end in
  scanLoop time_Parse (text :: rest) db g = scanLoop time_Parse rest db g1
  /\ (forall head bt name pre,
        classify head = Header bt name ->
        Forall (fun line => (2 <= len line)%nat) pre ->
        scanLoop time_Parse (head :: pre ++ text :: rest) db g
        = scanLoop time_Parse (head :: pre ++ rest) db g)
  /\ (scanLoop time_Parse (text :: rest) db g).1.1
     = specGenerated time_Parse (outerLines false rest) g1
  /\ (Forall (fun line => generatedField line = None) (outerLines false rest) ->
      (scanLoop time_Parse (text :: rest) db g).1.1 = g1)
  /\ (scanLoop time_Parse (text :: rest) db g).2 = (scanLoop time_Parse rest db g).2
  /\ (scanLoop time_Parse (text :: rest) db g).1.2
     = (scanLoop time_Parse rest db g).1.2
  /\ (forall lines db0 g0,
        (scanLoop time_Parse lines db0 g0).1.1
        = specGenerated time_Parse (outerLines false lines) g0).
Proof.
  intros Hgen g1.
  assert (Heq : scanLoop time_Parse (text :: rest) db g
                = scanLoop time_Parse rest db g1).
  { apply scanLoop_generated. by apply generatedField_classify. }
  split; [exact Heq|]. split.
  { intros head bt name pre Hhead Hpre. by eapply generated_line_in_block. }
  split; [by rewrite Heq, scanLoop_time|]. split.
  { intros Hnone. rewrite Heq, scanLoop_time.
    generalize g1. induction Hnone as [|line ls Hline _ IH]; intros g2; [done|].
    simpl. by rewrite Hline. }
  rewrite Heq. split; [apply scanLoop_time_irrelevant|].
  split; [apply scanLoop_time_irrelevant|]. apply scanLoop_time.
Qed.

(** The scan of a stream that fails has read a sequence of records
    and other lines and then the header that [ParseMac] rejects, and
    its map holds under every prefix the last of these records. *)
Lemma scanLoop_failure_items lines db g g' err m :
  scanLoop time_Parse lines db g = (g', Some err, m) ->
  exists items bad rest,
    lines = (concat (map itemLines items) ++ bad :: rest)%list
    /\ forallb validItem items = true
    /\ classify bad = Failed err
    /\ forall hw, m !! hw = match lastRecord hw items with
                            | Some e => Some e
                            | None => db !! hw
                            end.
Proof.
  revert lines db g g' err m.
  apply (scanLoop_run_ind time_Parse
    (fun lines db g => forall g' err m,
       scanLoop time_Parse lines db g = (g', Some err, m) ->
       exists items bad rest,
         lines = (concat (map itemLines items) ++ bad :: rest)%list
         /\ forallb validItem items = true
         /\ classify bad = Failed err
         /\ forall hw, m !! hw = match lastRecord hw items with
                                 | Some e => Some e
                                 | None => db !! hw
                                 end)).
  - intros db g g' err m. rewrite scanLoop_nil. intros ?; simplify_eq.
  - intros text rest db g Hc IH g' err m. rewrite scanLoop_skipped by done.
    intros (items & bad & rest' & -> & Hv & Hb & Hm)%IH.
    exists (Other text :: items), bad, rest'. split; [done|].
    split; [simpl; by rewrite Hc|]. split; [done|].
    intros hw. rewrite Hm. simpl. by destruct (lastRecord hw items).
  - intros text t0 rest db g Hc IH g' err m.
    rewrite (scanLoop_generated _ _ _ _ _ _ Hc).
    assert (scanLoop time_Parse rest db
              (match time_Parse generatedLayout t0 with
               | Some t => Some t
               | None => g
               end) = (g', Some err, m) ->
            exists items bad rest',
              rest = (concat (map itemLines items) ++ bad :: rest')%list
              /\ forallb validItem items = true
              /\ classify bad = Failed err
              /\ forall hw, m !! hw = match lastRecord hw items with
                                      | Some e => Some e
                                      | None => db !! hw
                                      end) as IH' by apply IH.
    destruct (time_Parse generatedLayout t0);
      intros (items & bad & rest' & -> & Hv & Hb & Hm)%IH';
      (exists (Other text :: items), bad, rest'; split; [done|];
       split; [simpl; by rewrite Hc|]; split; [done|];
       intros hw; rewrite Hm; simpl; by destruct (lastRecord hw items)).
  - intros text e rest db g Hc g' err m. rewrite (scanLoop_failed _ _ _ _ _ _ Hc).
    intros ?; simplify_eq. by exists [], text, rest.
  - intros text bt name rest db g Hc IH g' err m.
    rewrite (scanLoop_header _ _ _ _ _ _ _ Hc).
    destruct (collectAddress_cases rest [])
      as [(body & short & Hl & Hb & Hs & Ha)|(Hr & _ & _)].
    + intros (items & bad & rest' & Hrest & Hv & Hbad & Hm)%IH.
      exists (Rec text body short :: items), bad, rest'. split.
      { rewrite Hl at 1. rewrite Hrest. simpl. by rewrite <- !app_assoc. }
      split.
      { cbn [forallb validItem]. rewrite Hc, Hv. apply Nat.ltb_lt in Hs.
        rewrite Hs, !andb_true_r. change (true && ?b) with b.
        apply forallb_forall.
        rewrite Forall_forall in Hb. intros line Hin.
        apply Nat.leb_le, Hb. by apply list_elem_of_In. }
      split; [done|].
      intros hw. rewrite Hm. simpl. destruct (lastRecord hw items); [done|].
      rewrite Hc, Ha. simpl.
      destruct (finishEntry_flags bt name (addressLines body)) as (_ & Hlo & Hmu).
      { by eapply classify_Header_inRange. }
      destruct (decide (bt = hw)) as [->|Hne].
      * rewrite lookup_insert_eq. f_equal. unfold finishEntry in *. simpl in *.
        by rewrite Hlo, Hmu.
      * by rewrite lookup_insert_ne.
    + rewrite Hr, scanLoop_nil. intros ?; simplify_eq.
Qed.

(** C9.  When the scan fails, [OpenStatic] and [Open] still return a
    database together with the error, and the database holds every
    record that was read before the header that [ParseMac] rejected:
    the stream is a sequence of records and other lines, then that
    header, then lines that are not read; and for every prefix
    [LookUp] of either database finds the last record of the sequence
    with that prefix, with the manufacturer, the address lines, the
    country and the flags of the record, and [ErrNotFound] when the
    sequence has no record with the prefix.  The map of the database
    is the map that the scan built while it read the lines before the
    rejected header. *)
Theorem Open_keeps_partial_result
    (lines : list string) (h : heap)
    (g : option Time) (err : error) (m : gmap HardwareAddr Entry) :
  scanLoop time_Parse lines ∅ None = (g, Some err, m) ->
  (exists pre bad rest,
      lines = (pre ++ bad :: rest)%list
      /\ classify bad = Failed err
      /\ scanLoop time_Parse pre ∅ None = (g, None, m))
  /\ (exists db h',
        OpenStatic time_Parse lines h = Some (db, Some err, h')
        /\ h' !! static_ouiDB db = Some m
        /\ forall hw,
             static_LookUp db hw h'
             = match m !! hw with Some e => Ok e | None => Err ErrNotFound end)
  /\ (exists db h',
        Open time_Parse lines h = Some (db, Some err, h')
        /\ h' !! ouiDB db = Some m
        /\ forall hw,
             LookUp db hw h'
             = Some (match m !! hw with Some e => Ok e | None => Err ErrNotFound end,
                     db))
  /\ (exists items bad rest sdb db h',
        lines = (concat (map itemLines items) ++ bad :: rest)%list
        /\ forallb validItem items = true
        /\ classify bad = Failed err
        /\ OpenStatic time_Parse lines h = Some (sdb, Some err, h')
        /\ Open time_Parse lines h = Some (db, Some err, h')
        /\ (forall hw,
              static_LookUp sdb hw h'
              = match lastRecord hw items with
                | Some e => Ok e
                | None => Err ErrNotFound
                end)
        /\ (forall hw,
              LookUp db hw h'
              = Some (match lastRecord hw items with
                      | Some e => Ok e
                      | None => Err ErrNotFound
                      end, db))
        /\ (forall it bt e,
              In it items -> recordOf it = Some (bt, e) ->
              exists e', lastRecord bt items = Some e'
                         /\ LookUp db bt h' = Some (Ok e', db)
                         /\ static_LookUp sdb bt h' = Ok e')).
Proof.
  intros Hscan. split; [by eapply scanLoop_failure_prefix|]. split.
  { eexists _, _. rewrite OpenStatic_eq, Hscan. simpl. split; [done|].
    split; [by rewrite lookup_insert_eq|].
    intros hw. unfold static_LookUp, lookupEntry. simpl.
    rewrite lookup_insert_eq. simpl. by destruct (m !! hw). }
  split.
  { eexists _, _. rewrite Open_eq, Hscan. simpl. split; [done|].
    split; [by rewrite lookup_insert_eq|].
    intros hw. rewrite LookUp_eq by done. unfold lookupEntry. simpl.
    rewrite lookup_insert_eq. simpl. by destruct (m !! hw). }
  destruct (scanLoop_failure_items _ _ _ _ _ _ Hscan)
    as (items & bad & rest & Hl & Hv & Hb & Hm).
  assert (Hs : forall hw,
             static_LookUp (mkStatic (make h).1 (default zeroTime g)) hw
               (<[(make h).1 := m]> h)
             = match lastRecord hw items with
               | Some e => Ok e
               | None => Err ErrNotFound
               end).
  { intros hw. unfold static_LookUp, lookupEntry. simpl.
    rewrite lookup_insert_eq. simpl. rewrite Hm, lookup_empty.
    by destruct (lastRecord hw items). }
  assert (Hd : forall hw,
             LookUp (mkUpdateable (make h).1 (default zeroTime g) unlocked) hw
               (<[(make h).1 := m]> h)
             = Some (match lastRecord hw items with
                     | Some e => Ok e
                     | None => Err ErrNotFound
                     end, mkUpdateable (make h).1 (default zeroTime g) unlocked)).
  { intros hw. rewrite LookUp_eq by done. unfold lookupEntry. simpl.
    rewrite lookup_insert_eq. simpl. rewrite Hm, lookup_empty.
    by destruct (lastRecord hw items). }
  exists items, bad, rest. eexists _, _, _.
  rewrite OpenStatic_eq, Open_eq, Hscan. simpl.
  split; [done|]. split; [done|]. split; [done|]. split; [done|].
  split; [done|]. split; [exact Hs|]. split; [exact Hd|].
  intros it bt e Hin Hrec.
  assert (Hlast : is_Some (lastRecord bt items)).
  { clear -Hin Hrec. induction items as [|it' items IH]; [done|]. simpl.
    destruct (lastRecord bt items) as [e'|]; [eauto|].
    destruct Hin as [->|Hin]; [|by destruct (IH Hin)].
    rewrite Hrec. rewrite decide_True by done. eauto. }
  destruct Hlast as [e' He']. exists e'. split; [done|].
  by rewrite Hd, Hs, He'.
Qed.

End GeneratedTimeAndPartialResult.

(** ** The entry behind the pointer *)

Lemma entryOf_arrays mem mem' e :
  arrays mem' = arrays mem -> entryOf mem' e = entryOf mem e.
Proof. intros H. unfold entryOf, elements. by rewrite H. Qed.

Lemma observe_eq m hw mem :
  observe m hw mem =
  Some (match m !! hw with
        | None => Err ErrNotFound
        | Some e => Ok (entryOf mem e)
        end).
Proof.
  unfold observe, LookUp_mem. destruct (m !! hw) as [e|]; [|done].
  simpl. rewrite lookup_insert_eq. simpl. f_equal.
Qed.

(** The memory model agrees with the lookups of the databases: what a
    caller reads through the pointer is the entry that [LookUp]
    returns on the map of the entries by value. *)
Lemma LookUp_mem_refines m hw mem l t h :
  h !! l = Some (entryOf mem <$> m) ->
  observe m hw mem = Some (static_LookUp (mkStatic l t) hw h).
Proof.
  intros Hh. rewrite observe_eq. unfold static_LookUp, lookupEntry. simpl.
  rewrite Hh. simpl. rewrite lookup_fmap. by destruct (m !! hw).
Qed.

Lemma assign_spec p a mem e :
  cells mem !! p = Some e ->
  assign p a mem = Some (mkMemory (arrays mem) (<[p := assignField a e]> (cells mem))).
Proof. intros H. unfold assign. by rewrite H. Qed.

Lemma assignAll_spec p l mem e :
  cells mem !! p = Some e ->
  exists mem' e',
    assignAll p l mem = Some mem'
    /\ arrays mem' = arrays mem
    /\ cells mem' = <[p := e']> (cells mem).
Proof.
  revert mem e. induction l as [|a l IH]; intros mem e He; simpl.
  - exists mem, e. repeat split. by rewrite insert_id.
  - rewrite (assign_spec _ _ _ _ He). simpl.
    destruct (IH (mkMemory (arrays mem) (<[p:=assignField a e]> (cells mem)))
                 (assignField a e)) as (mem' & e' & Hrun & Harr & Hcells).
    { simpl. by rewrite lookup_insert_eq. }
    exists mem', e'. simpl in *. repeat split; [done..|].
    by rewrite Hcells, insert_insert_eq.
Qed.

(** C10.  [LookUp] returns a pointer to a new copy of the struct
    stored in the map, never a pointer into the map: the cell is new,
    and whatever the caller assigns to the fields of the entry
    ([Manufacturer], [Address], [Prefix], [Country], [Local],
    [Multicast]), any number of times, no later lookup changes.  The
    copy is shallow, and stores into the elements of [Address] are
    not among these assignments. *)
Theorem LookUp_result_is_a_copy
    (m : gmap HardwareAddr EntryM) (hw : HardwareAddr)
    (mem mem1 : memory) (p : loc) (l : list assignment) :
  LookUp_mem m hw mem = (Ok p, mem1) ->
  cells mem !! p = None
  /\ exists mem2,
       assignAll p l mem1 = Some mem2
       /\ arrays mem2 = arrays mem
       /\ (forall q, q <> p -> cells mem2 !! q = cells mem !! q)
       /\ (forall hw', observe m hw' mem2 = observe m hw' mem).
Proof.
  unfold LookUp_mem. destruct (m !! hw) as [e|] eqn:Hm; [|done].
  intros ?; simplify_eq.
  assert (Hfresh : cells mem !! fresh (dom (cells mem)) = None)
    by apply not_elem_of_dom, is_fresh.
  split; [done|].
  destruct (assignAll_spec (fresh (dom (cells mem))) l
              (mkMemory (arrays mem) (<[fresh (dom (cells mem)) := e]> (cells mem))) e)
    as (mem2 & e' & Hrun & Harr & Hcells).
  { simpl. by rewrite lookup_insert_eq. }
  simpl in *. exists mem2. repeat split; [done..| |].
  - intros q Hq. rewrite Hcells, insert_insert_eq. by rewrite lookup_insert_ne.
  - intros hw'. rewrite !observe_eq. destruct (m !! hw'); [|done].
    by rewrite (entryOf_arrays mem mem2).
Qed.

(** ** The theorems on the sample streams *)

Lemma pair_eta {A B C} (x : A * B * C) : x = (x.1.1, x.1.2, x.2).
Proof. by destruct x as [[? ?] ?]. Qed.

Lemma Update_failure_keeps_database_witness :
  let err := ErrInvalidMac "Unable to find at least 3 address elements" "00-60:96" in
  let h1 := <[(make sampleHeap).1 := (scanLoop timeParse brokenDb ∅ None).2]> sampleHeap in
  Update timeParse sampleOpened brokenDb sampleHeap = Some (Some err, sampleOpened, h1)
  /\ h1 !! ouiDB sampleOpened = sampleHeap !! ouiDB sampleOpened
  /\ (forall hw, LookUp sampleOpened hw h1 = LookUp sampleOpened hw sampleHeap)
  /\ (forall hw e, lookupEntry (ouiDB sampleOpened) hw sampleHeap = Some e ->
                   lookupEntry (ouiDB sampleOpened) hw h1 = Some e).
Proof.
  intros err h1.
  apply (Update_failure_keeps_database timeParse sampleOpened brokenDb sampleHeap h1
           None err).
  - unfold sampleHeap. simpl. rewrite lookup_insert_eq. eauto.
  - rewrite scanOUI_make. unfold h1, err.
    rewrite (pair_eta (scanLoop timeParse brokenDb ∅ None)) at 1 2.
    assert ((scanLoop timeParse brokenDb ∅ None).1
            = (None, Some (ErrInvalidMac "Unable to find at least 3 address elements" "00-60:96")))
      as Hr by (vm_compute; reflexivity).
    rewrite Hr. reflexivity.
Defined.

Lemma collectAddress_skips_untabbed_witness :
  let head := "00-60-93" +:+ tabbed "VARIAN" in
  let text := "006093     (base 16)" in
  let pre := [tabbed "3100 Hansen Way"] in
  let rest := ["02-60-94" +:+ tabbed "IBM"] in
  collectAddress (pre ++ "" :: rest) [] = (([] ++ addressLines pre)%list, rest)
  /\ collectAddress pre [] = (([] ++ addressLines pre)%list, [])
  /\ collectAddress (text :: rest) [] = collectAddress rest []
  /\ scanLoop timeParse (head :: pre ++ text :: rest) ∅ None
     = scanLoop timeParse (head :: pre ++ rest) ∅ None.
Proof.
  apply (collectAddress_skips_untabbed timeParse _ _ _ _ _ _ _ _
           (0, 96, 147) "VARIAN").
  - vm_compute. reflexivity.
  - repeat constructor.
  - simpl. lia.
  - simpl. lia.
  - reflexivity.
Defined.

Lemma ParseMac_any_separator_witness :
  ParseMac "D0-DF-9A" = Ok (208, 223, 154)
  /\ ParseMac "D0:DF:9A" = Ok (208, 223, 154)
  /\ ParseMac "D0DF9A" = Ok (208, 223, 154)
  /\ ParseMac "D0-DF-9A-D8-44-4B" = Ok (208, 223, 154)
  /\ ParseMac "D0:DF:9A:D8:44:4B" = Ok (208, 223, 154)
  /\ ParseMac "D0DF9AD8444B" = Ok (208, 223, 154).
Proof.
  destruct (ParseMac_any_separator "D" "0" "D" "F" "9" "A" "D8-44-4B")
    as (H1 & _ & H3 & H4 & _ & _); try reflexivity.
  destruct (ParseMac_any_separator "D" "0" "D" "F" "9" "A" "D8:44:4B")
    as (_ & H2 & _ & _ & H5 & _); try reflexivity.
  destruct (ParseMac_any_separator "D" "0" "D" "F" "9" "A" "D8444B")
    as (_ & _ & _ & _ & _ & H6 & _); try reflexivity.
  repeat split; assumption.
Defined.

Lemma LookUp_absent_is_ErrNotFound_witness :
  LookUp sampleOpened (0, 96, 149) sampleHeap = Some (Err ErrNotFound, sampleOpened)
  /\ static_LookUp (mkStatic 1%positive zeroTime) (0, 96, 149) sampleHeap
     = Err ErrNotFound
  /\ Query sampleOpened "00-60-95-01-02-03" sampleHeap
     = Some (Err ErrNotFound, sampleOpened)
  /\ (exists reason,
        Query sampleOpened "00-60" sampleHeap
        = Some (Err (ErrInvalidMac reason "00-60"), sampleOpened)).
Proof.
  destruct (LookUp_absent_is_ErrNotFound sampleOpened (mkStatic 1%positive zeroTime)
              (0, 96, 149) sampleHeap)
    as (Hl & Hs & Hq & Hbad).
  - reflexivity.
  - vm_compute. reflexivity.
  - vm_compute. reflexivity.
  - split; [exact Hl|]. split; [exact Hs|]. split.
    + apply (Hq "00-60-95-01-02-03"). vm_compute. reflexivity.
    + eexists. apply (Hbad "00-60"). vm_compute. reflexivity.
Defined.

Lemma scanner_pattern_tokens_witness :
  firstToken "00-60-93/24   (hex)" "00-60-93" "24"
  /\ classify ("00-60-93/24   (hex)" +:+ tabbed (tabbed "VARIAN"))
     = Header (0, 96, 147) "VARIAN".
Proof.
  pose proof (scanner_pattern_tokens
                ("00-60-93/24   (hex)" +:+ tabbed (tabbed "VARIAN"))
                eq_refl eq_refl) as H.
  exact H.
Defined.

Lemma generated_line_read_by_outer_loop_witness :
  let later := "Generated: Wed, 21 Jan 2015 07:01:36 -0500" in
  generatedField sampleGenerated = Some "Tue, 20 Jan 2015 07:01:36 -0500"
  /\ (scanLoop timeParse [sampleGenerated] ∅ None).1.1
     = Some (mkTime 2015 1 20 7 1 36 0 (-18000))
  /\ (scanLoop timeParse [sampleGenerated; "Generated: never"] ∅ None).1.1
     = Some (mkTime 2015 1 20 7 1 36 0 (-18000))
  /\ (scanLoop timeParse [sampleGenerated; later] ∅ None).1.1
     = Some (mkTime 2015 1 21 7 1 36 0 (-18000))
  /\ scanLoop timeParse [sampleGenerated; "Generated: never"] ∅ None
     = scanLoop timeParse ["Generated: never"] ∅
         (Some (mkTime 2015 1 20 7 1 36 0 (-18000))).
Proof.
  intros later.
  destruct (generated_line_read_by_outer_loop timeParse sampleGenerated
              "Tue, 20 Jan 2015 07:01:36 -0500" [] ∅ None eq_refl)
    as (_ & _ & _ & H1 & _).
  destruct (generated_line_read_by_outer_loop timeParse sampleGenerated
              "Tue, 20 Jan 2015 07:01:36 -0500" ["Generated: never"] ∅ None eq_refl)
    as (H0 & _ & H2 & _).
  destruct (generated_line_read_by_outer_loop timeParse sampleGenerated
              "Tue, 20 Jan 2015 07:01:36 -0500" [later] ∅ None eq_refl)
    as (_ & _ & H3 & _).
  split; [reflexivity|]. split; [exact (H1 ltac:(constructor))|].
  split; [exact H2|]. split; [exact H3|exact H0].
Defined.

Lemma flags_from_first_byte_witness :
  let m := (scanLoop timeParse sampleDb ∅ None).2 in
  let hw : HardwareAddr := (2, 96, 148) in
  let e := finishEntry hw "IBM CORP." [] in
  m !! hw = Some e
  /\ Prefix e = hw
  /\ Local e = Z.testbit (hwGet hw 0) 1
  /\ Multicast e = Z.testbit (hwGet hw 0) 0.
Proof.
  intros m hw e.
  assert (Hm : m !! hw = Some e) by (vm_compute; reflexivity).
  split; [exact Hm|].
  destruct (flags_from_first_byte timeParse sampleDb
              (scanLoop timeParse sampleDb ∅ None).1.1
              (scanLoop timeParse sampleDb ∅ None).1.2 m hw e)
    as (Hp & Hl & Hmc & _).
  - apply pair_eta.
  - exact Hm.
  - split; [exact Hp|]. split; [exact Hl|exact Hmc].
Defined.

Lemma Open_keeps_partial_result_witness :
  exists db err h',
    Open timeParse brokenAfterTwo ∅ = Some (db, Some err, h')
    /\ err = ErrInvalidMac "Unable to find at least 3 address elements" "00-60:96"
    /\ LookUp db (0, 96, 147) h'
       = Some (Ok {| Manufacturer := "VARIAN";
                     Address := ["3100 Hansen Way"; "UNITED STATES"];
                     Prefix := (0, 96, 147);
                     Country := "UNITED STATES";
                     Local := false;
                     Multicast := false |}, db)
    /\ LookUp db (0, 96, 149) h'
       = Some (Ok {| Manufacturer := "ACCU-TIME";
                     Address := ["HARTFORD"];
                     Prefix := (0, 96, 149);
                     Country := "HARTFORD";
                     Local := false;
                     Multicast := false |}, db)
    /\ LookUp db (0, 96, 151) h' = Some (Err ErrNotFound, db).
Proof.
  destruct (Open_keeps_partial_result timeParse brokenAfterTwo ∅
              None (ErrInvalidMac "Unable to find at least 3 address elements" "00-60:96")
              (scanLoop timeParse brokenAfterTwo ∅ None).2)
    as (_ & _ & (db & h' & Hopen & _ & Hlook) & _).
  - rewrite (pair_eta (scanLoop timeParse brokenAfterTwo ∅ None)) at 1.
    assert ((scanLoop timeParse brokenAfterTwo ∅ None).1
            = (None, Some (ErrInvalidMac "Unable to find at least 3 address elements"
                             "00-60:96")))
      as Hr by (vm_compute; reflexivity).
    rewrite Hr. reflexivity.
  - exists db, (ErrInvalidMac "Unable to find at least 3 address elements" "00-60:96"), h'.
    split; [exact Hopen|]. split; [reflexivity|].
    rewrite !Hlook.
    assert (H1 : (scanLoop timeParse brokenAfterTwo ∅ None).2 !! ((0, 96, 147) : HardwareAddr)
                 = Some {| Manufacturer := "VARIAN";
                           Address := ["3100 Hansen Way"; "UNITED STATES"];
                           Prefix := (0, 96, 147);
                           Country := "UNITED STATES";
                           Local := false;
                           Multicast := false |}) by (vm_compute; reflexivity).
    assert (H2 : (scanLoop timeParse brokenAfterTwo ∅ None).2 !! ((0, 96, 149) : HardwareAddr)
                 = Some {| Manufacturer := "ACCU-TIME";
                           Address := ["HARTFORD"];
                           Prefix := (0, 96, 149);
                           Country := "HARTFORD";
                           Local := false;
                           Multicast := false |}) by (vm_compute; reflexivity).
    assert (H3 : (scanLoop timeParse brokenAfterTwo ∅ None).2 !! ((0, 96, 151) : HardwareAddr)
                 = None) by (vm_compute; reflexivity).
    rewrite H1, H2, H3. repeat split; reflexivity.
Defined.

Lemma LookUp_result_is_a_copy_witness :
  exists mem2,
    assignAll 1%positive [SetManufacturer "changed"; SetAddress None; SetLocal true]
      (LookUp_mem sampleMap (0, 96, 147) sampleMemory).2 = Some mem2
    /\ forall hw', observe sampleMap hw' mem2 = observe sampleMap hw' sampleMemory.
Proof.
  destruct (LookUp_result_is_a_copy sampleMap (0, 96, 147) sampleMemory
              (LookUp_mem sampleMap (0, 96, 147) sampleMemory).2 1%positive
              [SetManufacturer "changed"; SetAddress None; SetLocal true])
    as (_ & mem2 & Hrun & _ & _ & Hobs).
  - vm_compute. reflexivity.
  - exists mem2. split; assumption.
Defined.

(** ** Where the code departs from the wording of the specification *)

(** C2, as worded: a record header that follows the address lines
    without a blank line would stay with the scanner and start a new
    record.  The code uses the line up; the record is not stored. *)
Lemma collectAddress_header_counterexample :
  let header2 := "00-00-02" +:+ tabbed "B" in
  let lines := ["00-00-01" +:+ tabbed "A"; tabbed "Street"; header2] in
  classify header2 = Header (0, 0, 2) "B"
  /\ collectAddress_spec [tabbed "Street"; header2] [] = (["Street"], [header2])
  /\ collectAddress [tabbed "Street"; header2] [] = (["Street"], [])
  /\ collectAddress [tabbed "Street"; header2] []
     <> collectAddress_spec [tabbed "Street"; header2] []
  /\ (scanLoop timeParse lines ∅ None).2 !! ((0, 0, 2) : HardwareAddr) = None.
Proof. vm_compute. repeat split; try reflexivity. discriminate. Qed.

(** C6, as worded: a token of two groups would be handed to [ParseMac]
    (which rejects it), and a field without hexadecimal groups would be
    skipped.  The code skips the first line and fails on the second. *)
Lemma scanner_pattern_counterexample :
  specFind "00-01" = true
  /\ isErr (ParseMac "00-01") = true
  /\ FindAllStringSubmatch "00-01" = None
  /\ scanLoop timeParse ["00-01" +:+ tabbed "TWO GROUPS"] ∅ None = (None, None, ∅)
  /\ specFind "zz-zz-zz" = false
  /\ FindAllStringSubmatch "zz-zz-zz" = Some ("zz-zz-zz", "")
  /\ (scanLoop timeParse ["zz-zz-zz" +:+ tabbed "NOT HEX"] ∅ None).1.2
     = Some (ErrInvalidMac
               "Address element 1 (zz) cannot be parsed as hex value: expected integer"
               "zz-zz-zz").
Proof. vm_compute. repeat split; reflexivity. Qed.

(** C7, as worded: of the lines of the stream whose timestamp parses,
    the last one would win.  A line inside the block of a record is
    used up by the address loop, and the earlier time stays. *)
Lemma generated_last_wins_counterexample :
  let later := "Generated: Wed, 21 Jan 2015 07:01:36 -0500" in
  let lines := [sampleGenerated; "00-60-93" +:+ tabbed "VARIAN"; later] in
  generatedField later = Some "Wed, 21 Jan 2015 07:01:36 -0500"
  /\ timeParse generatedLayout "Wed, 21 Jan 2015 07:01:36 -0500"
     = Some (mkTime 2015 1 21 7 1 36 0 (-18000))
  /\ specGenerated timeParse lines None = Some (mkTime 2015 1 21 7 1 36 0 (-18000))
  /\ (scanLoop timeParse lines ∅ None).1
     = (Some (mkTime 2015 1 20 7 1 36 0 (-18000)), None)
  /\ (scanLoop timeParse lines ∅ None).1.1 <> specGenerated timeParse lines None.
Proof. vm_compute. repeat split; try reflexivity. discriminate. Qed.

(** C10, as worded: no change made through the entry of a lookup would
    show in a later lookup.  A store into an element of [Address]
    does: the copy shares the backing array with the stored entry. *)
Lemma LookUp_result_shares_address_counterexample :
  exists p mem1 mem2,
    LookUp_mem sampleMap (0, 96, 147) sampleMemory = (Ok p, mem1)
    /\ mutate p (StoreElem 0 "changed") mem1 = Some mem2
    /\ observe sampleMap (0, 96, 147) mem2 <> observe sampleMap (0, 96, 147) sampleMemory
    /\ Address <$> (observe sampleMap (0, 96, 147) sampleMemory
                    ≫= (fun r => match r with Ok e => Some e | Err _ => None end))
       = Some ["3100 Hansen Way"; "UNITED STATES"]
    /\ Address <$> (observe sampleMap (0, 96, 147) mem2
                    ≫= (fun r => match r with Ok e => Some e | Err _ => None end))
       = Some ["changed"; "UNITED STATES"].
Proof.
  eexists _, _, _. split; [vm_compute; reflexivity|].
  split; [vm_compute; reflexivity|].
  split; [vm_compute; discriminate|].
  split; vm_compute; reflexivity.
Qed.

(** * Further properties of the package *)

(** ** The printed form of an address *)

Lemma hexDigit_cases d :
  0 <= d < 16 ->
  isHex (hexDigit d) = true /\ hexVal (hexDigit d) = Some d
  /\ containsByte (String dquote " ") (hexDigit d) = false
  /\ Ascii.eqb lf (hexDigit d) = false.
Proof.
  intros H.
  assert (d = 0 \/ d = 1 \/ d = 2 \/ d = 3 \/ d = 4 \/ d = 5 \/ d = 6 \/ d = 7
          \/ d = 8 \/ d = 9 \/ d = 10 \/ d = 11 \/ d = 12 \/ d = 13 \/ d = 14
          \/ d = 15) as Hd by lia.
  repeat (destruct Hd as [->|Hd]); try subst d; vm_compute; auto.
Qed.

Lemma fmt02x_byte b :
  0 <= b < 256 ->
  exists a1 a2, fmt02x b = pair2 a1 a2 /\ isHex a1 = true /\ isHex a2 = true
    /\ hexByte a1 a2 = b
    /\ containsByte (String dquote " ") a1 = false
    /\ containsByte (String dquote " ") a2 = false
    /\ Ascii.eqb lf a1 = false /\ Ascii.eqb lf a2 = false.
Proof.
  intros Hb.
  assert (H1 : 0 <= b / 16 < 16)
    by (split; [apply Z.div_pos; lia|apply Z.div_lt_upper_bound; lia]).
  assert (H2 : 0 <= b mod 16 < 16) by (apply Z.mod_pos_bound; lia).
  destruct (hexDigit_cases _ H1) as (Hh1 & Hv1 & Hc1 & Hl1).
  destruct (hexDigit_cases _ H2) as (Hh2 & Hv2 & Hc2 & Hl2).
  exists (hexDigit (b / 16)), (hexDigit (b mod 16)).
  repeat split; try done.
  unfold hexByte. rewrite Hv1, Hv2. simpl.
  rewrite (Z.div_mod b 16) at 3 by lia. lia.
Qed.

(** The shape of a printed address: three pairs of hexadecimal digits
    with colons between them, which denote the three bytes. *)
Lemma HardwareAddr_String_shape (h : HardwareAddr) :
  inRange h ->
  exists a1 a2 b1 b2 c1 c2,
    HardwareAddr_String h
    = pair2 a1 a2 +:+ String ":" (pair2 b1 b2 +:+ String ":" (pair2 c1 c2))
    /\ h = (hexByte a1 a2, hexByte b1 b2, hexByte c1 c2)
    /\ (isHex a1 = true /\ isHex a2 = true /\ isHex b1 = true
        /\ isHex b2 = true /\ isHex c1 = true /\ isHex c2 = true)
    /\ containsByte (String dquote " ") a1 = false
    /\ containsByte (String dquote " ") c2 = false
    /\ noLf (HardwareAddr_String h) = true.
Proof.
  destruct h as [[b0 b1] b2]. intros (H0 & H1 & H2). simpl in *.
  unfold HardwareAddr_String. simpl.
  destruct (fmt02x_byte _ H0) as (a1 & a2 & -> & Ha1 & Ha2 & <- & Hq1 & _ & Hl1 & Hl2).
  destruct (fmt02x_byte _ H1) as (c1 & c2 & -> & Hc1 & Hc2 & <- & _ & _ & Hl3 & Hl4).
  destruct (fmt02x_byte _ H2) as (d1 & d2 & -> & Hd1 & Hd2 & <- & _ & Hq2 & Hl5 & Hl6).
  exists a1, a2, c1, c2, d1, d2. repeat split; try done.
  change (noLf (String a1 (String a2 (String ":" (String c1 (String c2
            (String ":" (String d1 (String d2 "")))))))) = true).
  unfold noLf. cbn [containsByte].
  rewrite Hl1, Hl2, Hl3, Hl4, Hl5, Hl6. reflexivity.
Qed.

Lemma ParseMac_String (h : HardwareAddr) :
  inRange h -> ParseMac (HardwareAddr_String h) = Ok h.
Proof.
  intros (a1 & a2 & b1 & b2 & c1 & c2 & -> & -> & (? & ? & ? & ? & ? & ?) & _)
    %HardwareAddr_String_shape.
  by destruct (ParseMac_separated ":" a1 a2 b1 b2 c1 c2 "") as [Hp _].
Qed.

(** X1.  [ParseMac] reads back what [HardwareAddr.String] prints: for
    every address [h] (three bytes), the printed form has 8 bytes,
    [ParseMac] of it is [h] with no error, and so is [ParseMac] of the
    printed form followed by further elements ([":"] and any text). *)
Theorem ParseMac_reads_back_String (h : HardwareAddr) (tail : string) :
  inRange h ->
  len (HardwareAddr_String h) = 8%nat
  /\ ParseMac (HardwareAddr_String h) = Ok h
  /\ ParseMac (HardwareAddr_String h +:+ ":" +:+ tail) = Ok h.
Proof.
  intros Hh. split; [|split].
  - destruct h as [[b0 b1] b2]. reflexivity.
  - by apply ParseMac_String.
  - apply HardwareAddr_String_shape in Hh
      as (a1 & a2 & b1 & b2 & c1 & c2 & -> & -> & (? & ? & ? & ? & ? & ?) & _).
    by destruct (ParseMac_separated ":" a1 a2 b1 b2 c1 c2 tail) as [_ Hp].
Qed.

Lemma revString_revString s acc acc' :
  revString (revString s acc) acc' = revString acc (s +:+ acc').
Proof.
  revert acc. induction s as [|c s IH]; intros acc; simpl; [done|].
  by rewrite IH, append_cons.
Qed.

Lemma TrimLeft_keep c s cutset :
  containsByte cutset c = false -> TrimLeft (String c s) cutset = String c s.
Proof. intros H. simpl. by rewrite H. Qed.

Lemma TrimLeft_drop c s cutset :
  containsByte cutset c = true -> TrimLeft (String c s) cutset = TrimLeft s cutset.
Proof. intros H. simpl. by rewrite H. Qed.

Lemma revString_snoc2 t b q acc :
  revString (t +:+ String b (String q "")) acc = String q (String b (revString t acc)).
Proof.
  revert acc. induction t as [|c t IH]; intros acc; [done|].
  rewrite append_cons. simpl. by rewrite IH.
Qed.

Lemma revString_cons_snoc s a b :
  revString (String b (revString (String a s) "")) "" = String a s +:+ String b "".
Proof. simpl. by rewrite revString_revString. Qed.

(** [Trim] removes a layer of quotes around a string that starts and
    ends with bytes outside the cutset. *)
Lemma Trim_quoted a s b :
  containsByte (String dquote " ") a = false ->
  containsByte (String dquote " ") b = false ->
  Trim (String dquote (String a s +:+ String b (String dquote "")))
       (String dquote " ")
  = String a s +:+ String b "".
Proof.
  intros Ha Hb. unfold Trim.
  rewrite TrimLeft_drop by reflexivity.
  rewrite append_cons, TrimLeft_keep by done.
  change (String a (s +:+ String b (String dquote "")))
    with (String a s +:+ String b (String dquote "")).
  rewrite revString_snoc2.
  rewrite TrimLeft_drop by reflexivity.
  rewrite TrimLeft_keep by done.
  apply revString_cons_snoc.
Qed.

(** X2.  [UnmarshalJSON] reads back what [MarshalJSON] writes: for
    every address [h] (three bytes) and whatever the receiver held
    before, the receiver holds [h] afterwards and the error is nil. *)
Theorem UnmarshalJSON_MarshalJSON (h0 h : HardwareAddr) :
  inRange h ->
  HardwareAddr_UnmarshalJSON h0 (HardwareAddr_MarshalJSON h) = (h, None).
Proof.
  intros Hh. unfold HardwareAddr_UnmarshalJSON, HardwareAddr_MarshalJSON.
  pose proof (ParseMac_String h Hh) as Hrt.
  apply HardwareAddr_String_shape in Hh
    as (a1 & a2 & b1 & b2 & c1 & c2 & E & _ & _ & Hq1 & Hq2 & _).
  rewrite E in *.
  change (pair2 a1 a2 +:+ String ":" (pair2 b1 b2 +:+ String ":" (pair2 c1 c2)))
    with (String a1 (String a2 (String ":" (pair2 b1 b2 +:+ String ":" (String c1 "")))) +:+ String c2 "") in *.
  change ((String a1 (String a2 (String ":" (pair2 b1 b2 +:+ String ":" (String c1 "")))) +:+ String c2 "")
          +:+ String dquote "")
    with (String a1 (String a2 (String ":" (pair2 b1 b2 +:+ String ":" (String c1 "")))) +:+ String c2 (String dquote "")).
  rewrite Trim_quoted by done. by rewrite Hrt.
Qed.

(** X3.  [UnmarshalJSON] has two outcomes only: an [ErrInvalidMac]
    error that carries the trimmed input, with the receiver left as it
    was; or no error, with the receiver set to an address of three
    bytes.  It never returns [ErrNotFound] and never stores part of an
    address. *)
Theorem UnmarshalJSON_outcome (h0 : HardwareAddr) (input : string) :
  (exists reason,
     HardwareAddr_UnmarshalJSON h0 input
     = (h0, Some (ErrInvalidMac reason (Trim input (String dquote " ")))))
  \/ (exists h,
        HardwareAddr_UnmarshalJSON h0 input = (h, None) /\ inRange h
        /\ ParseMac (Trim input (String dquote " ")) = Ok h).
Proof.
  unfold HardwareAddr_UnmarshalJSON.
  destruct (ParseMac (Trim input (String dquote " "))) as [h|e] eqn:Hp.
  - right. exists h. split; [done|]. split; [|done]. by eapply ParseMac_inRange.
  - left. apply ParseMac_error in Hp as [reason ->]. by exists reason.
Qed.

(** ** The errors of [ParseMac] *)

Lemma parseElems_first_bad mac pre p rest i hw :
  Forall (fun q => goodElem q = true) pre ->
  (i + length pre < 3)%nat ->
  (len p <> 2%nat ->
   parseElems mac i (pre ++ p :: rest) hw
   = Err (ErrInvalidMac
            ("Address element " +:+ Itoa (i + length pre + 1) +:+ " (" +:+ p
             +:+ ") is not 2 characters") mac))
  /\ (forall msg, len p = 2%nat -> Sscanf_x p = inr msg ->
      parseElems mac i (pre ++ p :: rest) hw
      = Err (ErrInvalidMac
               ("Address element " +:+ Itoa (i + length pre + 1) +:+ " (" +:+ p
                +:+ ") cannot be parsed as hex value: " +:+ msg) mac)).
Proof.
  intros Hpre. revert i hw.
  induction Hpre as [|q pre Hq _ IH]; intros i hw Hi.
  - simpl in Hi. rewrite Nat.add_0_r. cbn [app parseElems].
    assert ((3 <=? i)%nat = false) as -> by (apply Nat.leb_gt; lia).
    split.
    + intros Hp. apply Nat.eqb_neq in Hp. by rewrite Hp.
    + intros msg Hp Hm. apply Nat.eqb_eq in Hp. by rewrite Hp, Hm.
  - simpl in Hi. cbn [app parseElems].
    assert ((3 <=? i)%nat = false) as -> by (apply Nat.leb_gt; lia).
    unfold goodElem in Hq. apply andb_true_iff in Hq as [Hq Hv].
    unfold len in *. rewrite Hq. destruct (Sscanf_x q) as [v|] eqn:Hs; [|done].
    cbn [negb].
    replace (i + length (q :: pre) + 1)%nat with (S i + length pre + 1)%nat
      by (simpl; lia).
    apply IH. lia.
Qed.

(** X4.  The error of [ParseMac] names the first element it rejects:
    when the elements before [p] are accepted and [p] is among the
    first three, a [p] that is not 2 bytes long gives the reason
    "Address element i (p) is not 2 characters", and a [p] of 2 bytes
    on which [Sscanf] fails gives "Address element i (p) cannot be
    parsed as hex value: " and the text of that failure, with [i] the
    position of [p] counted from 1; the error carries the whole
    input. *)
Theorem ParseMac_names_failing_element (mac p : string) (pre rest : list string) :
  (6 <= len mac)%nat ->
  macFields mac = (pre ++ p :: rest)%list ->
  (3 <= length (pre ++ p :: rest))%nat ->
  (length pre < 3)%nat ->
  Forall (fun q => goodElem q = true) pre ->
  (len p <> 2%nat ->
   ParseMac mac
   = Err (ErrInvalidMac
            ("Address element " +:+ Itoa (length pre + 1) +:+ " (" +:+ p
             +:+ ") is not 2 characters") mac))
  /\ (forall msg, len p = 2%nat -> Sscanf_x p = inr msg ->
      ParseMac mac
      = Err (ErrInvalidMac
               ("Address element " +:+ Itoa (length pre + 1) +:+ " (" +:+ p
                +:+ ") cannot be parsed as hex value: " +:+ msg) mac)).
Proof.
  intros Hlen Hf Hthree Hpre Hgood. unfold ParseMac.
  apply Nat.ltb_ge in Hlen. rewrite Hlen, Hf.
  apply Nat.ltb_ge in Hthree. rewrite Hthree.
  apply (parseElems_first_bad mac pre p rest 0 hwZero Hgood). simpl. lia.
Qed.

(** ** Queries *)

(** X5.  [Query] of either database looks up the address that the
    first three elements of the text denote: for six hexadecimal
    digits, the text with dashes, with colons or with no separator,
    with or without further elements, gives what [LookUp] gives on the
    three bytes. *)
Theorem Query_any_separator
    (db : updateableDB) (sdb : staticDB) (h : heap)
    (a1 a2 b1 b2 c1 c2 : ascii) (tail : string) :
  isHex a1 = true -> isHex a2 = true -> isHex b1 = true ->
  isHex b2 = true -> isHex c1 = true -> isHex c2 = true ->
  let hw := (hexByte a1 a2, hexByte b1 b2, hexByte c1 c2) in
  let dash := pair2 a1 a2 +:+ "-" +:+ pair2 b1 b2 +:+ "-" +:+ pair2 c1 c2 in
  let colon := pair2 a1 a2 +:+ ":" +:+ pair2 b1 b2 +:+ ":" +:+ pair2 c1 c2 in
  let plain := pair2 a1 a2 +:+ pair2 b1 b2 +:+ pair2 c1 c2 in
  Query db dash h = LookUp db hw h
  /\ Query db colon h = LookUp db hw h
  /\ Query db plain h = LookUp db hw h
  /\ Query db (dash +:+ "-" +:+ tail) h = LookUp db hw h
  /\ Query db (colon +:+ ":" +:+ tail) h = LookUp db hw h
  /\ Query db (plain +:+ tail) h = LookUp db hw h
  /\ static_Query sdb dash h = static_LookUp sdb hw h
  /\ static_Query sdb colon h = static_LookUp sdb hw h
  /\ static_Query sdb plain h = static_LookUp sdb hw h
  /\ static_Query sdb (dash +:+ "-" +:+ tail) h = static_LookUp sdb hw h
  /\ static_Query sdb (colon +:+ ":" +:+ tail) h = static_LookUp sdb hw h
  /\ static_Query sdb (plain +:+ tail) h = static_LookUp sdb hw h.
Proof.
  intros Ha1 Ha2 Hb1 Hb2 Hc1 Hc2 hw dash colon plain.
  destruct (ParseMac_separated "-" a1 a2 b1 b2 c1 c2 tail) as [Hd Hdt]; try done.
  destruct (ParseMac_separated ":" a1 a2 b1 b2 c1 c2 tail) as [Hc Hct]; try done.
  pose proof (ParseMac_plain a1 a2 b1 b2 c1 c2 tail Ha1 Ha2 Hb1 Hb2 Hc1 Hc2) as Hpt.
  pose proof (ParseMac_plain a1 a2 b1 b2 c1 c2 "" Ha1 Ha2 Hb1 Hb2 Hc1 Hc2) as Hp.
  assert (Hq : forall mac, ParseMac mac = Ok hw ->
             Query db mac h = LookUp db hw h
             /\ static_Query sdb mac h = static_LookUp sdb hw h).
  { intros mac Hmac. unfold Query, static_Query. by rewrite Hmac. }
  destruct (Hq _ Hd), (Hq _ Hc), (Hq _ Hp), (Hq _ Hdt), (Hq _ Hct), (Hq _ Hpt).
  repeat split; assumption.
Qed.

(** ** Single entries *)

Lemma lookupEntry_set l hw e h h' hw' :
  set l hw e h = Some h' ->
  lookupEntry l hw' h'
  = if decide (hw' = hw) then Some e else lookupEntry l hw' h.
Proof.
  unfold set, lookupEntry. destruct (h !! l) as [m|] eqn:Hm; [|done]. simpl.
  intros ?; simplify_eq. rewrite lookup_insert_eq. simpl.
  destruct (decide (hw' = hw)) as [->|Hne].
  - by rewrite lookup_insert_eq.
  - by rewrite lookup_insert_ne.
Qed.

Lemma lookupEntry_del l hw h hw' :
  lookupEntry l hw' (del l hw h)
  = if decide (hw' = hw) then None else lookupEntry l hw' h.
Proof.
  unfold lookupEntry, del. destruct (h !! l) as [m|] eqn:Hm.
  - rewrite lookup_insert_eq. simpl.
    destruct (decide (hw' = hw)) as [->|Hne].
    + by rewrite lookup_delete_eq.
    + by rewrite lookup_delete_ne.
  - rewrite Hm. simpl. by destruct (decide (hw' = hw)).
Qed.

Lemma set_frame l hw e h h' l' :
  set l hw e h = Some h' -> l' <> l -> h' !! l' = h !! l'.
Proof.
  unfold set. destruct (h !! l); [|done]. simpl. intros ?; simplify_eq.
  intros Hne. by rewrite lookup_insert_ne.
Qed.

Lemma del_frame l hw h l' : l' <> l -> del l hw h !! l' = h !! l'.
Proof.
  intros Hne. unfold del. destruct (h !! l); [|done]. by rewrite lookup_insert_ne.
Qed.

Lemma set_allocated l hw e h : is_Some (h !! l) -> is_Some (set l hw e h).
Proof. intros [m Hm]. unfold set. rewrite Hm. simpl. eauto. Qed.

(** X6.  [UpdateEntry] on a database whose lock is free returns with
    the lock free again; afterwards [LookUp] of the address gives the
    new entry, [LookUp] of every other address gives what it gave
    before, and no other map of the program has changed. *)
Theorem UpdateEntry_then_LookUp
    (db : updateableDB) (hw : HardwareAddr) (e : Entry) (h : heap) :
  mu db = unlocked ->
  is_Some (h !! ouiDB db) ->
  exists h',
    UpdateEntry db hw e h = Some (db, h')
    /\ LookUp db hw h' = Some (Ok e, db)
    /\ (forall hw', hw' <> hw -> LookUp db hw' h' = LookUp db hw' h)
    /\ (forall l, l <> ouiDB db -> h' !! l = h !! l).
Proof.
  destruct db as [l t mx]. simpl. intros -> Hl.
  destruct (set_allocated l hw e h Hl) as [h' Hset].
  exists h'. unfold UpdateEntry. simpl. rewrite Hset. simpl.
  split; [done|]. split; [|split].
  - rewrite LookUp_eq by done. simpl.
    rewrite (lookupEntry_set _ _ _ _ _ _ Hset). by rewrite decide_True.
  - intros hw' Hne. rewrite !LookUp_eq by done. simpl.
    rewrite (lookupEntry_set _ _ _ _ _ _ Hset). by rewrite decide_False.
  - intros l' Hne. by eapply set_frame.
Qed.

(** X7.  [DeleteEntry] on a database whose lock is free returns with
    the lock free again; afterwards [LookUp] of the address gives
    [ErrNotFound], [LookUp] of every other address gives what it gave
    before, no other map has changed, and deleting an address that the
    database does not hold changes no lookup at all. *)
Theorem DeleteEntry_then_LookUp
    (db : updateableDB) (hw : HardwareAddr) (h : heap) :
  mu db = unlocked ->
  exists h',
    DeleteEntry db hw h = Some (db, h')
    /\ LookUp db hw h' = Some (Err ErrNotFound, db)
    /\ (forall hw', hw' <> hw -> LookUp db hw' h' = LookUp db hw' h)
    /\ (forall l, l <> ouiDB db -> h' !! l = h !! l)
    /\ (lookupEntry (ouiDB db) hw h = None ->
        forall hw', LookUp db hw' h' = LookUp db hw' h).
Proof.
  destruct db as [l t mx]. simpl. intros ->.
  exists (del l hw h). unfold DeleteEntry. simpl.
  split; [done|]. repeat split.
  - rewrite LookUp_eq by done. simpl. rewrite lookupEntry_del. by rewrite decide_True.
  - intros hw' Hne. rewrite !LookUp_eq by done. simpl. rewrite lookupEntry_del.
    by rewrite decide_False.
  - intros l' Hne. by apply del_frame.
  - intros Habs hw'. rewrite !LookUp_eq by done. simpl. rewrite lookupEntry_del.
    destruct (decide (hw' = hw)) as [->|]; [by rewrite Habs|done].
Qed.

(** X8.  [RawDB] hands out the map of the static database itself, not
    a copy: an entry stored into the map that [RawDB] returned is what
    [LookUp] of the database finds afterwards, the other addresses are
    as before, and an address deleted from that map is no longer
    found. *)
Theorem RawDB_is_the_map_of_the_database
    (db : staticDB) (hw : HardwareAddr) (e : Entry) (h : heap) :
  is_Some (h !! static_ouiDB db) ->
  exists h',
    set (static_RawDB db) hw e h = Some h'
    /\ static_LookUp db hw h' = Ok e
    /\ (forall hw', hw' <> hw -> static_LookUp db hw' h' = static_LookUp db hw' h)
    /\ static_LookUp db hw (del (static_RawDB db) hw h') = Err ErrNotFound.
Proof.
  destruct db as [l t]. unfold static_RawDB. simpl. intros Hl.
  destruct (set_allocated l hw e h Hl) as [h' Hset].
  exists h'. split; [done|]. unfold static_LookUp. simpl.
  split; [|split].
  - rewrite (lookupEntry_set _ _ _ _ _ _ Hset). by rewrite decide_True.
  - intros hw' Hne. rewrite (lookupEntry_set _ _ _ _ _ _ Hset).
    by rewrite decide_False.
  - rewrite lookupEntry_del. by rewrite decide_True.
Qed.

(** X9.  [newDynamic(nil)] and [newStatic(nil)] make a database of
    their own: its map is a new one (no map of the program is
    changed), every [LookUp] gives [ErrNotFound], the generation time
    is the zero time, and the lock is free.  Given a map, both use
    that very map and allocate nothing. *)
Theorem new_database_on_nil_is_empty (h : heap) :
  (exists db h',
     newDynamic None h = (db, h')
     /\ h !! ouiDB db = None
     /\ mu db = unlocked
     /\ Generated db = Some (zeroTime, db)
     /\ (forall hw, LookUp db hw h' = Some (Err ErrNotFound, db))
     /\ (forall l, l <> ouiDB db -> h' !! l = h !! l))
  /\ (exists sdb h',
        newStatic None h = (sdb, h')
        /\ h !! static_RawDB sdb = None
        /\ static_Generated sdb = zeroTime
        /\ (forall hw, static_LookUp sdb hw h' = Err ErrNotFound)
        /\ (forall l, l <> static_RawDB sdb -> h' !! l = h !! l))
  /\ (forall l, newDynamic (Some l) h = (mkUpdateable l zeroTime unlocked, h)
                /\ newStatic (Some l) h = (mkStatic l zeroTime, h)).
Proof.
  destruct (make_fresh h) as [Hfresh Hh]. split; [|split].
  - exists (mkUpdateable (make h).1 zeroTime unlocked), (make h).2.
    split; [reflexivity|]. split; [done|]. split; [done|]. split; [done|].
    split.
    + intros hw. rewrite LookUp_eq by done. unfold lookupEntry. simpl.
      rewrite lookup_insert_eq. simpl. by rewrite lookup_empty.
    + intros l Hl. simpl in *. by rewrite lookup_insert_ne.
  - exists (mkStatic (make h).1 zeroTime), (make h).2.
    split; [reflexivity|]. split; [done|]. split; [done|]. split.
    + intros hw. unfold static_LookUp, lookupEntry. simpl.
      rewrite lookup_insert_eq. simpl. by rewrite lookup_empty.
    + intros l Hl. unfold static_RawDB in *. simpl in *. by rewrite lookup_insert_ne.
  - done.
Qed.

(** ** More on the scanner *)

Section MoreScannerAndDatabase.
Variable time_Parse : string -> string -> option Time.

Lemma scanLoop_wellFormed lines db g :
  map_Forall wellFormed db ->
  map_Forall wellFormed (scanLoop time_Parse lines db g).2.
Proof.
  revert lines db g.
  apply (scanLoop_run_ind time_Parse
           (fun lines db g => map_Forall wellFormed db ->
                              map_Forall wellFormed (scanLoop time_Parse lines db g).2)).
  - done.
  - intros text rest db g Hc IH Hdb. rewrite scanLoop_skipped by done. auto.
  - intros text t0 rest db g Hc IH Hdb.
    rewrite (scanLoop_generated _ _ _ _ _ _ Hc). auto.
  - intros text e rest db g Hc Hdb. by rewrite (scanLoop_failed _ _ _ _ _ _ Hc).
  - intros text bt name rest db g Hc IH Hdb.
    rewrite (scanLoop_header _ _ _ _ _ _ _ Hc). apply IH.
    apply map_Forall_insert_2; [|done].
    split; [done|]. split; [|done]. by eapply classify_Header_inRange.
Qed.

Lemma scanLoop_keeps_keys lines db g hw :
  is_Some (db !! hw) -> is_Some ((scanLoop time_Parse lines db g).2 !! hw).
Proof.
  revert lines db g.
  apply (scanLoop_run_ind time_Parse
           (fun lines db g => is_Some (db !! hw) ->
                              is_Some ((scanLoop time_Parse lines db g).2 !! hw))).
  - done.
  - intros text rest db g Hc IH Hdb. rewrite scanLoop_skipped by done. auto.
  - intros text t0 rest db g Hc IH Hdb.
    rewrite (scanLoop_generated _ _ _ _ _ _ Hc). auto.
  - intros text e rest db g Hc Hdb. by rewrite (scanLoop_failed _ _ _ _ _ _ Hc).
  - intros text bt name rest db g Hc IH Hdb.
    rewrite (scanLoop_header _ _ _ _ _ _ _ Hc). apply IH.
    rewrite lookup_insert_is_Some. destruct (decide (bt = hw)); auto.
Qed.

(** X10.  The scanner only adds and overwrites.  When no header line
    of the stream names the address [hw], the map holds for [hw] after
    the scan what it held before; and whatever the stream is, an
    address that the map held before the scan it still holds after. *)
Theorem scanLoop_keeps_other_entries
    (lines : list string) (db : gmap HardwareAddr Entry) (g : option Time)
    (hw : HardwareAddr) :
  Forall (fun text => namesPrefix hw text = false) lines ->
  (scanLoop time_Parse lines db g).2 !! hw = db !! hw
  /\ (forall hw', is_Some (db !! hw') ->
                  is_Some ((scanLoop time_Parse lines db g).2 !! hw')).
Proof.
  intros Hall. split; [|intros hw'; apply scanLoop_keeps_keys].
  revert lines db g Hall.
  apply (scanLoop_run_ind time_Parse
           (fun lines db g =>
              Forall (fun text => namesPrefix hw text = false) lines ->
              (scanLoop time_Parse lines db g).2 !! hw = db !! hw)).
  - done.
  - intros text rest db g Hc IH Hall. rewrite scanLoop_skipped by done.
    apply IH. by inversion Hall.
  - intros text t0 rest db g Hc IH Hall.
    rewrite (scanLoop_generated _ _ _ _ _ _ Hc). apply IH. by inversion Hall.
  - intros text e rest db g Hc Hall. by rewrite (scanLoop_failed _ _ _ _ _ _ Hc).
  - intros text bt name rest db g Hc IH Hall.
    rewrite (scanLoop_header _ _ _ _ _ _ _ Hc).
    inversion Hall as [|? ? Hhead Hrest]; subst.
    unfold namesPrefix in Hhead. rewrite Hc in Hhead.
    apply bool_decide_eq_false in Hhead.
    rewrite IH.
    + by rewrite lookup_insert_ne.
    + destruct (collectAddress_split rest []) as (used & Hused & _).
      rewrite Hused in Hrest. by apply Forall_app in Hrest as [_ ?].
Qed.


(** X12.  The only error of a scan is the error of [ParseMac] on a
    header line: whenever the scanner stops with an error, that error
    is an [ErrInvalidMac] (never [ErrNotFound]), it carries the token
    of a line of the stream, and the lines before that line were
    scanned without error into the map returned. *)
Theorem scan_error_is_ErrInvalidMac
    (lines : list string) (db m : gmap HardwareAddr Entry)
    (g g' : option Time) (err : error) :
  scanLoop time_Parse lines db g = (g', Some err, m) ->
  exists reason mac pre bad rest,
    err = ErrInvalidMac reason mac
    /\ err <> ErrNotFound
    /\ lines = (pre ++ bad :: rest)%list
    /\ ParseMac mac = Err err
    /\ (exists g2, FindAllStringSubmatch (hd EmptyString (Split bad tab)) = Some (mac, g2))
    /\ scanLoop time_Parse pre db g = (g', None, m).
Proof.
  intros (pre & bad & rest & Hl & Hbad & Hpre)%scanLoop_failure_prefix.
  assert (exists s g2, FindAllStringSubmatch (hd EmptyString (Split bad tab)) = Some (s, g2)
                       /\ ParseMac s = Err err) as (s & g2 & Hf & Hs).
  { revert Hbad. unfold classify. destruct (skipLine bad); [done|].
    destruct (Split bad tab) as [|arr0 arr]; [done|]. simpl.
    destruct (HasPrefix _ _); [done|].
    destruct (FindAllStringSubmatch arr0) as [[s g2]|]; [|done].
    destruct (ParseMac s) eqn:Hs; [done|]. intros ?; simplify_eq. eauto. }
  pose proof Hs as Hs'. apply ParseMac_error in Hs' as [reason ->].
  exists reason, s, pre, bad, rest. repeat split; eauto.
Qed.

(** ** The generation time *)

Lemma scanLoop_time_untouched lines db g :
  Forall (fun text => generatedField text = None) lines ->
  (scanLoop time_Parse lines db g).1.1 = g.
Proof.
  revert lines db g.
  apply (scanLoop_run_ind time_Parse
           (fun lines db g =>
              Forall (fun text => generatedField text = None) lines ->
              (scanLoop time_Parse lines db g).1.1 = g)).
  - done.
  - intros text rest db g Hc IH Hall. rewrite scanLoop_skipped by done.
    apply IH. by inversion Hall.
  - intros text t0 rest db g Hc IH Hall. exfalso.
    apply classify_GeneratedLine_inv in Hc. inversion Hall; congruence.
  - intros text e rest db g Hc Hall. by rewrite (scanLoop_failed _ _ _ _ _ _ Hc).
  - intros text bt name rest db g Hc IH Hall.
    rewrite (scanLoop_header _ _ _ _ _ _ _ Hc). apply IH.
    destruct (collectAddress_split rest []) as (used & Hused & _).
    inversion Hall as [|? ? _ Hrest]; subst.
    rewrite Hused in Hrest. by apply Forall_app in Hrest as [_ ?].
Qed.

(** X13.  A stream in which no line has a first field that begins
    (after trimming) with "Generated: " leaves the generation time as
    it was: the database that [Open] or [OpenStatic] returns for it
    reports the zero time. *)
Theorem Open_without_Generated_line_has_zero_time
    (lines : list string) (h : heap) :
  Forall (fun text => generatedField text = None) lines ->
  exists db sdb err h',
    Open time_Parse lines h = Some (db, err, h')
    /\ OpenStatic time_Parse lines h = Some (sdb, err, h')
    /\ Generated db = Some (zeroTime, db)
    /\ static_Generated sdb = zeroTime.
Proof.
  intros Hall. pose proof (scanLoop_time_untouched lines ∅ None Hall) as Hg.
  eexists _, _, _, _. rewrite Open_eq, OpenStatic_eq, Hg. simpl.
  split; [done|]. split; [done|]. done.
Qed.

(** ** Opening a database *)

(** X14.  [Open] always returns, with the error of the scan.  The
    database has its lock free; [Generated] gives the time the scan
    found, the zero time when it found none; the map of the database
    is the map the scan built from the empty map, so that [LookUp]
    finds exactly its entries; and the maps that the program had
    before are unchanged. *)
Theorem Open_result (lines : list string) (h : heap) :
  exists db h',
    Open time_Parse lines h
    = Some (db, (scanLoop time_Parse lines ∅ None).1.2, h')
    /\ mu db = unlocked
    /\ Generated db
       = Some (default zeroTime (scanLoop time_Parse lines ∅ None).1.1, db)
    /\ h !! ouiDB db = None
    /\ h' !! ouiDB db = Some (scanLoop time_Parse lines ∅ None).2
    /\ (forall hw,
          LookUp db hw h'
          = Some (match (scanLoop time_Parse lines ∅ None).2 !! hw with
                  | Some e => Ok e
                  | None => Err ErrNotFound
                  end, db))
    /\ (forall l, is_Some (h !! l) -> h' !! l = h !! l).
Proof.
  eexists _, _. rewrite Open_eq. split; [done|]. simpl.
  destruct (make_fresh h) as [Hfresh _]. simpl in Hfresh.
  split; [done|]. split; [done|]. split; [done|].
  split; [by rewrite lookup_insert_eq|]. split.
  - intros hw. rewrite LookUp_eq by done. unfold lookupEntry. simpl.
    rewrite lookup_insert_eq. simpl. by destruct (_ !! hw).
  - intros l [x Hx]. rewrite lookup_insert_ne; [done|]. congruence.
Qed.

(** X15.  [OpenStatic] and [Open] build the same database from the
    same stream: the same error, the same map in the same heap, the
    same generation time, and [LookUp] and [Query] of the one give
    what [LookUp] and [Query] of the other give. *)
Theorem OpenStatic_agrees_with_Open (lines : list string) (h : heap) :
  exists sdb db hs hd err,
    OpenStatic time_Parse lines h = Some (sdb, err, hs)
    /\ Open time_Parse lines h = Some (db, err, hd)
    /\ hs = hd
    /\ static_RawDB sdb = ouiDB db
    /\ static_Generated sdb = dbTime db
    /\ (forall hw, LookUp db hw hd = Some (static_LookUp sdb hw hs, db))
    /\ (forall mac, Query db mac hd = Some (static_Query sdb mac hs, db)).
Proof.
  eexists _, _, _, _, _. rewrite OpenStatic_eq, Open_eq.
  split; [done|]. split; [done|]. split; [done|]. split; [done|]. split; [done|].
  split.
  - intros hw. by rewrite LookUp_eq.
  - intros mac. unfold Query, static_Query. destruct (ParseMac mac); [|done].
    by rewrite LookUp_eq.
Qed.

(** X16.  Every entry of an opened database can be asked for by the
    printed form of its own prefix: when [LookUp] of the database that
    [Open] returned finds the entry [e] under [hw], then [e] names
    [hw] as its prefix, [hw] is three bytes, the country of [e] is its
    last address line, and [Query] of [e.Prefix.String()] finds [e]
    again. *)
Theorem opened_entry_is_found_by_its_printed_prefix
    (lines : list string) (h h' : heap) (db db' : updateableDB)
    (err : option error) (hw : HardwareAddr) (e : Entry) :
  Open time_Parse lines h = Some (db, err, h') ->
  LookUp db hw h' = Some (Ok e, db') ->
  db' = db
  /\ Prefix e = hw
  /\ inRange hw
  /\ Country e = List.last (Address e) EmptyString
  /\ Query db (HardwareAddr_String (Prefix e)) h' = Some (Ok e, db).
Proof.
  rewrite Open_eq. intros ?; simplify_eq. rewrite LookUp_eq by done.
  unfold lookupEntry. simpl. rewrite lookup_insert_eq. simpl.
  destruct (_ !! hw) as [e'|] eqn:He; [|done]. intros ?; simplify_eq.
  split; [done|].
  pose proof (scanLoop_wellFormed lines ∅ None (map_Forall_empty _) hw e He)
    as (Hp & Hr & Hc).
  split; [done|]. split; [done|]. split; [done|].
  unfold Query. rewrite Hp, ParseMac_String by done.
  rewrite LookUp_eq by done. unfold lookupEntry. simpl.
  rewrite lookup_insert_eq. simpl. by rewrite He.
Qed.

(** ** Updates that succeed *)

(** X17.  [Update] with a stream that scans without error and holds no
    generation time replaces the content of the database: it returns
    nil with the lock free, the database keeps its generation time,
    its map is now the map scanned from the stream alone (entries of
    the old map that the stream does not have are gone), and the maps
    that the program had before, the old map of the database among
    them, are unchanged. *)
Theorem Update_without_time_replaces_content
    (db : updateableDB) (lines : list string) (h : heap)
    (m : gmap HardwareAddr Entry) :
  mu db = unlocked ->
  scanLoop time_Parse lines ∅ None = (None, None, m) ->
  exists db' h',
    Update time_Parse db lines h = Some (None, db', h')
    /\ dbTime db' = dbTime db
    /\ mu db' = unlocked
    /\ h' !! ouiDB db' = Some m
    /\ (forall hw,
          LookUp db' hw h'
          = Some (match m !! hw with Some e => Ok e | None => Err ErrNotFound end,
                  db'))
    /\ (forall l, is_Some (h !! l) -> h' !! l = h !! l).
Proof.
  destruct db as [l t mx]. simpl. intros -> Hscan.
  exists (mkUpdateable (make h).1 t unlocked), (<[(make h).1 := m]> h).
  unfold Update. pose proof (scanOUI_make time_Parse lines h) as Hs.
  destruct (make_fresh h) as [Hfresh _].
  destruct (make h) as [dst h1]. simpl in *. rewrite Hs, Hscan. simpl.
  split; [done|]. split; [done|]. split; [done|].
  split; [by rewrite lookup_insert_eq|]. split.
  - intros hw. rewrite LookUp_eq by done. unfold lookupEntry. simpl.
    rewrite lookup_insert_eq. simpl. by destruct (m !! hw).
  - intros l' [x Hx]. rewrite lookup_insert_ne; [done|]. congruence.
Qed.


End MoreScannerAndDatabase.

(** ** The printed form of an entry *)

Lemma append_assoc s t u : (s +:+ t) +:+ u = s +:+ t +:+ u.
Proof. induction s as [|c s IH]; [done|]. by rewrite !append_cons, IH. Qed.

Lemma containsByte_app s t c :
  containsByte (s +:+ t) c = containsByte s c || containsByte t c.
Proof.
  induction s as [|d s IH]; [done|].
  rewrite append_cons. simpl. by rewrite IH, orb_assoc.
Qed.

Lemma Split_no_sep s sep : containsByte s sep = false -> Split s sep = [s].
Proof.
  induction s as [|c s IH]; [done|]. simpl.
  intros [Hc Hs]%orb_false_iff. rewrite Ascii.eqb_sym, Hc. by rewrite IH.
Qed.

Lemma Split_app_sep s t sep :
  containsByte s sep = false ->
  Split (s +:+ String sep t) sep = s :: Split t sep.
Proof.
  induction s as [|c s IH].
  - intros _. rewrite append_nil. simpl. by rewrite Ascii.eqb_refl.
  - intros [Hc Hs]%orb_false_iff. rewrite append_cons. simpl.
    rewrite Ascii.eqb_sym, Hc. by rewrite IH.
Qed.

Lemma Join_cons x y rest sep :
  Join (x :: y :: rest) sep = x +:+ sep +:+ Join (y :: rest) sep.
Proof. done. Qed.

Lemma Split_Join (l : list string) :
  l <> [] -> Forall (fun s => noLf s = true) l ->
  Split (Join l (String lf "")) lf = l.
Proof.
  intros Hne Hall. induction Hall as [|x l Hx Hall IH]; [done|].
  unfold noLf in Hx. apply negb_true_iff in Hx.
  destruct l as [|y l].
  - simpl. by apply Split_no_sep.
  - rewrite Join_cons. rewrite append_cons, append_nil.
    rewrite Split_app_sep by done. by rewrite IH.
Qed.

Lemma Join_tabbed (a : string) (l : list string) :
  String tab (Join (a :: l) (String lf (String tab "")))
  = Join (map tabbed (a :: l)) (String lf "").
Proof.
  revert a. induction l as [|b l IH]; intros a; [done|].
  rewrite Join_cons. cbn [map]. rewrite Join_cons.
  change (tabbed b :: map tabbed l) with (map tabbed (b :: l)).
  rewrite <- (IH b).
  rewrite !append_cons, !append_nil. unfold tabbed. by rewrite append_cons.
Qed.

Lemma Join_cons_ne x rest sep :
  rest <> [] -> Join (x :: rest) sep = x +:+ sep +:+ Join rest sep.
Proof. by destruct rest. Qed.

Lemma Join_app l1 l2 sep :
  l1 <> [] -> l2 <> [] ->
  Join (l1 ++ l2) sep = Join l1 sep +:+ sep +:+ Join l2 sep.
Proof.
  intros H1 H2. induction l1 as [|x l1 IH]; [done|].
  destruct l1 as [|y l1].
  - simpl. by destruct l2.
  - change ((x :: y :: l1) ++ l2)%list with (x :: ((y :: l1) ++ l2))%list.
    rewrite Join_cons_ne by done. rewrite IH by done.
    rewrite Join_cons. by rewrite !append_assoc.
Qed.

(** A joined list that is an element of a list joined with the same
    separator counts as its elements. *)
Lemma Join_flatten pre l post sep :
  l <> [] ->
  Join (pre ++ Join l sep :: post) sep = Join (pre ++ l ++ post) sep.
Proof.
  intros Hl. induction pre as [|x pre IH].
  - simpl. destruct post as [|p post].
    + by rewrite app_nil_r.
    + by rewrite Join_app.
  - change ((x :: pre) ++ Join l sep :: post)%list
      with (x :: (pre ++ Join l sep :: post))%list.
    change ((x :: pre) ++ l ++ post)%list with (x :: (pre ++ l ++ post))%list.
    rewrite !Join_cons_ne, IH; [done| |].
    + destruct pre, l; done.
    + by destruct pre.
Qed.

Lemma noLf_app s t : noLf (s +:+ t) = noLf s && noLf t.
Proof. unfold noLf. by rewrite containsByte_app, negb_orb. Qed.

(** X19.  [Entry.String] writes one line for each item: the prefix in
    its printed form, the manufacturer, then, when there are address
    lines, the line "Address:" and every address line behind a tab,
    then "* Locally Administered" when the entry is local and
    "* Multicast" when it is multicast.  For an entry whose
    manufacturer and address lines hold no line feed, splitting the
    text at the line feeds gives back exactly these lines. *)
Theorem Entry_String_lines (e : Entry) :
  inRange (Prefix e) ->
  noLf (Manufacturer e) = true ->
  Forall (fun a => noLf a = true) (Address e) ->
  Split (Entry_String e) lf
  = (["Prefix: " +:+ HardwareAddr_String (Prefix e);
      "Manufacturer: " +:+ Manufacturer e]
     ++ match Address e with
        | [] => []
        | _ :: _ => "Address:" :: map tabbed (Address e)
        end
     ++ (if Local e then ["* Locally Administered"] else [])
     ++ (if Multicast e then ["* Multicast"] else []))%list.
Proof.
  intros Hr Hm Ha.
  apply HardwareAddr_String_shape in Hr as (_ & _ & _ & _ & _ & _ & _ & _ & _ & _ & _ & Hp).
  set (lines := (["Prefix: " +:+ HardwareAddr_String (Prefix e);
                  "Manufacturer: " +:+ Manufacturer e]
                 ++ match Address e with
                    | [] => []
                    | _ :: _ => "Address:" :: map tabbed (Address e)
                    end
                 ++ (if Local e then ["* Locally Administered"] else [])
                 ++ (if Multicast e then ["* Multicast"] else []))%list).
  assert (Hs : Entry_String e = Join lines (String lf "")).
  { unfold Entry_String, lines.
    destruct (Address e) as [|a l] eqn:Haddr; cbn [length Nat.ltb Nat.leb].
    - by destruct (Local e), (Multicast e).
    - rewrite Join_tabbed.
      destruct (Local e), (Multicast e); cbn [app];
        exact (Join_flatten [_; _; _] (map tabbed (a :: l)) _ _ ltac:(done)). }
  rewrite Hs. apply Split_Join; [done|].
  unfold lines. repeat apply Forall_app_2.
  - repeat constructor; rewrite noLf_app; [by rewrite Hp|by rewrite Hm].
  - destruct (Address e) as [|a l]; [constructor|].
    constructor; [done|]. apply Forall_fmap.
    eapply Forall_impl; [exact Ha|]. intros s Hs'. unfold tabbed, noLf in *.
    simpl. done.
  - destruct (Local e); by repeat constructor.
  - destruct (Multicast e); by repeat constructor.
Qed.

(** ** [PrintDb] *)

Lemma land_255 x : Z.land x 255 = x mod 256.
Proof. exact (Z.land_ones x 8 ltac:(lia)). Qed.

Lemma hwOfIndex_eq i :
  hwOfIndex i = ((i / 65536) mod 256, (i / 256) mod 256, i mod 256).
Proof.
  unfold hwOfIndex. rewrite !land_255, !Z.shiftr_div_pow2 by lia. reflexivity.
Qed.

Lemma hwOfIndex_inRange i : inRange (hwOfIndex i).
Proof.
  rewrite hwOfIndex_eq. unfold inRange. simpl.
  repeat split; apply Z.mod_pos_bound; lia.
Qed.

Lemma hwIndex_hwOfIndex i : 0 <= i < 2 ^ 24 -> hwIndex (hwOfIndex i) = i.
Proof.
  intros Hi. rewrite hwOfIndex_eq. unfold hwIndex. simpl.
  change (2 ^ 24) with 16777216 in Hi.
  rewrite (Z.mod_small (i / 65536)) by (split; [apply Z.div_pos; lia|apply Z.div_lt_upper_bound; lia]).
  pose proof (Z.div_mod i 256 ltac:(lia)) as H1.
  pose proof (Z.div_mod (i / 256) 256 ltac:(lia)) as H2.
  rewrite Z.div_div in H2 by lia. change (256 * 256) with 65536 in H2. lia.
Qed.

Lemma hwOfIndex_hwIndex hw :
  inRange hw -> hwOfIndex (hwIndex hw) = hw /\ 0 <= hwIndex hw < 2 ^ 24.
Proof.
  destruct hw as [[a b] c]. intros (Ha & Hb & Hc). simpl in *.
  rewrite hwOfIndex_eq. unfold hwIndex. simpl. split; [|lia].
  replace ((a * 65536 + b * 256 + c) / 65536) with a
    by (apply Z.div_unique_pos with (r := b * 256 + c); lia).
  replace ((a * 65536 + b * 256 + c) / 256) with (a * 256 + b)
    by (apply Z.div_unique_pos with (r := c); lia).
  rewrite (Z.mod_small a) by lia.
  replace ((a * 256 + b) mod 256) with b
    by (apply Z.mod_unique_pos with (q := a); lia).
  replace ((a * 65536 + b * 256 + c) mod 256) with c
    by (apply Z.mod_unique_pos with (q := a * 256 + b); lia).
  reflexivity.
Qed.

Lemma foundBelow_S m k :
  foundBelow m (S k)
  = (foundBelow m k
     ++ match m !! hwOfIndex (Z.of_nat k) with
        | Some e => [(hwOfIndex (Z.of_nat k), e)]
        | None => []
        end)%list.
Proof.
  unfold foundBelow. rewrite seq_S, omap_app. simpl.
  by destruct (m !! hwOfIndex (Z.of_nat k)).
Qed.

Lemma foundBelow_spec m k :
  (Z.of_nat k <= 2 ^ 24) ->
  StronglySorted (fun a b : HardwareAddr * Entry => hwIndex a.1 < hwIndex b.1)
                 (foundBelow m k)
  /\ (forall hw e, (hw, e) ∈ foundBelow m k
                   <-> m !! hw = Some e /\ inRange hw /\ hwIndex hw < Z.of_nat k).
Proof.
  induction k as [|k IH]; intros Hk.
  - split; [constructor|]. intros hw e. unfold foundBelow. simpl. split.
    + by intros ?%elem_of_nil.
    + intros (_ & Hr & Hi). apply hwOfIndex_hwIndex in Hr. lia.
  - destruct IH as [Hsorted Hmem]; [lia|]. rewrite foundBelow_S.
    assert (Hidx : hwIndex (hwOfIndex (Z.of_nat k)) = Z.of_nat k)
      by (apply hwIndex_hwOfIndex; lia).
    split.
    + apply StronglySorted_app_2; [|done|].
      * intros [hw1 e1] [hw2 e2] H1 H2.
        apply Hmem in H1 as (_ & _ & H1).
        destruct (m !! hwOfIndex (Z.of_nat k)); [|by apply elem_of_nil in H2].
        apply list_elem_of_singleton in H2. simplify_eq. simpl. lia.
      * destruct (m !! hwOfIndex (Z.of_nat k)); repeat constructor.
    + intros hw e. rewrite elem_of_app, Hmem. split.
      * intros [(H1 & H2 & H3)|H].
        { split; [done|]. split; [done|]. lia. }
        destruct (m !! hwOfIndex (Z.of_nat k)) as [e'|] eqn:He;
          [|by apply elem_of_nil in H].
        apply list_elem_of_singleton in H. simplify_eq.
        split; [done|]. split; [apply hwOfIndex_inRange|lia].
      * intros (H1 & H2 & H3).
        destruct (decide (hwIndex hw < Z.of_nat k)) as [Hlt|Hge]; [by left|].
        right. assert (hwIndex hw = Z.of_nat k) as Heq by lia.
        apply hwOfIndex_hwIndex in H2 as [H2 _]. rewrite Heq in H2.
        rewrite H2, H1. by apply list_elem_of_singleton.
Qed.

Section PrintLoop.
Context {T : Type} `{OuiDB T}.
Variables (db : T) (h : heap) (m : gmap HardwareAddr Entry).
Hypothesis db_LookUp_m :
  forall hw, db_LookUp db hw h
             = Some (match m !! hw with
                     | Some e => Ok e
                     | None => Err ErrNotFound
                     end, db).

Lemma printStep_turns k :
  exists hw,
    Nat.iter k (printStep h) (Some (0, hwZero, O, [], db))
    = Some (Z.of_nat k, hw, length (foundBelow m k),
            map (fun ke => Entry_String ke.2 +:+ String lf (String lf EmptyString))
                (foundBelow m k),
            db).
Proof.
  induction k as [|k [hw IH]]; [by exists hwZero|].
  exists (hwOfIndex (Z.of_nat k)). cbn [Nat.iter nat_rect]. 
  change (nat_rect _ ?x (fun _ => ?f) k) with (Nat.iter k f x).
  rewrite IH. unfold printStep at 1. cbn [mbind option_bind].
  assert (hwSet (hwSet (hwSet hw 2 (Z.land (Z.of_nat k) 255)) 1
                       (Z.land (Z.shiftr (Z.of_nat k) 8) 255)) 0
                (Z.land (Z.shiftr (Z.of_nat k) 16) 255)
          = hwOfIndex (Z.of_nat k)) as -> by (by destruct hw as [[? ?] ?]).
  rewrite db_LookUp_m. cbn [mbind option_bind]. rewrite foundBelow_S.
  replace (Z.of_nat k + 1) with (Z.of_nat (S k)) by lia.
  destruct (m !! hwOfIndex (Z.of_nat k)) as [e|].
  - rewrite length_app, map_app. simpl. by rewrite Nat.add_1_r.
  - by rewrite !app_nil_r.
Qed.

Lemma PrintDb_foundBelow elapsed :
  PrintDb db h elapsed
  = Some (printed (foundBelow m (N.to_nat (2 ^ 24))) elapsed, db).
Proof.
  unfold PrintDb. rewrite N2Nat.inj_iter.
  generalize (N.to_nat (2 ^ 24)). intros k.
  destruct (printStep_turns k) as [hw ->]. reflexivity.
Qed.

End PrintLoop.

(** X20.  [PrintDb] prints every entry of the database once, by
    increasing prefix, and counts them.  For a static database and for
    an updateable database that no writer holds, both on the map [m]:
    the text written is the text of [Entry.String] followed by two
    line feeds for each entry of a list, and then the line with the
    length of that list; the list is sorted by the 24-bit value of the
    address, it holds exactly the entries that [m] has under addresses
    of three bytes, and when all addresses of [m] are such (as in
    every scanned map) its length is the size of [m].  The updateable
    database is left with its lock as it was. *)
Theorem PrintDb_prints_every_entry_once
    (sdb : staticDB) (db : updateableDB) (h : heap)
    (m : gmap HardwareAddr Entry) (elapsed : string) :
  h !! static_ouiDB sdb = Some m ->
  h !! ouiDB db = Some m ->
  writer (mu db) = false ->
  exists kes : list (HardwareAddr * Entry),
    PrintDb sdb h elapsed = Some (printed kes elapsed, sdb)
    /\ PrintDb db h elapsed = Some (printed kes elapsed, db)
    /\ StronglySorted (fun a b : HardwareAddr * Entry => hwIndex a.1 < hwIndex b.1) kes
    /\ (forall hw e, (hw, e) ∈ kes <-> m !! hw = Some e /\ inRange hw)
    /\ (map_Forall (fun hw _ => inRange hw) m -> length kes = size m).
Proof.
  intros Hs Hd Hw. exists (foundBelow m (N.to_nat (2 ^ 24))).
  split; [|split].
  { apply (PrintDb_foundBelow sdb h m). intros hw. cbn.
    unfold static_LookUp, lookupEntry. rewrite Hs. simpl. by destruct (m !! hw). }
  { apply (PrintDb_foundBelow db h m). intros hw. cbn.
    rewrite LookUp_eq by done. unfold lookupEntry. rewrite Hd. simpl.
    by destruct (m !! hw). }
  assert (Hk : Z.of_nat (N.to_nat (2 ^ 24)) = 2 ^ 24)
    by (rewrite N_nat_Z; reflexivity).
  revert Hk. generalize (N.to_nat (2 ^ 24)). intros k Hk.
  destruct (foundBelow_spec m k) as [Hsorted Hmem]; [lia|].
  assert (Hmem' : forall hw e, (hw, e) ∈ foundBelow m k
                               <-> m !! hw = Some e /\ inRange hw).
  { intros hw e. rewrite Hmem. split; [by intros (? & ? & ?)|].
    intros [H1 H2]. split; [done|]. split; [done|].
    apply hwOfIndex_hwIndex in H2. lia. }
  split; [done|]. split; [done|].
  intros Hall. rewrite <- length_map_to_list. apply Permutation_length.
  apply NoDup_Permutation.
  - clear -Hsorted. induction Hsorted as [|x l _ IH Hx]; constructor; [|done].
    intros Hin. rewrite Forall_forall in Hx. specialize (Hx _ Hin). lia.
  - apply NoDup_map_to_list.
  - intros [hw e]. rewrite Hmem', elem_of_map_to_list. split; [by intros [? ?]|].
    intros He. split; [done|]. exact (Hall hw e He).
Qed.

(** ** The earlier revision: [src/oui.go] *)

Section LegacyProperties.
Variable time_Parse : string -> string -> option Time.

Lemma Legacy_Open_eq lines updateable h :
  Legacy.Open time_Parse lines updateable h
  = Some (if updateable then
            Legacy.Dynamic
              (mkUpdateable (make h).1
                 (default zeroTime (scanLoop time_Parse lines ∅ None).1.1) unlocked)
          else
            Legacy.Static
              (mkStatic (make h).1
                 (default zeroTime (scanLoop time_Parse lines ∅ None).1.1)),
          (scanLoop time_Parse lines ∅ None).1.2,
          <[(make h).1 := (scanLoop time_Parse lines ∅ None).2]> h).
Proof.
  unfold Legacy.Open. pose proof (scanOUI_make time_Parse lines h) as Hscan.
  destruct (make h) as [dst h1]. simpl in *.
  destruct updateable; simpl; rewrite Hscan; simpl;
    by destruct (scanLoop time_Parse lines ∅ None) as [[[t|] err] m].
Qed.

(** X21.  In the earlier revision the flag of [Open] chooses the
    database: with [true] it returns what [Open] of the later revision
    returns, with [false] what [OpenStatic] returns, with the same
    error and the same heap.  [Update] on the database opened with
    [false] returns [ErrNotUpdateable] for every stream, before it
    reads the stream: no map is made or touched and the database is
    as it was. *)
Theorem Legacy_Open_flag_and_static_Update (lines : list string) (h : heap) :
  exists db sdb err h',
    Open time_Parse lines h = Some (db, err, h')
    /\ OpenStatic time_Parse lines h = Some (sdb, err, h')
    /\ Legacy.Open time_Parse lines true h = Some (Legacy.Dynamic db, err, h')
    /\ Legacy.Open time_Parse lines false h = Some (Legacy.Static sdb, err, h')
    /\ (forall lines2 h2,
          Legacy.Update time_Parse (Legacy.Static sdb) lines2 h2
          = Some (Some Legacy.ErrNotUpdateable, Legacy.Static sdb, h2))
    /\ Legacy.Generated (Legacy.Static sdb) = Legacy.Generated (Legacy.Dynamic db)
    /\ (forall hw,
          Legacy.LookUp (Legacy.Dynamic db) hw h'
          = Some (static_LookUp sdb hw h', Legacy.Dynamic db)).
Proof.
  eexists _, _, _, _. rewrite Open_eq, OpenStatic_eq, !Legacy_Open_eq.
  split; [done|]. split; [done|]. split; [done|]. split; [done|].
  split; [done|]. split; [done|].
  intros hw. unfold Legacy.LookUp. by rewrite LookUp_eq.
Qed.

(** X22.  In the earlier revision [Update] on an updateable database
    whose lock is free always returns when the stream scans without
    error, with or without a generation time: it returns nil with the
    lock free, the generation time is the time of the stream when it
    has one and the old time otherwise, the map of the database is the
    map scanned from the stream alone, and the maps that the program
    had before are unchanged.  ([generatedAt] is here the method of
    the embedded [dbTime], which takes no lock.) *)
Theorem Legacy_Update_replaces_content_and_time
    (db : updateableDB) (lines : list string) (h : heap)
    (g : option Time) (m : gmap HardwareAddr Entry) :
  mu db = unlocked ->
  scanLoop time_Parse lines ∅ None = (g, None, m) ->
  exists db' h',
    Legacy.Update time_Parse (Legacy.Dynamic db) lines h
    = Some (None, Legacy.Dynamic db', h')
    /\ dbTime db' = default (dbTime db) g
    /\ Legacy.Generated (Legacy.Dynamic db') = default (dbTime db) g
    /\ mu db' = unlocked
    /\ h' !! ouiDB db' = Some m
    /\ (forall hw,
          Legacy.LookUp (Legacy.Dynamic db') hw h'
          = Some (match m !! hw with Some e => Ok e | None => Err ErrNotFound end,
                  Legacy.Dynamic db'))
    /\ (forall l, is_Some (h !! l) -> h' !! l = h !! l).
Proof.
  destruct db as [l t mx]. simpl. intros -> Hscan.
  exists (mkUpdateable (make h).1 (default t g) unlocked), (<[(make h).1 := m]> h).
  pose proof (scanOUI_make time_Parse lines h) as Hs.
  destruct (make_fresh h) as [Hfresh _].
  unfold Legacy.Update. unfold make in *. simpl in *. rewrite Hs, Hscan. simpl.
  split; [by destruct g|]. split; [done|]. split; [done|]. split; [done|].
  split; [by rewrite lookup_insert_eq|]. split.
  - intros hw. unfold Legacy.LookUp. rewrite LookUp_eq by done.
    unfold lookupEntry. simpl. rewrite lookup_insert_eq. simpl.
    by destruct (m !! hw).
  - intros l' [x Hx]. rewrite lookup_insert_ne; [done|]. congruence.
Qed.

End LegacyProperties.

(** ** The further theorems on the sample streams *)

Lemma ParseMac_reads_back_String_witness :
  inRange (208, 223, 154)
  /\ HardwareAddr_String (208, 223, 154) = "d0:df:9a"
  /\ ParseMac (HardwareAddr_String (208, 223, 154)) = Ok (208, 223, 154)
  /\ ParseMac (HardwareAddr_String (208, 223, 154) +:+ ":" +:+ "d8:44:4b")
     = Ok (208, 223, 154).
Proof.
  assert (H : inRange (208, 223, 154)) by (unfold inRange; simpl; lia).
  split; [exact H|]. split; [reflexivity|].
  exact (proj2 (ParseMac_reads_back_String (208, 223, 154) "d8:44:4b" H)).
Defined.

Lemma UnmarshalJSON_MarshalJSON_witness :
  inRange (0, 96, 147)
  /\ HardwareAddr_UnmarshalJSON hwZero (HardwareAddr_MarshalJSON (0, 96, 147))
     = ((0, 96, 147), None).
Proof.
  assert (H : inRange (0, 96, 147)) by (unfold inRange; simpl; lia).
  split; [exact H|]. exact (UnmarshalJSON_MarshalJSON hwZero (0, 96, 147) H).
Defined.

Lemma ParseMac_names_failing_element_witness :
  ParseMac "54-CD-"
  = Err (ErrInvalidMac "Address element 3 () is not 2 characters" "54-CD-")
  /\ ParseMac "54-CD-xy-00"
     = Err (ErrInvalidMac
              "Address element 3 (xy) cannot be parsed as hex value: expected integer"
              "54-CD-xy-00").
Proof.
  split.
  - apply (ParseMac_names_failing_element "54-CD-" "" ["54"; "CD"] []).
    + simpl. lia.
    + reflexivity.
    + simpl. lia.
    + simpl. lia.
    + repeat constructor.
    + simpl. lia.
  - apply (ParseMac_names_failing_element "54-CD-xy-00" "xy" ["54"; "CD"] ["00"]).
    + simpl. lia.
    + reflexivity.
    + simpl. lia.
    + simpl. lia.
    + repeat constructor.
    + reflexivity.
    + vm_compute. reflexivity.
Defined.

Lemma Query_any_separator_witness :
  Query sampleOpened "00-60-93" sampleHeap
  = LookUp sampleOpened (0, 96, 147) sampleHeap
  /\ Query sampleOpened "00:60:93:98:02:01" sampleHeap
     = LookUp sampleOpened (0, 96, 147) sampleHeap
  /\ static_Query (mkStatic 1%positive zeroTime) "006093980201" sampleHeap
     = static_LookUp (mkStatic 1%positive zeroTime) (0, 96, 147) sampleHeap.
Proof.
  destruct (Query_any_separator sampleOpened (mkStatic 1%positive zeroTime) sampleHeap
              "0" "0" "6" "0" "9" "3" "98:02:01")
    as (H1 & _ & _ & _ & H5 & _); try reflexivity.
  destruct (Query_any_separator sampleOpened (mkStatic 1%positive zeroTime) sampleHeap
              "0" "0" "6" "0" "9" "3" "980201")
    as (_ & _ & _ & _ & _ & _ & _ & _ & _ & _ & _ & H12); try reflexivity.
  split; [exact H1|]. split; [exact H5|exact H12].
Defined.

Lemma sampleHeap_allocated : is_Some (sampleHeap !! 1%positive).
Proof. eexists. apply lookup_insert_eq. Defined.

Lemma UpdateEntry_then_LookUp_witness :
  mu sampleOpened = unlocked
  /\ is_Some (sampleHeap !! ouiDB sampleOpened)
  /\ exists h',
       UpdateEntry sampleOpened (0, 0, 1) (finishEntry (0, 0, 1) "XEROX" []) sampleHeap
       = Some (sampleOpened, h')
       /\ LookUp sampleOpened (0, 0, 1) h'
          = Some (Ok (finishEntry (0, 0, 1) "XEROX" []), sampleOpened).
Proof.
  split; [reflexivity|]. split; [exact sampleHeap_allocated|].
  destruct (UpdateEntry_then_LookUp sampleOpened (0, 0, 1)
              (finishEntry (0, 0, 1) "XEROX" []) sampleHeap eq_refl
              sampleHeap_allocated) as (h' & H1 & H2 & _).
  exists h'. split; [exact H1|exact H2].
Defined.

Lemma DeleteEntry_then_LookUp_witness :
  mu sampleOpened = unlocked
  /\ exists h',
       DeleteEntry sampleOpened (0, 96, 147) sampleHeap = Some (sampleOpened, h')
       /\ LookUp sampleOpened (0, 96, 147) h' = Some (Err ErrNotFound, sampleOpened).
Proof.
  split; [reflexivity|].
  destruct (DeleteEntry_then_LookUp sampleOpened (0, 96, 147) sampleHeap eq_refl)
    as (h' & H1 & H2 & _).
  exists h'. split; [exact H1|exact H2].
Defined.

Lemma RawDB_is_the_map_of_the_database_witness :
  is_Some (sampleHeap !! static_ouiDB (mkStatic 1%positive zeroTime))
  /\ exists h',
       set (static_RawDB (mkStatic 1%positive zeroTime)) (0, 0, 1)
           (finishEntry (0, 0, 1) "XEROX" []) sampleHeap = Some h'
       /\ static_LookUp (mkStatic 1%positive zeroTime) (0, 0, 1) h'
          = Ok (finishEntry (0, 0, 1) "XEROX" []).
Proof.
  split; [exact sampleHeap_allocated|].
  destruct (RawDB_is_the_map_of_the_database (mkStatic 1%positive zeroTime) (0, 0, 1)
              (finishEntry (0, 0, 1) "XEROX" []) sampleHeap sampleHeap_allocated)
    as (h' & H1 & H2 & _).
  exists h'. split; [exact H1|exact H2].
Defined.

Lemma scanLoop_keeps_other_entries_witness :
  let old : gmap HardwareAddr Entry :=
    {[ (2, 96, 148) := finishEntry (2, 96, 148) "IBM CORP." [] ]} in
  Forall (fun text => namesPrefix (2, 96, 148) text = false) newerDb
  /\ (scanLoop timeParse newerDb old None).2 !! ((2, 96, 148) : HardwareAddr)
     = old !! ((2, 96, 148) : HardwareAddr).
Proof.
  intros old.
  assert (H : Forall (fun text => namesPrefix (2, 96, 148) text = false) newerDb)
    by (repeat constructor).
  split; [exact H|].
  exact (proj1 (scanLoop_keeps_other_entries timeParse newerDb old None (2, 96, 148) H)).
Defined.


Lemma scan_error_is_ErrInvalidMac_witness :
  exists reason mac,
    (scanLoop timeParse brokenDb ∅ None).1.2 = Some (ErrInvalidMac reason mac)
    /\ ParseMac mac = Err (ErrInvalidMac reason mac).
Proof.
  destruct (scan_error_is_ErrInvalidMac timeParse brokenDb ∅
              (scanLoop timeParse brokenDb ∅ None).2 None None
              (ErrInvalidMac "Unable to find at least 3 address elements" "00-60:96"))
    as (reason & mac & pre & bad & rest & He & _ & _ & Hp & _).
  - rewrite (pair_eta (scanLoop timeParse brokenDb ∅ None)) at 1.
    assert ((scanLoop timeParse brokenDb ∅ None).1
            = (None, Some (ErrInvalidMac "Unable to find at least 3 address elements"
                             "00-60:96")))
      as Hr by (vm_compute; reflexivity).
    rewrite Hr. reflexivity.
  - exists reason, mac. rewrite <- He. split; [|exact Hp].
    vm_compute. reflexivity.
Defined.

Lemma Open_without_Generated_line_has_zero_time_witness :
  Forall (fun text => generatedField text = None) newerDb
  /\ exists db err h',
       Open timeParse newerDb ∅ = Some (db, err, h')
       /\ Generated db = Some (zeroTime, db).
Proof.
  assert (H : Forall (fun text => generatedField text = None) newerDb)
    by (repeat constructor).
  split; [exact H|].
  destruct (Open_without_Generated_line_has_zero_time timeParse newerDb ∅ H)
    as (db & sdb & err & h' & H1 & _ & H3 & _).
  exists db, err, h'. split; [exact H1|exact H3].
Defined.

Lemma sampleOpened_LookUp :
  LookUp sampleOpened (0, 96, 147) sampleHeap
  = Some (Ok {| Manufacturer := "VARIAN";
                Address := ["3100 Hansen Way"; "UNITED STATES"];
                Prefix := (0, 96, 147);
                Country := "UNITED STATES";
                Local := false;
                Multicast := false |}, sampleOpened).
Proof. vm_compute. reflexivity. Qed.

Lemma opened_entry_is_found_by_its_printed_prefix_witness :
  Query sampleOpened "00:60:93" sampleHeap
  = Some (Ok {| Manufacturer := "VARIAN";
                Address := ["3100 Hansen Way"; "UNITED STATES"];
                Prefix := (0, 96, 147);
                Country := "UNITED STATES";
                Local := false;
                Multicast := false |}, sampleOpened).
Proof.
  exact (proj2 (proj2 (proj2 (proj2
           (opened_entry_is_found_by_its_printed_prefix timeParse sampleDb ∅ sampleHeap
              sampleOpened sampleOpened None (0, 96, 147) _
              Open_sample sampleOpened_LookUp))))).
Defined.

Lemma newerDb_scan :
  scanLoop timeParse newerDb ∅ None
  = (None, None, (scanLoop timeParse newerDb ∅ None).2).
Proof.
  rewrite (pair_eta (scanLoop timeParse newerDb ∅ None)) at 1.
  assert ((scanLoop timeParse newerDb ∅ None).1 = (None, None))
    as Hr by (vm_compute; reflexivity).
  rewrite Hr. reflexivity.
Qed.

Lemma Update_without_time_replaces_content_witness :
  mu sampleOpened = unlocked
  /\ exists db' h',
       Update timeParse sampleOpened newerDb sampleHeap = Some (None, db', h')
       /\ dbTime db' = mkTime 2015 1 20 7 1 36 0 (-18000)
       /\ h' !! ouiDB db' = Some (scanLoop timeParse newerDb ∅ None).2.
Proof.
  split; [reflexivity|].
  destruct (Update_without_time_replaces_content timeParse sampleOpened newerDb
              sampleHeap (scanLoop timeParse newerDb ∅ None).2 eq_refl newerDb_scan)
    as (db' & h' & H1 & H2 & _ & H4 & _).
  exists db', h'. split; [exact H1|]. split; [exact H2|exact H4].
Defined.

Lemma sampleDb_scan :
  scanLoop timeParse sampleDb ∅ None
  = (Some (mkTime 2015 1 20 7 1 36 0 (-18000)), None,
     (scanLoop timeParse sampleDb ∅ None).2).
Proof.
  rewrite (pair_eta (scanLoop timeParse sampleDb ∅ None)) at 1.
  assert ((scanLoop timeParse sampleDb ∅ None).1
          = (Some (mkTime 2015 1 20 7 1 36 0 (-18000)), None))
    as Hr by (vm_compute; reflexivity).
  rewrite Hr. reflexivity.
Qed.


Lemma Entry_String_lines_witness :
  let e := {| Manufacturer := "VARIAN";
              Address := ["3100 Hansen Way"; "UNITED STATES"];
              Prefix := (0, 96, 147);
              Country := "UNITED STATES";
              Local := false;
              Multicast := false |} in
  Split (Entry_String e) lf
  = ["Prefix: 00:60:93"; "Manufacturer: VARIAN"; "Address:";
     tabbed "3100 Hansen Way"; tabbed "UNITED STATES"].
Proof.
  intros e.
  exact (Entry_String_lines e
           ltac:(unfold inRange; simpl; lia) eq_refl
           ltac:(repeat constructor)).
Defined.

Lemma PrintDb_prints_every_entry_once_witness :
  exists kes : list (HardwareAddr * Entry),
    PrintDb (mkStatic 1%positive zeroTime) sampleHeap "1s"
    = Some (printed kes "1s", mkStatic 1%positive zeroTime)
    /\ PrintDb sampleOpened sampleHeap "1s" = Some (printed kes "1s", sampleOpened)
    /\ length kes = size (scanLoop timeParse sampleDb ∅ None).2.
Proof.
  destruct (PrintDb_prints_every_entry_once (mkStatic 1%positive zeroTime)
              sampleOpened sampleHeap (scanLoop timeParse sampleDb ∅ None).2 "1s"
              (lookup_insert_eq _ _ _) (lookup_insert_eq _ _ _) eq_refl)
    as (kes & H1 & H2 & _ & _ & Hlen).
  exists kes. split; [exact H1|]. split; [exact H2|].
  apply Hlen. intros hw e He.
  exact (proj1 (proj2 (scanLoop_wellFormed timeParse sampleDb ∅ None
                         (map_Forall_empty _) hw e He))).
Defined.

Lemma Legacy_Update_replaces_content_and_time_witness :
  mu (mkUpdateable 1%positive zeroTime unlocked) = unlocked
  /\ exists db' h',
       Legacy.Update timeParse (Legacy.Dynamic (mkUpdateable 1%positive zeroTime unlocked))
         sampleDb sampleHeap
       = Some (None, Legacy.Dynamic db', h')
       /\ dbTime db' = mkTime 2015 1 20 7 1 36 0 (-18000).
Proof.
  split; [reflexivity|].
  destruct (Legacy_Update_replaces_content_and_time timeParse
              (mkUpdateable 1%positive zeroTime unlocked) sampleDb sampleHeap
              _ _ eq_refl sampleDb_scan)
    as (db' & h' & H1 & H2 & _).
  exists db', h'. split; [exact H1|exact H2].
Defined.
